(** * depositListener: address derivation and deposit ingestion

    A shallow embedding of [src/address.ts] (class [AddressUtils]) and of
    [src/monitor.ts] (class [SeiDepositMonitor]), current revision of each
    file, together with the properties of the specification that can be
    settled on it.

    Conventions.
    - JavaScript numbers that go through the 32-bit operators ([<<], [>>],
      [|], [&], [^]) are integers in [Z]; every operator wraps its operands
      with [toInt32], as ECMAScript does.
    - Strings are [string] (8-bit characters); the functions that look at
      single characters work on [list ascii].
    - A call either returns, throws, or does not terminate: [outcome]. *)

From Stdlib Require Import ZArith List String Ascii Bool Lia.
Import ListNotations.
Open Scope Z_scope.

(** ** Results of calls *)

Inductive outcome (A : Type) : Type :=
| Returns (a : A)
| Throws (msg : string)
| Diverges.

Arguments Returns {A} a.
Arguments Throws {A} msg.
Arguments Diverges {A}.

Definition bind {A B : Type} (m : outcome A) (k : A -> outcome B) : outcome B :=
  match m with
  | Returns a => k a
  | Throws msg => Throws msg
  | Diverges => Diverges
  end.

(** [try { body } catch (e) { handler(e.message) }] *)
Definition try_catch {A : Type} (body : outcome A) (handler : string -> outcome A)
  : outcome A :=
  match body with
  | Throws msg => handler msg
  | other => other
  end.

Notation "x <- m ;; k" := (bind m (fun x => k))
  (at level 61, m at next level, right associativity).

(** ** 32-bit integer operators of JavaScript *)

Module JS.

(** ECMAScript [ToInt32] on an integer. *)
Definition toInt32 (z : Z) : Z := (z + 2 ^ 31) mod 2 ^ 32 - 2 ^ 31.

(** The shift count of [<<] and [>>] is taken modulo 32. *)
Definition shl (a n : Z) : Z := toInt32 (Z.shiftl (toInt32 a) (Z.land n 31)).
Definition sar (a n : Z) : Z := Z.shiftr (toInt32 a) (Z.land n 31).
Definition or (a b : Z) : Z := Z.lor (toInt32 a) (toInt32 b).
Definition and (a b : Z) : Z := Z.land (toInt32 a) (toInt32 b).
Definition xor (a b : Z) : Z := Z.lxor (toInt32 a) (toInt32 b).

End JS.

(** ** Text: the string methods and regular expressions the code uses *)

Module Text.

Definition chars (s : string) : list ascii := list_ascii_of_string s.
Definition text (cs : list ascii) : string := string_of_list_ascii cs.

(** [charCodeAt] and [String.fromCharCode] *)
Definition code (c : ascii) : Z := Z.of_N (N_of_ascii c).
Definition char_of (z : Z) : ascii := ascii_of_N (Z.to_N z).

Definition len (s : string) : Z := Z.of_nat (String.length s).

Definition inRange (lo hi : Z) (c : ascii) : bool :=
  (lo <=? code c) && (code c <=? hi).

(** The letters among the code units below 256: A to Z and, but for the
    multiplication and division signs, 192 to 222 with their lower case
    32 above. *)
Definition lowerChar (c : ascii) : ascii :=
  if inRange 65 90 c || (inRange 192 222 c && negb (code c =? 215))
  then char_of (code c + 32)
  else c.
Definition upperChar (c : ascii) : ascii :=
  if inRange 97 122 c || (inRange 224 254 c && negb (code c =? 247))
  then char_of (code c - 32)
  else c.

Definition toLowerCase (s : string) : string := text (map lowerChar (chars s)).

(** Exact where no character is [181], [223] or [255], whose upper case
    is not a code unit below 256. *)
Definition toUpperCase (s : string) : string := text (map upperChar (chars s)).

(** [s === s.toUpperCase()], for every [s]. *)
Definition isUpperCase (s : string) : bool :=
  forallb (fun c => Ascii.eqb (upperChar c) c
                    && negb ((code c =? 181) || (code c =? 223) || (code c =? 255)))
          (chars s).

Fixpoint startsWithChars (pat cs : list ascii) : bool :=
  match pat, cs with
  | [], _ => true
  | p :: pat', c :: cs' => Ascii.eqb p c && startsWithChars pat' cs'
  | _ :: _, [] => false
  end.

Definition startsWith (pat s : string) : bool :=
  startsWithChars (chars pat) (chars s).

(** [s.replace(pat, rep)] with a string pattern: the first occurrence only. *)
Fixpoint replaceChars (pat rep cs : list ascii) : list ascii :=
  if startsWithChars pat cs then rep ++ skipn (List.length pat) cs
  else match cs with
       | [] => []
       | c :: cs' => c :: replaceChars pat rep cs'
       end.

Definition replace (pat rep s : string) : string :=
  text (replaceChars (chars pat) (chars rep) (chars s)).

(** [s.slice(n)] *)
Definition sliceFrom (n : nat) (s : string) : string := text (skipn n (chars s)).

(** [s.endsWith(pat)]: the last [pat.length] code units are [pat]. *)
Definition endsWith (pat s : string) : bool :=
  let start := (List.length (chars s) - List.length (chars pat))%nat in
  (List.length (chars pat) <=? List.length (chars s))%nat
  && String.eqb (text (skipn start (chars s))) pat.

(** Value of a hexadecimal digit, [None] for any other character. *)
Definition hexDigit (c : ascii) : option Z :=
  if inRange 48 57 c then Some (code c - 48)
  else if inRange 97 102 c then Some (code c - 87)
  else if inRange 65 70 c then Some (code c - 55)
  else None.

Definition isHexDigit (c : ascii) : bool :=
  match hexDigit c with Some _ => true | None => false end.

Definition isLowerHexDigit (c : ascii) : bool :=
  inRange 48 57 c || inRange 97 102 c.

(** Equality test on an optional digit or index. *)
Definition sameOption (a b : option Z) : bool :=
  match a, b with
  | Some x, Some y => x =? y
  | None, None => true
  | _, _ => false
  end.

(** [/^0x[0-9a-fA-F]{40}$/] *)
Definition re_ethAddress (s : string) : bool :=
  match chars s with
  | "0"%char :: "x"%char :: rest =>
      (List.length rest =? 40)%nat && forallb isHexDigit rest
  | _ => false
  end.

(** [/^[0-9a-f]{40}$/] *)
Definition re_lowerHex40 (s : string) : bool :=
  (List.length (chars s) =? 40)%nat && forallb isLowerHexDigit (chars s).

(** [/^[0-9a-fA-F]+$/] *)
Definition re_hex (s : string) : bool :=
  negb (List.length (chars s) =? 0)%nat && forallb isHexDigit (chars s).

End Text.

(** ** Node's [Buffer]: the two text encodings the code decodes *)

Module Buffer.
Import Text.

(** [Buffer.from(s, 'hex')]: two digits a byte, the data stops at the
    first pair that is not hexadecimal, a last single digit is dropped. *)
Fixpoint hexBytes (cs : list ascii) : list Z :=
  match cs with
  | a :: b :: rest =>
      match hexDigit a, hexDigit b with
      | Some x, Some y => (16 * x + y) :: hexBytes rest
      | _, _ => []
      end
  | _ => []
  end.

Definition from_hex (s : string) : list Z := hexBytes (chars s).

Definition hexChar (v : Z) : ascii :=
  if v <? 10 then char_of (48 + v) else char_of (87 + v).

Definition hexChars (bytes : list Z) : list ascii :=
  flat_map (fun b => [hexChar (b / 16); hexChar (b mod 16)]) bytes.

(** [buf.toString('hex')] *)
Definition toHex (bytes : list Z) : string := text (hexChars bytes).

Definition b64alphabet : list ascii :=
  chars "ABCDEFGHIJKLMNOPQRSTUVWXYZabcdefghijklmnopqrstuvwxyz0123456789+/".

Definition b64char (v : Z) : ascii := nth (Z.to_nat v) b64alphabet "="%char.

(** The decoder also takes the URL-safe letters [-] and [_]. *)
Definition b64value (c : ascii) : option Z :=
  if inRange 65 90 c then Some (code c - 65)
  else if inRange 97 122 c then Some (code c - 71)
  else if inRange 48 57 c then Some (code c + 4)
  else if (code c =? 43) || (code c =? 45) then Some 62
  else if (code c =? 47) || (code c =? 95) then Some 63
  else None.

(** [buf.toString('base64')] *)
Fixpoint b64encode (bytes : list Z) : list ascii :=
  match bytes with
  | a :: b :: c :: rest =>
      b64char (a / 4) :: b64char (a mod 4 * 16 + b / 16)
      :: b64char (b mod 16 * 4 + c / 64) :: b64char (c mod 64)
      :: b64encode rest
  | [a; b] =>
      [b64char (a / 4); b64char (a mod 4 * 16 + b / 16);
       b64char (b mod 16 * 4); "="%char]
  | [a] => [b64char (a / 4); b64char (a mod 4 * 16); "="%char; "="%char]
  | [] => []
  end.

Definition toBase64 (bytes : list Z) : string := text (b64encode bytes).

(** [Buffer.from(s, 'base64')] never throws: characters outside the
    alphabet are passed over and the data ends at the first [=]. *)
Fixpoint b64sextets (cs : list ascii) : list Z :=
  match cs with
  | [] => []
  | c :: rest =>
      if Ascii.eqb c "="%char then []
      else match b64value c with
           | Some v => v :: b64sextets rest
           | None => b64sextets rest
           end
  end.

Fixpoint b64pack (vs : list Z) : list Z :=
  match vs with
  | a :: b :: c :: d :: rest =>
      (a * 4 + b / 16) :: (b mod 16 * 16 + c / 4) :: (c mod 4 * 64 + d)
      :: b64pack rest
  | [a; b; c] => [a * 4 + b / 16; b mod 16 * 16 + c / 4]
  | [a; b] => [a * 4 + b / 16]
  | _ => []
  end.

Definition from_base64 (s : string) : list Z := b64pack (b64sextets (chars s)).

End Buffer.

(** ** The imported packages, as interfaces *)

(** [import { bech32 } from 'bech32'] *)
Class Bech32Package : Type := {
  bech32_encode : string -> list Z -> Z -> outcome string;
  bech32_decode : string -> Z -> outcome (string * list Z)
}.

(** [import { sha256 } from '@noble/hashes/sha256'] and
    [import { ripemd160 } from '@noble/hashes/ripemd160'] *)
Class NobleHashes : Type := {
  sha256 : list Z -> list Z;
  ripemd160 : list Z -> list Z
}.

(** ** [AddressUtils.convertBits] *)

Module AddressUtils.

(** The inner [while (bits >= toBits)] loop.  It runs at most [bits]
    times when [toBits] is positive; [None] is the loop that never ends. *)
Fixpoint drain (fuel : nat) (toBits maxv acc bits : Z) (result : list Z)
  : option (Z * list Z) :=
  if bits >=? toBits then
    match fuel with
    | O => None
    | S fuel' =>
        let bits := bits - toBits in
        drain fuel' toBits maxv acc bits
              (result ++ [JS.and (JS.sar acc bits) maxv])
    end
  else Some (bits, result).

(** [for (const value of data) { ... }] *)
Fixpoint convertLoop (data : list Z) (fromBits toBits maxv acc bits : Z)
         (result : list Z) : option (Z * Z * list Z) :=
  match data with
  | [] => Some (acc, bits, result)
  | value :: rest =>
      let acc := JS.or (JS.shl acc fromBits) value in
      let bits := bits + fromBits in
      match drain (Z.to_nat bits) toBits maxv acc bits result with
      | None => None
      | Some (bits, result) =>
          convertLoop rest fromBits toBits maxv acc bits result
      end
  end.

Definition convertBits (data : list Z) (fromBits toBits : Z) (pad : bool)
  : outcome (list Z) :=
  let maxv := JS.shl 1 toBits - 1 in
  match convertLoop data fromBits toBits maxv 0 0 [] with
  | None => Diverges
  | Some (acc, bits, result) =>
      if pad then
        if bits >? 0
        then Returns (result ++ [JS.and (JS.shl acc (toBits - bits)) maxv])
        else Returns result
      else if (bits >=? fromBits)
              || negb (JS.and (JS.shl acc (toBits - bits)) maxv =? 0)
      then Throws "Unable to convert bits"
      else Returns result
  end.

Definition isEthAddress (address : string) : bool := Text.re_ethAddress address.

(** [publicKey: Uint8Array | string] *)
Inductive PublicKey : Type :=
| KeyBytes (bytes : list Z)
| KeyString (s : string).

Section Derivation.
Context {bech32 : Bech32Package} {hashes : NobleHashes}.

(** The bytes that are hashed.  No call in the [try] block throws, the
    [catch] is kept as the source has it. *)
Definition pubKeyBytes (publicKey : PublicKey) : outcome (list Z) :=
  match publicKey with
  | KeyString publicKey =>
      try_catch
        (if Text.startsWith "0x" publicKey
         then Returns (Buffer.from_hex (Text.sliceFrom 2 publicKey))
         else if Text.re_hex publicKey
         then Returns (Buffer.from_hex publicKey)
         else Returns (Buffer.from_base64 publicKey))
        (fun errorMessage =>
           Throws ("Invalid public key format: " ++ errorMessage))
  | KeyBytes publicKey => Returns publicKey
  end.

Definition pubKeyToAddress (publicKey : PublicKey) (prefix : string)
  : outcome string :=
  pubKeyBytes <- pubKeyBytes publicKey ;;
  let sha256Hash := sha256 pubKeyBytes in
  let ripemd160Hash := ripemd160 sha256Hash in
  words <- convertBits ripemd160Hash 8 5 true ;;
  bech32_encode prefix words 256.

Definition ethAddressToBech32 (ethAddress prefix : string) : outcome string :=
  if negb (isEthAddress ethAddress)
  then Throws "Invalid ETH address format"
  else
    try_catch
      (let cleanAddress :=
         Text.toLowerCase (Text.replace "0x" EmptyString ethAddress) in
       if negb (Text.re_lowerHex40 cleanAddress)
       then Throws "Invalid ETH address characters"
       else
         let addressBytes := Buffer.from_hex cleanAddress in
         if negb (List.length addressBytes =? 20)%nat
         then Throws "Invalid ETH address length"
         else
           words <- convertBits addressBytes 8 5 true ;;
           bech32_encode prefix words 256)
      (fun errorMessage => Throws ("Invalid ETH address: " ++ errorMessage)).

End Derivation.

End AddressUtils.


(** ** The [bech32] package (version 2), functions [encode] and [decode]

    The package is a dependency, not part of the repository.  The derivation
    functions above take it as the interface [Bech32Package]; this module is
    the published algorithm (BIP-173 checksum, constant 1), used to
    instantiate the interface. *)

Module Bech32.
Import Text.

Definition ALPHABET : list ascii := chars "qpzry9x8gf2tvdw0s3jn54khce6mua7l".

(** [ALPHABET.charAt(x)]: the empty string when [x] is out of range. *)
Definition charAt (x : Z) : list ascii :=
  if (0 <=? x) && (x <? 32) then [nth (Z.to_nat x) ALPHABET "q"%char] else [].

Fixpoint indexIn (c : ascii) (cs : list ascii) (i : Z) : option Z :=
  match cs with
  | [] => None
  | x :: rest => if Ascii.eqb x c then Some i else indexIn c rest (i + 1)
  end.

(** [ALPHABET_MAP[c]] *)
Definition ALPHABET_MAP (c : ascii) : option Z := indexIn c ALPHABET 0.

Definition polymodStep (pre : Z) : Z :=
  let b := JS.sar pre 25 in
  JS.xor (JS.xor (JS.xor (JS.xor (JS.xor
    (JS.shl (JS.and pre 0x1ffffff) 5)
    (JS.and (- JS.and (JS.sar b 0) 1) 0x3b6a57b2))
    (JS.and (- JS.and (JS.sar b 1) 1) 0x26508e6d))
    (JS.and (- JS.and (JS.sar b 2) 1) 0x1ea119fa))
    (JS.and (- JS.and (JS.sar b 3) 1) 0x3d4233dd))
    (JS.and (- JS.and (JS.sar b 4) 1) 0x2a1462b3).

(** First loop of [prefixChk]; [None] is the early return of the error. *)
Fixpoint prefixHigh (chk : Z) (cs : list ascii) {struct cs} : option Z :=
  match cs with
  | [] => Some chk
  | c :: rest =>
      if (code c <? 33) || (code c >? 126) then None
      else prefixHigh (JS.xor (polymodStep chk) (JS.sar (code c) 5)) rest
  end.

Fixpoint prefixLow (chk : Z) (cs : list ascii) {struct cs} : Z :=
  match cs with
  | [] => chk
  | v :: rest => prefixLow (JS.xor (polymodStep chk) (JS.and (code v) 0x1f)) rest
  end.

Definition prefixChk (prefix : string) : outcome Z :=
  match prefixHigh 1 (chars prefix) with
  | None => Throws ("Invalid prefix (" ++ prefix ++ ")")
  | Some chk => Returns (prefixLow (polymodStep chk) (chars prefix))
  end.

Fixpoint encodeWords (chk : Z) (result : list ascii) (words : list Z)
         {struct words} : outcome (Z * list ascii) :=
  match words with
  | [] => Returns (chk, result)
  | x :: rest =>
      if negb (JS.sar x 5 =? 0) then Throws "Non 5-bit word"
      else encodeWords (JS.xor (polymodStep chk) x) (result ++ charAt x) rest
  end.

Definition checksumChars (chk : Z) : list ascii :=
  flat_map (fun i => charAt (JS.and (JS.sar chk ((5 - i) * 5)) 0x1f))
           [0; 1; 2; 3; 4; 5].

Definition encode (prefix : string) (words : list Z) (LIMIT : Z)
  : outcome string :=
  let LIMIT := if LIMIT =? 0 then 90 else LIMIT in
  if len prefix + 7 + Z.of_nat (List.length words) >? LIMIT
  then Throws "Exceeds length limit"
  else
    let prefix := toLowerCase prefix in
    chk <- prefixChk prefix ;;
    st <- encodeWords chk (chars prefix ++ ["1"%char]) words ;;
    let chk := Nat.iter 6 polymodStep (fst st) in
    let chk := JS.xor chk 1 in
    Returns (text (snd st ++ checksumChars chk)).

Fixpoint lastIndexOf (c : ascii) (cs : list ascii) : option nat :=
  match cs with
  | [] => None
  | x :: rest =>
      match lastIndexOf c rest with
      | Some i => Some (S i)
      | None => if Ascii.eqb x c then Some O else None
      end
  end.

(** The loop over [wordChars]; the last six characters are the checksum
    and are not pushed ([i + 6 >= wordChars.length]). *)
Fixpoint decodeWords (chk : Z) (words : list Z) (wordChars : list ascii)
         {struct wordChars} : outcome (Z * list Z) :=
  match wordChars with
  | [] => Returns (chk, words)
  | c :: rest =>
      match ALPHABET_MAP c with
      | None => Throws ("Unknown character " ++ String c EmptyString)
      | Some v =>
          let chk := JS.xor (polymodStep chk) v in
          if (List.length rest <? 6)%nat then decodeWords chk words rest
          else decodeWords chk (words ++ [v]) rest
      end
  end.

Definition decode (str : string) (LIMIT : Z) : outcome (string * list Z) :=
  let LIMIT := if LIMIT =? 0 then 90 else LIMIT in
  if len str <? 8 then Throws (str ++ " too short")
  else if len str >? LIMIT then Throws "Exceeds length limit"
  else
    let lowered := toLowerCase str in
    if negb (String.eqb str lowered) && negb (isUpperCase str)
    then Throws ("Mixed-case string " ++ str)
    else
      let str := lowered in
      match lastIndexOf "1"%char (chars str) with
      | None => Throws ("No separator character for " ++ str)
      | Some O => Throws ("Missing prefix for " ++ str)
      | Some split =>
          let prefix := text (firstn split (chars str)) in
          let wordChars := skipn (split + 1) (chars str) in
          if (List.length wordChars <? 6)%nat then Throws "Data too short"
          else
            chk <- prefixChk prefix ;;
            st <- decodeWords chk [] wordChars ;;
            if negb (fst st =? 1) then Throws ("Invalid checksum for " ++ str)
            else Returns (prefix, snd st)
      end.

End Bech32.

#[export] Instance bech32_package : Bech32Package :=
  {| bech32_encode := Bech32.encode; bech32_decode := Bech32.decode |}.

(** Values the facts about the checksum are stated with. *)

Module Checksum.
Import Text Bech32.

(** Every state of the checksum is below [2 ^ 30]. *)
Definition small (x : Z) : Prop := 0 <= x < 2 ^ 30.

(** The generator selected by bit [i] of [b]. *)
Definition pick (b i g : Z) : Z := JS.and (- JS.and (JS.sar b i) 1) g.

(** [polymodStep] once the shifted part [x] and the top bits [b] are known. *)
Definition mix (x b : Z) : Z :=
  Z.lxor (Z.lxor (Z.lxor (Z.lxor (Z.lxor x
    (pick b 0 0x3b6a57b2)) (pick b 1 0x26508e6d)) (pick b 2 0x1ea119fa))
    (pick b 3 0x3d4233dd)) (pick b 4 0x2a1462b3).

Definition pickSmall (b : Z) : bool :=
  forallb (fun g => (0 <=? g) && (g <? 2 ^ 30))
          [pick b 0 0x3b6a57b2; pick b 1 0x26508e6d; pick b 2 0x1ea119fa;
           pick b 3 0x3d4233dd; pick b 4 0x2a1462b3].

(** The state of the checksum after more words. *)
Definition absorb (chk : Z) (words : list Z) : Z :=
  fold_left (fun c w => Z.lxor (polymodStep c) w) words chk.

(** The six words [encode] appends. *)
Definition checksumWords (chk : Z) : list Z :=
  map (fun i => JS.and (JS.sar chk ((5 - i) * 5)) 0x1f) [0; 1; 2; 3; 4; 5].

(** The letter of a word. *)
Definition alpha (x : Z) : ascii := nth (Z.to_nat x) ALPHABET "q"%char.

(** The characters [prefixChk] takes. *)
Definition printable (c : ascii) : Prop := 33 <= code c <= 126.

End Checksum.

(** ** The hash functions of [@noble/hashes]

    Also a dependency, taken above as the interface [NobleHashes]; these are
    the two standard functions (FIPS 180-4 SHA-256 and RIPEMD-160) on byte
    lists, used to instantiate it. *)

Module Word32.

Definition wrap (x : Z) : Z := x mod 2 ^ 32.
Definition add (a b : Z) : Z := wrap (a + b).
Definition not (a : Z) : Z := Z.lxor a (2 ^ 32 - 1).
Definition rotl (n x : Z) : Z :=
  Z.lor (wrap (Z.shiftl x n)) (Z.shiftr x (32 - n)).
Definition rotr (n x : Z) : Z := rotl (32 - n) x.

(** Bytes of a word, and words of a byte list (four bytes a word). *)
Definition bytesBE (x : Z) : list Z :=
  [x / 2 ^ 24 mod 256; x / 2 ^ 16 mod 256; x / 2 ^ 8 mod 256; x mod 256].
Definition bytesLE (x : Z) : list Z := rev (bytesBE x).

Fixpoint wordsBE (bs : list Z) : list Z :=
  match bs with
  | a :: b :: c :: d :: rest =>
      (a * 2 ^ 24 + b * 2 ^ 16 + c * 2 ^ 8 + d) :: wordsBE rest
  | _ => []
  end.

Fixpoint wordsLE (bs : list Z) : list Z :=
  match bs with
  | a :: b :: c :: d :: rest =>
      (d * 2 ^ 24 + c * 2 ^ 16 + b * 2 ^ 8 + a) :: wordsLE rest
  | _ => []
  end.

(** Merkle-Damgard padding: [0x80], zeros up to 56 modulo 64, then the
    bit length in eight bytes ([lenBytes] orders them). *)
Definition pad (lenBytes : Z -> list Z) (msg : list Z) : list Z :=
  let n := Z.of_nat (List.length msg) in
  let zeros := (55 - n) mod 64 in
  msg ++ [128] ++ repeat 0 (Z.to_nat zeros) ++ lenBytes (8 * n).

Fixpoint blocks (fuel : nat) (ws : list Z) : list (list Z) :=
  match fuel with
  | O => []
  | S fuel' =>
      match ws with
      | [] => []
      | _ => firstn 16 ws :: blocks fuel' (skipn 16 ws)
      end
  end.

End Word32.

Module Sha256.
Import Word32.

(** The round constants and the initial state are the first 32 bits of
    the fractional parts of the cube roots of the first 64 primes and of
    the square roots of the first 8 (FIPS 180-4, 4.2.2 and 5.3.3). *)
Definition isPrime (n : Z) : bool :=
  forallb (fun d => negb (n mod Z.of_nat d =? 0)) (seq 2 (Z.to_nat n - 2)).

Definition firstPrimes : list Z := filter isPrime (map Z.of_nat (seq 2 310)).

Fixpoint cubeRoot (bit : nat) (r n : Z) : Z :=
  match bit with
  | O => r
  | S b => let c := r + 2 ^ Z.of_nat b in
           cubeRoot b (if c * c * c <=? n then c else r) n
  end.

Definition K : list Z :=
  Eval vm_compute in
    map (fun p => cubeRoot 36 0 (p * 2 ^ 96) mod 2 ^ 32) firstPrimes.

Definition H0 : list Z :=
  Eval vm_compute in
    map (fun p => Z.sqrt (p * 2 ^ 64) mod 2 ^ 32) (firstn 8 firstPrimes).

Definition Ch (x y z : Z) : Z := Z.lxor (Z.land x y) (Z.land (not x) z).
Definition Maj (x y z : Z) : Z :=
  Z.lxor (Z.lxor (Z.land x y) (Z.land x z)) (Z.land y z).
Definition Sigma0 (x : Z) := Z.lxor (Z.lxor (rotr 2 x) (rotr 13 x)) (rotr 22 x).
Definition Sigma1 (x : Z) := Z.lxor (Z.lxor (rotr 6 x) (rotr 11 x)) (rotr 25 x).
Definition sigma0 (x : Z) := Z.lxor (Z.lxor (rotr 7 x) (rotr 18 x)) (Z.shiftr x 3).
Definition sigma1 (x : Z) := Z.lxor (Z.lxor (rotr 17 x) (rotr 19 x)) (Z.shiftr x 10).

(** The message schedule, extended one word at a time. *)
Fixpoint schedule (n : nat) (w : list Z) : list Z :=
  match n with
  | O => w
  | S n' =>
      let t := List.length w in
      let at_ k := nth (t - k) w 0 in
      schedule n' (w ++ [add (add (sigma1 (at_ 2%nat)) (at_ 7%nat))
                             (add (sigma0 (at_ 15%nat)) (at_ 16%nat))])
  end.

Definition round (s : list Z) (kw : Z * Z) : list Z :=
  match s with
  | [a; b; c; d; e; f; g; h] =>
      let t1 := add (add (add h (Sigma1 e)) (add (Ch e f g) (fst kw))) (snd kw) in
      let t2 := add (Sigma0 a) (Maj a b c) in
      [add t1 t2; a; b; c; add d t1; e; f; g]
  | _ => s
  end.

Definition compress (h block : list Z) : list Z :=
  let w := schedule 48 block in
  map (fun p => add (fst p) (snd p))
      (combine h (fold_left round (combine K w) h)).

Definition sha256 (msg : list Z) : list Z :=
  let ws := wordsBE (pad (fun n => bytesBE (n / 2 ^ 32) ++ bytesBE (wrap n)) msg) in
  flat_map bytesBE (fold_left compress (blocks (List.length ws) ws) H0).

End Sha256.

Module Ripemd160.
Import Word32.

Definition f (j : nat) (x y z : Z) : Z :=
  match (j / 16)%nat with
  | 0%nat => Z.lxor (Z.lxor x y) z
  | 1%nat => Z.lor (Z.land x y) (Z.land (not x) z)
  | 2%nat => Z.lxor (Z.lor x (not y)) z
  | 3%nat => Z.lor (Z.land x z) (Z.land y (not z))
  | _ => Z.lxor x (Z.lor y (not z))
  end.

Definition KL : list Z := [0x00000000; 0x5a827999; 0x6ed9eba1; 0x8f1bbcdc; 0xa953fd4e].
Definition KR : list Z := [0x50a28be6; 0x5c4dd124; 0x6d703ef3; 0x7a6d76e9; 0x00000000].

Definition RL : list nat :=
  [0; 1; 2; 3; 4; 5; 6; 7; 8; 9; 10; 11; 12; 13; 14; 15;
   7; 4; 13; 1; 10; 6; 15; 3; 12; 0; 9; 5; 2; 14; 11; 8;
   3; 10; 14; 4; 9; 15; 8; 1; 2; 7; 0; 6; 13; 11; 5; 12;
   1; 9; 11; 10; 0; 8; 12; 4; 13; 3; 7; 15; 14; 5; 6; 2;
   4; 0; 5; 9; 7; 12; 2; 10; 14; 1; 3; 8; 11; 6; 15; 13]%nat.

Definition RR : list nat :=
  [5; 14; 7; 0; 9; 2; 11; 4; 13; 6; 15; 8; 1; 10; 3; 12;
   6; 11; 3; 7; 0; 13; 5; 10; 14; 15; 8; 12; 4; 9; 1; 2;
   15; 5; 1; 3; 7; 14; 6; 9; 11; 8; 12; 2; 10; 0; 4; 13;
   8; 6; 4; 1; 3; 11; 15; 0; 5; 12; 2; 13; 9; 7; 10; 14;
   12; 15; 10; 4; 1; 5; 8; 7; 6; 2; 13; 14; 0; 3; 9; 11]%nat.

Definition SL : list Z :=
  [11; 14; 15; 12; 5; 8; 7; 9; 11; 13; 14; 15; 6; 7; 9; 8;
   7; 6; 8; 13; 11; 9; 7; 15; 7; 12; 15; 9; 11; 7; 13; 12;
   11; 13; 6; 7; 14; 9; 13; 15; 14; 8; 13; 6; 5; 12; 7; 5;
   11; 12; 14; 15; 14; 15; 9; 8; 9; 14; 5; 6; 8; 6; 5; 12;
   9; 15; 5; 11; 6; 8; 13; 12; 5; 12; 13; 14; 11; 8; 5; 6].

Definition SR : list Z :=
  [8; 9; 9; 11; 13; 15; 15; 5; 7; 7; 8; 11; 14; 14; 12; 6;
   9; 13; 15; 7; 12; 8; 9; 11; 7; 7; 12; 7; 6; 15; 13; 11;
   9; 7; 15; 11; 8; 6; 6; 14; 12; 13; 5; 14; 13; 13; 7; 5;
   15; 5; 8; 11; 14; 14; 6; 14; 6; 9; 12; 9; 12; 5; 15; 8;
   8; 5; 12; 9; 12; 5; 14; 6; 8; 13; 6; 5; 15; 13; 11; 11].

Definition H0 : list Z :=
  [0x67452301; 0xefcdab89; 0x98badcfe; 0x10325476; 0xc3d2e1f0].

(** One step of a line; [fj] is the index of the boolean function. *)
Definition step (x : list Z) (ks : list Z) (r : list nat) (s : list Z)
           (fj : nat -> nat) (st : list Z) (j : nat) : list Z :=
  match st with
  | [a; b; c; d; e] =>
      let t := add (rotl (nth j s 0)
                     (add (add a (f (fj j) b c d))
                          (add (nth (nth j r 0%nat) x 0)
                               (nth (j / 16)%nat ks 0))))
                   e in
      [e; t; b; rotl 10 c; d]
  | _ => st
  end.

Definition compress (h block : list Z) : list Z :=
  let left := fold_left (step block KL RL SL (fun j => j)) (seq 0 80) h in
  let right := fold_left (step block KR RR SR (fun j => (79 - j)%nat)) (seq 0 80) h in
  match h, left, right with
  | [h0; h1; h2; h3; h4], [al; bl; cl; dl; el], [ar; br; cr; dr; er] =>
      [add (add h1 cl) dr; add (add h2 dl) er; add (add h3 el) ar;
       add (add h4 al) br; add (add h0 bl) cr]
  | _, _, _ => h
  end.

Definition ripemd160 (msg : list Z) : list Z :=
  let ws := wordsLE (pad (fun n => bytesLE (wrap n) ++ bytesLE (n / 2 ^ 32)) msg) in
  flat_map bytesLE (fold_left compress (blocks (List.length ws) ws) H0).

End Ripemd160.

#[export] Instance noble_hashes : NobleHashes :=
  {| sha256 := Sha256.sha256; ripemd160 := Ripemd160.ripemd160 |}.

(** ** Data of [src/monitor.ts] and [src/types.ts] *)

Module Attribute.
Record t : Type := { key : string; value : string }.
End Attribute.

Module TxLogEvent.
Record t : Type := { type : string; attributes : list Attribute.t }.
End TxLogEvent.

Module TxLog.
Record t : Type :=
  { msg_index : Z; log : string; events : list TxLogEvent.t }.
End TxLog.

(** Optional fields ([logs?], [events?], [result?]) are [option]s. *)
Module TxResponseItem.
Record result_t : Type := { result_events : option (list TxLogEvent.t) }.
Record t : Type :=
  { txhash : string;
    height : string;
    gas_used : string;
    gas_wanted : string;
    timestamp : string;
    logs : option (list TxLog.t);
    events : option (list TxLogEvent.t);
    result : option result_t }.
End TxResponseItem.

Module TransactionDetails.
Record t : Type :=
  { hash : string;
    height : string;
    type : string;
    amount : string;
    sender : option string;
    receiver : string;
    gasUsed : string;
    gasWanted : string;
    timestamp : string;
    raw : TxResponseItem.t }.
End TransactionDetails.

Inductive DepositType : Type := direct | evm | cast.

Module DepositEvent.
Record t : Type :=
  { type : DepositType; transaction : TransactionDetails.t }.
End DepositEvent.

Module MonitorConfig.
Record t : Type :=
  { wsEndpoint : string;
    restEndpoint : string;
    prefix : string;
    evmRpcEndpoint : option string }.
End MonitorConfig.

(** ** JavaScript numbers as the poller sees them, and [parseInt] *)

Module Num.
Import Text.

(** The numbers the code can meet: [NaN], the integers that are
    doubles, and the two infinities. *)
Inductive t : Type := NaN | Int (z : Z) | Infinity (negative : bool).

(** The double nearest to an integer, ties to even: exact below [2^53],
    53 significant bits above, an infinity from [2^1024 - 2^970] on. *)
Definition ofZ (z : Z) : t :=
  let a := Z.abs z in
  if a <? 2 ^ 53 then Int z
  else
    let e := Z.log2 a - 52 in
    let q := a / 2 ^ e in
    let r := a mod 2 ^ e in
    let q :=
      if (2 * r >? 2 ^ e) || ((2 * r =? 2 ^ e) && Z.odd q) then q + 1 else q in
    if q * 2 ^ e >=? 2 ^ 1024 then Infinity (z <? 0)
    else Int (Z.sgn z * (q * 2 ^ e)).

(** [a > b]: false as soon as one side is [NaN]. *)
Definition gt (a b : t) : bool :=
  match a, b with
  | Int x, Int y => x >? y
  | Infinity false, Int _ => true
  | Infinity false, Infinity true => true
  | Int _, Infinity true => true
  | _, _ => false
  end.

(** [a + 1] *)
Definition succ (a : t) : t :=
  match a with
  | Int x => ofZ (x + 1)
  | other => other
  end.

(** [n || 0] *)
Definition or0 (a : t) : t :=
  match a with
  | NaN => Int 0
  | other => other
  end.

(** [a === b] *)
Definition eqb (a b : t) : bool :=
  match a, b with
  | Int x, Int y => x =? y
  | Infinity m, Infinity n => Bool.eqb m n
  | _, _ => false
  end.

Definition digit (radix : Z) (c : ascii) : option Z :=
  match hexDigit c with
  | Some d => if d <? radix then Some d else None
  | None => None
  end.

Fixpoint digits (radix : Z) (cs : list ascii) (acc : option Z) : option Z :=
  match cs with
  | [] => acc
  | c :: rest =>
      match digit radix c with
      | Some d =>
          digits radix rest
                 (Some (match acc with Some a => a * radix + d | None => d end))
      | None => acc
      end
  end.

(** White space and line terminators among the code units below 256:
    tab, line feed, vertical tab, form feed, carriage return, space and
    no-break space. *)
Definition isSpace (c : ascii) : bool :=
  inRange 9 13 c || (code c =? 32) || (code c =? 160).

Fixpoint trimStart (cs : list ascii) : list ascii :=
  match cs with
  | c :: rest => if isSpace c then trimStart rest else cs
  | [] => []
  end.

(** [parseInt(s, radix)] for radix 10 or 16: leading blanks, a sign, for
    radix 16 an [0x] prefix, then the longest run of digits, whose
    value is rounded to a double. *)
Definition parseInt (s : string) (radix : Z) : t :=
  let cs := trimStart (chars s) in
  let '(sign, cs) :=
    match cs with
    | "-"%char :: rest => (-1, rest)
    | "+"%char :: rest => (1, rest)
    | _ => (1, cs)
    end in
  let cs :=
    if radix =? 16 then
      match cs with
      | "0"%char :: "x"%char :: rest => rest
      | "0"%char :: "X"%char :: rest => rest
      | _ => cs
      end
    else cs in
  match digits radix cs None with
  | Some n => ofZ (sign * n)
  | None => NaN
  end.

End Num.

(** ** The network, as the answers the monitor gets from it *)

Module Net.

(** A JSON-RPC call: the [fetch] or [resp.json()] throws, or there is a
    body with its optional [error] and [result]. *)
Inductive JsonRpcReply : Type :=
| RpcUnreachable
| RpcAnswer (error : option string) (result : option string).

(** The wallet registry: [resp.ok] and the optional [result] field. *)
Inductive WalletReply : Type :=
| WalletUnreachable
| WalletAnswer (ok : bool) (result : option string).

(** [/blocks/latest]: [data.block.header.height] *)
Inductive BlockReply : Type :=
| BlockUnreachable
| BlockAnswer (height : string).

(** [/cosmos/tx/v1beta1/txs]: the optional [tx_responses] *)
Inductive TxsReply : Type :=
| TxsUnreachable
| TxsAnswer (tx_responses : option (list TxResponseItem.t)).

(** What every endpoint answers at one moment; requests are keyed by
    what the code sends (URL, JSON-RPC method and address). *)
Record t : Type :=
  { eth_getCode : string -> string -> JsonRpcReply;
    eth_getTransactionCount : string -> string -> JsonRpcReply;
    get_wallet : string -> WalletReply;
    get_block : string -> BlockReply;
    get_txs : string -> TxsReply }.

(** [x || null] on an optional string: absent and empty are both falsy. *)
Definition truthy (x : option string) : option string :=
  match x with
  | Some s => if String.eqb s EmptyString then None else Some s
  | None => None
  end.

End Net.

(** ** [encodeURIComponent] on 8-bit text *)

Module Uri.
Import Text.

Definition unreserved (c : ascii) : bool :=
  inRange 65 90 c || inRange 97 122 c || inRange 48 57 c
  || existsb (Ascii.eqb c) (chars "-_.!~*'()").

Definition upperHex (v : Z) : ascii :=
  if v <? 10 then char_of (48 + v) else char_of (55 + v).

Definition percent (b : Z) : list ascii :=
  ["%"%char; upperHex (b / 16); upperHex (b mod 16)].

(** Code units from 128 up take two bytes in UTF-8. *)
Definition encodeChar (c : ascii) : list ascii :=
  if unreserved c then [c]
  else if code c <? 128 then percent (code c)
  else percent (192 + code c / 64) ++ percent (128 + code c mod 64).

Definition encodeURIComponent (s : string) : string :=
  text (flat_map encodeChar (chars s)).

End Uri.

(** ** Callbacks and the effects of dispatching *)

Module Effects.

(** A registered callback is known by its identity. *)
Definition Callback : Type := nat.

(** A thrown value, by what [Logger.formatMessage] makes of it.  An
    [Error] is printed by its stack and a primitive by [String]; any
    other object goes through [JSON.stringify], which throws a
    [TypeError] for a cyclic object or a BigInt and, for an object with
    a [toJSON] method that throws, what that method throws. *)
Inductive Thrown : Type :=
| Printable (text : string)
| Unprintable (raised : Thrown).

(** The methods of the monitor a callback may call while it runs. *)
Inductive MonitorCall : Type :=
| OnDeposit (callback : Callback)
| RemoveCallback (callback : Callback).

(** How the promise of a callback ends, if it does. *)
Inductive Settlement : Type :=
| Completes
| Fails (error : Thrown)
| NeverSettles.

Record Reaction : Type :=
  { during : list MonitorCall;
    settlement : Settlement }.

(** What a callback does with an event may depend on the events it has
    received before (a callback that throws on its first call only). *)
Definition Behaviour : Type :=
  Callback -> list DepositEvent.t -> DepositEvent.t -> Reaction.

(** The observable trace: every call of a callback, in order, and the
    lines written with [logger.error]. *)
Record World : Type :=
  { calls : list (Callback * DepositEvent.t);
    errors : list string }.

Definition seenBy (cb : Callback) (w : World) : list DepositEvent.t :=
  map snd (filter (fun c => Nat.eqb (fst c) cb) (calls w)).

(** An asynchronous call is done, has thrown, or is still pending. *)
Inductive completion (A : Type) : Type :=
| Done (a : A)
| Raised (value : Thrown)
| Pending.

Arguments Done {A} a.
Arguments Raised {A} value.
Arguments Pending {A}.

(** Computations that change a state and may throw or stay pending. *)
Definition M (S A : Type) : Type := S -> completion A * S.

Definition ret {S A : Type} (a : A) : M S A := fun s => (Done a, s).

Definition raise {S A : Type} (value : Thrown) : M S A :=
  fun s => (Raised value, s).

Definition pending {S A : Type} : M S A := fun s => (Pending, s).

Definition get {S : Type} : M S S := fun s => (Done s, s).

Definition bindM {S A B : Type} (m : M S A) (k : A -> M S B) : M S B :=
  fun s =>
    match m s with
    | (Done a, s') => k a s'
    | (Raised value, s') => (Raised value, s')
    | (Pending, s') => (Pending, s')
    end.

(** [try { body } catch (error) { handler(error) }] *)
Definition tryM {S A : Type} (body : M S A) (handler : Thrown -> M S A) : M S A :=
  fun s =>
    match body s with
    | (Raised value, s') => handler value s'
    | other => other
    end.

(** A step that does not touch the state; what it throws is an [Error]. *)
Definition lift {S A : Type} (o : outcome A) : M S A :=
  fun s =>
    match o with
    | Returns a => (Done a, s)
    | Throws msg => (Raised (Printable msg), s)
    | Diverges => (Pending, s)
    end.

(** [for (const x of xs) { body(x) }] over an array *)
Fixpoint forM {S A : Type} (xs : list A) (body : A -> M S unit) : M S unit :=
  match xs with
  | [] => ret tt
  | x :: rest => bindM (body x) (fun _ => forM rest body)
  end.

(** [await promise] *)
Definition await {S : Type} (promise : Settlement) : M S unit :=
  match promise with
  | Completes => ret tt
  | Fails error => raise error
  | NeverSettles => pending
  end.

End Effects.

(** ** [SeiDepositMonitor] *)

Module SeiDepositMonitor.
Import Effects.
Local Open Scope string_scope.

(** The fields of the class that the modelled methods read or write.
    [callbacks] is the [Set] in insertion order. *)
Record t : Type :=
  { config : MonitorConfig.t;
    callbacks : list Callback;
    isMonitoring : bool;
    targetAddress : string;
    finalAddress : string }.

Definition normalizeWsEndpoint (endpoint : string) : string :=
  if Text.endsWith "/websocket" endpoint then endpoint
  else endpoint ++ "/websocket".

(** [constructor(config, targetAddress)]; the optional [logLevel] of the
    configuration goes to the logger only. *)
Definition new (config : MonitorConfig.t) (targetAddress : string) : t :=
  {| config :=
       {| MonitorConfig.wsEndpoint :=
            normalizeWsEndpoint (MonitorConfig.wsEndpoint config);
          MonitorConfig.restEndpoint := MonitorConfig.restEndpoint config;
          MonitorConfig.prefix := MonitorConfig.prefix config;
          MonitorConfig.evmRpcEndpoint := MonitorConfig.evmRpcEndpoint config |};
     callbacks := [];
     isMonitoring := false;
     targetAddress := targetAddress;
     finalAddress := targetAddress |}.

Definition onDeposit (this : t) (callback : Callback) : t :=
  {| config := config this;
     callbacks := if existsb (Nat.eqb callback) (callbacks this)
                  then callbacks this
                  else (callbacks this ++ [callback])%list;
     isMonitoring := isMonitoring this;
     targetAddress := targetAddress this;
     finalAddress := finalAddress this |}.

Definition removeCallback (this : t) (callback : Callback) : t :=
  {| config := config this;
     callbacks := filter (fun cb => negb (Nat.eqb callback cb)) (callbacks this);
     isMonitoring := isMonitoring this;
     targetAddress := targetAddress this;
     finalAddress := finalAddress this |}.

(** The monitor, whose callback set changes in place, and the trace. *)
Definition State : Type := t * World.

(** [logger.error(message, data)]: the line is formatted first; when the
    formatting throws nothing is written. *)
Definition logger_error (message : string) (data : Thrown) : M State unit :=
  fun s =>
    match data with
    | Printable text =>
        (Done tt,
         (fst s, {| calls := calls (snd s);
                    errors := errors (snd s) ++ [message ++ text] |}))
    | Unprintable raised => (Raised raised, s)
    end.

(** [cb(event)] up to the promise it returns: the call is recorded. *)
Definition invoke (behaviour : Behaviour) (cb : Callback) (event : DepositEvent.t)
  : M State Reaction :=
  fun s =>
    (Done (behaviour cb (seenBy cb (snd s)) event),
     (fst s, {| calls := calls (snd s) ++ [(cb, event)];
                errors := errors (snd s) |})).

(** One call of the callback on the monitor, while the iterator of the
    dispatch has passed [index] entries of the set: an entry removed
    among those moves the ones after it one place down. *)
Definition perform (index : nat) (call : MonitorCall) : M State nat :=
  fun s =>
    let this := fst s in
    match call with
    | OnDeposit cb => (Done index, (onDeposit this cb, snd s))
    | RemoveCallback cb =>
        (Done (List.length
                 (filter (fun passed => negb (Nat.eqb cb passed))
                         (firstn index (callbacks this)))),
         (removeCallback this cb, snd s))
    end.

Fixpoint performAll (index : nat) (calls : list MonitorCall) : M State nat :=
  match calls with
  | [] => ret index
  | call :: later => bindM (perform index call) (fun index => performAll index later)
  end.

(** [for (const cb of this.callbacks)] from the entry at [index] on.  The
    set is read at every step, so entries added meanwhile are visited and
    entries removed are not; a dispatch need not end, and [Pending] also
    stands for one that makes more than [fuel] calls. *)
Fixpoint visit (fuel : nat) (behaviour : Behaviour) (event : DepositEvent.t)
         (index : nat) {struct fuel} : M State unit :=
  bindM get (fun s =>
  match nth_error (callbacks (fst s)) index with
  | None => ret tt
  | Some cb =>
      match fuel with
      | O => pending
      | S fuel =>
          bindM (invoke behaviour cb event) (fun reaction =>
          bindM (performAll (S index) (during reaction)) (fun index =>
          bindM (tryM (await (settlement reaction))
                      (fun error =>
                         logger_error "Error in deposit callback: " error))
                (fun _ => visit fuel behaviour event index)))
      end
  end).

Definition notifyCallbacks (fuel : nat) (behaviour : Behaviour)
           (event : DepositEvent.t) : M State unit :=
  visit fuel behaviour event 0.

(** *** Resolution of a hex address *)

Section Resolution.
Context {bech32 : Bech32Package}.
Variable net : Net.t.

Definition ethGetCode (rpc address : string) : option string :=
  match Net.eth_getCode net rpc address with
  | Net.RpcUnreachable => None
  | Net.RpcAnswer (Some _) _ => None
  | Net.RpcAnswer None result => Net.truthy result
  end.

Definition ethGetTransactionCount (rpc address : string) : string :=
  match Net.eth_getTransactionCount net rpc address with
  | Net.RpcUnreachable => "0x0"%string
  | Net.RpcAnswer (Some _) _ => "0x0"%string
  | Net.RpcAnswer None result =>
      match Net.truthy result with Some r => r | None => "0x0"%string end
  end.

Definition lookupChainWallet (hexAddr : string) : option string :=
  let url := ("https://wallets.sei.basementnodes.ca/" ++ hexAddr)%string in
  match Net.get_wallet net url with
  | Net.WalletUnreachable => None
  | Net.WalletAnswer false _ => None
  | Net.WalletAnswer true result => Net.truthy result
  end.

Definition resolveEvmAddress (this : t) (hexAddr : string) : outcome string :=
  let prefix := MonitorConfig.prefix (config this) in
  let evmRpc :=
    match Net.truthy (MonitorConfig.evmRpcEndpoint (config this)) with
    | Some rpc => rpc
    | None => "https://evm-rpc.sei.basementnodes.ca"%string
    end in
  let code := ethGetCode evmRpc hexAddr in
  if match code with
     | Some code => negb (String.eqb code "0x")
     | None => false
     end
  then AddressUtils.ethAddressToBech32 hexAddr prefix
  else
    let txCountHex := ethGetTransactionCount evmRpc hexAddr in
    let txCount := Num.or0 (Num.parseInt txCountHex 16) in
    match lookupChainWallet hexAddr with
    | Some chainWallet => Returns chainWallet
    | None =>
        if Num.eqb txCount (Num.Int 0)
        then AddressUtils.ethAddressToBech32 hexAddr prefix
        else AddressUtils.ethAddressToBech32 hexAddr prefix
    end.

End Resolution.

(** *** Parsing transaction logs *)

Definition isType (name : string) (e : TxLogEvent.t) : bool :=
  String.eqb (TxLogEvent.type e) name.

Definition hasKey (name : string) (a : Attribute.t) : bool :=
  String.eqb (Attribute.key a) name.

Definition extractSender (events : list TxLogEvent.t) : option string :=
  let fromEvent (name : string) :=
    match find (isType name) events with
    | Some event =>
        match find (hasKey "sender") (TxLogEvent.attributes event) with
        | Some senderAttr => Some (Attribute.value senderAttr)
        | None => None
        end
    | None => None
    end in
  match fromEvent "message" with
  | Some sender => Some sender
  | None => fromEvent "transfer"
  end.

(** [x?.length] as a condition *)
Definition hasLength {A : Type} (x : option (list A)) : bool :=
  match x with
  | Some (_ :: _) => true
  | _ => false
  end.

Definition orEmpty {A : Type} (x : option (list A)) : list A :=
  match x with Some l => l | None => [] end.

Definition wrapEvents (events : list TxLogEvent.t) : list TxLog.t :=
  [{| TxLog.msg_index := 0; TxLog.log := EmptyString; TxLog.events := events |}].

Definition resultEvents (tx : TxResponseItem.t) : option (list TxLogEvent.t) :=
  match TxResponseItem.result tx with
  | Some r => TxResponseItem.result_events r
  | None => None
  end.

(** The value of [logs] when the [for (const log of logs)] loop starts. *)
Definition logsOf (tx : TxResponseItem.t) : list TxLog.t :=
  let logs := orEmpty (TxResponseItem.logs tx) in
  if (List.length logs =? 0)%nat then
    if hasLength (TxResponseItem.events tx)
    then wrapEvents (orEmpty (TxResponseItem.events tx))
    else if hasLength (resultEvents tx)
    then wrapEvents (orEmpty (resultEvents tx))
    else logs
  else logs.

Definition actionTypeOf (events : list TxLogEvent.t) : string :=
  match find (isType "message") events with
  | Some messageEvent =>
      match find (hasKey "action") (TxLogEvent.attributes messageEvent) with
      | Some actionAttr => Attribute.value actionAttr
      | None => "unknown"%string
      end
  | None => "unknown"%string
  end.

Section Parsing.
Variable this : t.
Variable tx : TxResponseItem.t.

Definition detail (events : list TxLogEvent.t) (actionType amount receiver : string)
  : TransactionDetails.t :=
  {| TransactionDetails.hash := TxResponseItem.txhash tx;
     TransactionDetails.height := TxResponseItem.height tx;
     TransactionDetails.type := actionType;
     TransactionDetails.amount := amount;
     TransactionDetails.receiver := receiver;
     TransactionDetails.sender := extractSender events;
     TransactionDetails.gasUsed := TxResponseItem.gas_used tx;
     TransactionDetails.gasWanted := TxResponseItem.gas_wanted tx;
     TransactionDetails.timestamp := TxResponseItem.timestamp tx;
     TransactionDetails.raw := tx |}.

(** [for (let i = 0; i < attrs.length; i += 2)]: a missing second
    attribute and a pair with other keys are both passed over. *)
Fixpoint scanPairs (events : list TxLogEvent.t) (actionType : string)
         (attrs : list Attribute.t) : list TransactionDetails.t :=
  match attrs with
  | receiverAttr :: amountAttr :: rest =>
      if negb (hasKey "receiver" receiverAttr) || negb (hasKey "amount" amountAttr)
      then scanPairs events actionType rest
      else
        let receiver := Attribute.value receiverAttr in
        let amount := Attribute.value amountAttr in
        if String.eqb receiver (finalAddress this)
        then detail events actionType amount receiver
             :: scanPairs events actionType rest
        else scanPairs events actionType rest
  | _ => []
  end.

(** The body of [for (const log of logs)]. *)
Definition scanLog (log : TxLog.t) : list TransactionDetails.t :=
  let events := TxLog.events log in
  let actionType := actionTypeOf events in
  let coinReceivedEvents := filter (isType "coin_received") events in
  flat_map (fun cre => scanPairs events actionType (TxLogEvent.attributes cre))
           coinReceivedEvents.

Definition parseTransactionDetails : list TransactionDetails.t :=
  flat_map scanLog (logsOf tx).

End Parsing.

Definition determineDepositType (details : TransactionDetails.t) : DepositType :=
  if String.eqb (TransactionDetails.type details)
                "/seiprotocol.seichain.evm.MsgEVMTransaction"
  then evm
  else direct.

(** *** REST polling *)

Definition getLatestBlockHeight (this : t) (net : Net.t) : outcome Num.t :=
  let url := MonitorConfig.restEndpoint (config this) ++ "/blocks/latest" in
  match Net.get_block net url with
  | Net.BlockUnreachable => Throws "request failed"
  | Net.BlockAnswer height => Returns (Num.parseInt height 10)
  end.

(** [fromBlock] and [toBlock] only go to the debug log. *)
Definition getTransactions (this : t) (net : Net.t) (fromBlock toBlock : Num.t)
  : outcome (list TxResponseItem.t) :=
  let query := "coin_received.receiver='" ++ finalAddress this ++ "'" in
  let url := MonitorConfig.restEndpoint (config this)
             ++ "/cosmos/tx/v1beta1/txs?events="
             ++ Uri.encodeURIComponent query ++ "&pagination.limit=100" in
  match Net.get_txs net url with
  | Net.TxsUnreachable => Throws "request failed"
  | Net.TxsAnswer tx_responses => Returns (orEmpty tx_responses)
  end.

Section Polling.
Variable fuel : nat.
Variable behaviour : Behaviour.

(** The body of [for (const tx of txs)]. *)
Definition dispatch (tx : TxResponseItem.t) : M State unit :=
  bindM get (fun s =>
  forM (parseTransactionDetails (fst s) tx)
       (fun detail =>
          notifyCallbacks fuel behaviour
            {| DepositEvent.type := determineDepositType detail;
               DepositEvent.transaction := detail |})).

(** One run of [poll], from the value of [lastCheckedBlock] to its
    next value.  [net] is what the endpoints answer during the run. *)
Definition poll (net : Net.t) (lastCheckedBlock : Num.t) : M State Num.t :=
  bindM get (fun s =>
  let this := fst s in
  if negb (isMonitoring this) then ret lastCheckedBlock
  else
    tryM
      (bindM (lift (getLatestBlockHeight this net)) (fun currentHeight =>
       if Num.gt currentHeight lastCheckedBlock
       then
         bindM (lift (getTransactions this net (Num.succ lastCheckedBlock)
                                      currentHeight)) (fun txs =>
         bindM (forM txs dispatch) (fun _ =>
         ret currentHeight))
       else ret lastCheckedBlock))
      (fun err =>
         bindM (logger_error "REST polling error: " err) (fun _ =>
         ret lastCheckedBlock))).

(** Successive runs of [poll]; each is scheduled when the one before
    has finished, so they never overlap, and none follows a run that
    threw or is still pending. *)
Fixpoint polls (nets : list Net.t) (lastCheckedBlock : Num.t) : M State Num.t :=
  match nets with
  | [] => ret lastCheckedBlock
  | net :: later =>
      bindM (poll net lastCheckedBlock) (fun next => polls later next)
  end.

(** [startRestPolling]: the cursor starts at the head of the chain.
    The first request is outside any [try]. *)
Definition startRestPolling (first : Net.t) (nets : list Net.t) : M State Num.t :=
  bindM get (fun s =>
  bindM (lift (getLatestBlockHeight (fst s) first)) (fun lastCheckedBlock =>
  polls nets lastCheckedBlock)).

End Polling.

End SeiDepositMonitor.

(** ** The connection side of the monitor: [start], [stop], [reconnect]

    The class fields [ws] and [reconnectTimeout] beside the monitor, and
    what the runtime holds: the timers that are set and have neither
    fired nor been cleared, every socket created so far (its [error] and
    [close] handlers stay registered) and the sockets [close()] was
    called on, and the number of polling loops launched.  The [open] and
    [message] handlers write none of these fields and are not part of
    this module.  Each method runs to its end before the next event: a
    [start] that waits for the resolution is not interleaved with other
    calls. *)

Module Supervisor.
Import SeiDepositMonitor.

Definition Socket : Type := nat.
Definition Timer : Type := nat.

Record t : Type :=
  { monitor : SeiDepositMonitor.t;
    ws : option Socket;
    reconnectTimeout : option Timer;
    timers : list Timer;
    nextTimer : Timer;
    sockets : list Socket;
    closed : list Socket;
    pollers : nat }.

(** The object when the constructor returns. *)
Definition initial (monitor : SeiDepositMonitor.t) : t :=
  {| monitor := monitor; ws := None; reconnectTimeout := None;
     timers := []; nextTimer := 0%nat; sockets := []; closed := [];
     pollers := 0%nat |}.

Definition setMonitor (m : SeiDepositMonitor.t) (s : t) : t :=
  {| monitor := m; ws := ws s; reconnectTimeout := reconnectTimeout s;
     timers := timers s; nextTimer := nextTimer s; sockets := sockets s;
     closed := closed s;
     pollers := pollers s |}.

Definition setWs (socket : option Socket) (s : t) : t :=
  {| monitor := monitor s; ws := socket; reconnectTimeout := reconnectTimeout s;
     timers := timers s; nextTimer := nextTimer s; sockets := sockets s;
     closed := closed s;
     pollers := pollers s |}.

Definition setReconnectTimeout (timer : option Timer) (s : t) : t :=
  {| monitor := monitor s; ws := ws s; reconnectTimeout := timer;
     timers := timers s; nextTimer := nextTimer s; sockets := sockets s;
     closed := closed s;
     pollers := pollers s |}.

Definition setIsMonitoring (b : bool) (m : SeiDepositMonitor.t)
  : SeiDepositMonitor.t :=
  {| config := config m; callbacks := callbacks m; isMonitoring := b;
     targetAddress := targetAddress m; finalAddress := finalAddress m |}.

Definition setFinalAddress (address : string) (m : SeiDepositMonitor.t)
  : SeiDepositMonitor.t :=
  {| config := config m; callbacks := callbacks m;
     isMonitoring := isMonitoring m;
     targetAddress := targetAddress m; finalAddress := address |}.

(** [clearTimeout(timer)]: nothing happens for a timer that has fired. *)
Definition clearTimeout (timer : Timer) (s : t) : t :=
  {| monitor := monitor s; ws := ws s; reconnectTimeout := reconnectTimeout s;
     timers := filter (fun pending => negb (Nat.eqb timer pending)) (timers s);
     nextTimer := nextTimer s; sockets := sockets s; closed := closed s;
     pollers := pollers s |}.

(** [setTimeout(callback, 5000)]: the new timer and the state with it. *)
Definition setTimeout (s : t) : Timer * t :=
  (nextTimer s,
   {| monitor := monitor s; ws := ws s; reconnectTimeout := reconnectTimeout s;
      timers := timers s ++ [nextTimer s];
      nextTimer := S (nextTimer s); sockets := sockets s; closed := closed s;
     pollers := pollers s |}).

(** [new WebSocket(url)] when it returns. *)
Definition newWebSocket (s : t) : Socket * t :=
  let socket := List.length (sockets s) in
  (socket,
   {| monitor := monitor s; ws := ws s; reconnectTimeout := reconnectTimeout s;
      timers := timers s; nextTimer := nextTimer s;
      sockets := sockets s ++ [socket]; closed := closed s;
     pollers := pollers s |}).

(** [socket.close()] *)
Definition close (socket : Socket) (s : t) : t :=
  {| monitor := monitor s; ws := ws s; reconnectTimeout := reconnectTimeout s;
     timers := timers s; nextTimer := nextTimer s; sockets := sockets s;
     closed := closed s ++ [socket];
     pollers := pollers s |}.

Definition reconnect (s : t) : t :=
  let s :=
    match reconnectTimeout s with
    | Some timer => clearTimeout timer s
    | None => s
    end in
  let '(timer, s) := setTimeout s in
  setReconnectTimeout (Some timer) s.

(** [constructs] says whether [new WebSocket(...)] returns; when it
    throws, the [catch] block calls [reconnect]. *)
Definition startWebSocket (constructs : bool) (s : t) : t :=
  if constructs
  then let '(socket, s) := newWebSocket s in setWs (Some socket) s
  else reconnect s.

(** The [error] and the [close] handler of a socket. *)
Definition onError (socket : Socket) (s : t) : t :=
  if existsb (Nat.eqb socket) (sockets s) then reconnect s else s.

Definition onClose (socket : Socket) (s : t) : t :=
  if existsb (Nat.eqb socket) (sockets s) then reconnect s else s.

(** A pending timer fires and runs the callback [reconnect] gave it. *)
Definition onTimeout (timer : Timer) (constructs : bool) (s : t) : t :=
  if existsb (Nat.eqb timer) (timers s) then
    let s := clearTimeout timer s in
    if isMonitoring (monitor s) then startWebSocket constructs s else s
  else s.

Definition stop (s : t) : t :=
  let s := setMonitor (setIsMonitoring false (monitor s)) s in
  let s :=
    match ws s with
    | Some socket => setWs None (close socket s)
    | None => s
    end in
  match reconnectTimeout s with
  | Some timer => setReconnectTimeout None (clearTimeout timer s)
  | None => s
  end.

(** [this.startRestPolling()], not awaited: one more polling loop runs
    beside the monitor from now on.  What the loop does is
    [SeiDepositMonitor.startRestPolling]; nothing waits for it, so what
    it throws is handled by nobody. *)
Definition launchPolling (s : t) : t :=
  {| monitor := monitor s; ws := ws s; reconnectTimeout := reconnectTimeout s;
     timers := timers s; nextTimer := nextTimer s; sockets := sockets s;
     closed := closed s;
     pollers := S (pollers s) |}.

Section Start.
Context {bech32 : Bech32Package}.

(** [start()].  When the resolution throws nothing has been assigned
    and nothing is started. *)
Definition start (net : Net.t) (constructs : bool) (s : t) : outcome t :=
  let this := monitor s in
  if isMonitoring this then Returns s
  else
    finalAddress <-
      (if AddressUtils.isEthAddress (targetAddress this)
       then resolveEvmAddress net this (targetAddress this)
       else Returns (finalAddress this)) ;;
    let this := setIsMonitoring true (setFinalAddress finalAddress this) in
    Returns (launchPolling (startWebSocket constructs (setMonitor this s))).

(** What can happen to a monitor, one event at a time. *)
Inductive Event : Type :=
| CallStart (net : Net.t) (constructs : bool)
| CallStop
| SocketError (socket : Socket)
| SocketClose (socket : Socket)
| TimerFires (timer : Timer) (constructs : bool).

Definition step (s : t) (event : Event) : t :=
  match event with
  | CallStart net constructs =>
      match start net constructs s with
      | Returns s' => s'
      | _ => s
      end
  | CallStop => stop s
  | SocketError socket => onError socket s
  | SocketClose socket => onClose socket s
  | TimerFires timer constructs => onTimeout timer constructs s
  end.

Definition run (events : list Event) (s : t) : t := fold_left step events s.

Definition isCallStart (event : Event) : bool :=
  match event with
  | CallStart _ _ => true
  | _ => false
  end.

End Start.

End Supervisor.

(** ** Earlier revisions kept in the source files

    [src/address.ts] and [src/monitor.ts] also hold earlier revisions of
    two of the functions above.  They are embedded here to record where
    they differ; everything else is about the current revision. *)

Module Earlier.

(** [ethAddressToBech32] of the first revision of [src/address.ts]: no
    check of the text before it is decoded. *)
Definition ethAddressToBech32 {bech32 : Bech32Package}
           (ethAddress prefix : string) : outcome string :=
  let addressBytes := Buffer.from_hex (Text.replace "0x" EmptyString ethAddress) in
  words <- AddressUtils.convertBits addressBytes 8 5 true ;;
  bech32_encode prefix words 256.

(** [determineDepositType] of the first revision of [src/monitor.ts],
    where the monitor has a field [castAddress: string | null] and tests
    it first. *)
Definition determineDepositType (castAddress : option string)
           (details : TransactionDetails.t) : DepositType :=
  if match castAddress with
     | Some address => String.eqb (TransactionDetails.receiver details) address
     | None => false
     end
  then cast
  else if String.eqb (TransactionDetails.type details)
                     "/seiprotocol.seichain.evm.MsgEVMTransaction"
  then evm
  else direct.

End Earlier.

(** ** Statements of the specification, to be compared with the code *)

Module Spec.
Import SeiDepositMonitor.

Fixpoint firstNonEmpty {A : Type} (sources : list (list A)) : list A :=
  match sources with
  | [] => []
  | [] :: later => firstNonEmpty later
  | source :: _ => source
  end.

(** An event list as a single log group, nothing when there is none. *)
Definition asGroup (events : option (list TxLogEvent.t)) : list TxLog.t :=
  match events with
  | Some (e :: es) => wrapEvents (e :: es)
  | _ => []
  end.

(** The order of the specification: nested log groups, then the
    live-channel list [tx.result.events], then the flat list [tx.events]. *)
Definition sourcesInSpecOrder (tx : TxResponseItem.t) : list (list TxLog.t) :=
  [orEmpty (TxResponseItem.logs tx);
   asGroup (resultEvents tx);
   asGroup (TxResponseItem.events tx)].

(** The order of the code: [tx.logs], [tx.events], [tx.result.events]. *)
Definition sourcesInCodeOrder (tx : TxResponseItem.t) : list (list TxLog.t) :=
  [orEmpty (TxResponseItem.logs tx);
   asGroup (TxResponseItem.events tx);
   asGroup (resultEvents tx)].

Definition parseFrom (this : t) (tx : TxResponseItem.t)
           (sources : list (list TxLog.t)) : list TransactionDetails.t :=
  flat_map (scanLog this tx) (firstNonEmpty sources).

(** Decoding an address: [bech32.decode], then the 5-bit words regrouped
    into bytes without padding. *)
Definition addressBytes {bech32 : Bech32Package} (address : string)
  : outcome (list Z) :=
  decoded <- bech32_decode address 256 ;;
  AddressUtils.convertBits (snd decoded) 5 8 false.

(** The number a digit list stands for, most significant digit first. *)
Definition valueOf (base : Z) (digits : list Z) : Z :=
  fold_left (fun v d => v * base + d) digits 0.

(** [extend base n digits]: [n] followed by more digits. *)
Definition extend (base n : Z) (digits : list Z) : Z :=
  fold_left (fun v d => v * base + d) digits n.

(** A digit of [n] bits. *)
Definition below (n w : Z) : Prop := 0 <= w < 2 ^ n.

Definition isByte (b : Z) : Prop := 0 <= b < 256.
Definition isWord5 (w : Z) : Prop := 0 <= w < 32.

(** A [coin_received] attribute list written as its pairs. *)
Definition flatPairs (pairs : list (Attribute.t * Attribute.t)) : list Attribute.t :=
  flat_map (fun p => [fst p; snd p]) pairs.

Definition receiverAttr (address : string) : Attribute.t :=
  {| Attribute.key := "receiver"; Attribute.value := address |}.

Definition amountAttr (amount : string) : Attribute.t :=
  {| Attribute.key := "amount"; Attribute.value := amount |}.

(** A pair with the keys [receiver] then [amount] whose receiver is the
    watched address. *)
Definition isDepositPair (this : t) (p : Attribute.t * Attribute.t) : bool :=
  hasKey "receiver" (fst p) && hasKey "amount" (snd p)
  && String.eqb (Attribute.value (fst p)) (finalAddress this).

(** The answers of the three lookups of the resolver for an account with
    no code, no registered address and no transaction.  A call that fails
    in any way counts as such an answer. *)
Definition codeIsEmpty (reply : Net.JsonRpcReply) : Prop :=
  match reply with
  | Net.RpcUnreachable => True
  | Net.RpcAnswer (Some _) _ => True
  | Net.RpcAnswer None result => result = Some "0x"%string \/ Net.truthy result = None
  end.



Definition evmRpcOf (this : t) : string :=
  match Net.truthy (MonitorConfig.evmRpcEndpoint (config this)) with
  | Some rpc => rpc
  | None => "https://evm-rpc.sei.basementnodes.ca"%string
  end.

Definition walletUrl (hexAddr : string) : string :=
  ("https://wallets.sei.basementnodes.ca/" ++ hexAddr)%string.


(** A prefix that [bech32.encode] takes with 32 data words and limit 256
    and that [bech32.decode] gives back. *)
Definition isHrp (prefix : string) : Prop :=
  1 <= Text.len prefix <= 217
  /\ Forall Checksum.printable (Text.chars prefix).


(** The event built from a candidate, as the poller and the socket
    handler build it. *)
Definition eventOf (detail : TransactionDetails.t) : DepositEvent.t :=
  {| DepositEvent.type := determineDepositType detail;
     DepositEvent.transaction := detail |}.

(** Every callback with every candidate of every transaction, in order. *)
Definition deliveries (this : t) (txs : list TxResponseItem.t)
  : list (Effects.Callback * DepositEvent.t) :=
  flat_map
    (fun tx =>
       flat_map (fun detail => map (fun cb => (cb, eventOf detail)) (callbacks this))
                (parseTransactionDetails this tx))
    txs.


(** A callback that calls neither [onDeposit] nor [removeCallback] and
    whose promise settles: it completes, or throws a value the logger
    can print. *)
Definition orderlyReaction (reaction : Effects.Reaction) : Prop :=
  Effects.during reaction = []
  /\ match Effects.settlement reaction with
     | Effects.Completes => True
     | Effects.Fails (Effects.Printable _) => True
     | _ => False
     end.

Definition orderly (behaviour : Effects.Behaviour) : Prop :=
  forall cb seen event, orderlyReaction (behaviour cb seen event).


(** The attributes by position: those at 0 and 1, at 2 and 3, and so
    on; a last attribute on its own is left out. *)
Fixpoint alignedPairs (attrs : list Attribute.t)
  : list (Attribute.t * Attribute.t) :=
  match attrs with
  | first :: second :: rest => (first, second) :: alignedPairs rest
  | _ => []
  end.

(** The value of the first attribute named [key] of the first event of
    type [type], when there is one. *)
Definition firstValue (type key : string) (events : list TxLogEvent.t)
  : option string :=
  match find (fun event => String.eqb (TxLogEvent.type event) type) events with
  | Some event =>
      match find (fun attr => String.eqb (Attribute.key attr) key)
                 (TxLogEvent.attributes event) with
      | Some attr => Some (Attribute.value attr)
      | None => None
      end
  | None => None
  end.

(** The candidates of one log group, said without a loop: for every
    [coin_received] event in order, for every pair by position with the
    keys [receiver] and [amount] that names the watched address, one
    candidate with the amount of the pair, the action of the first
    [message] event of the group and the sender of its first [message]
    event or else of its first [transfer] event. *)
Definition candidatesOfGroup (this : t) (tx : TxResponseItem.t) (log : TxLog.t)
  : list TransactionDetails.t :=
  let events := TxLog.events log in
  flat_map
    (fun cre =>
       map (fun pair =>
              {| TransactionDetails.hash := TxResponseItem.txhash tx;
                 TransactionDetails.height := TxResponseItem.height tx;
                 TransactionDetails.type :=
                   match firstValue "message" "action" events with
                   | Some action => action
                   | None => "unknown"%string
                   end;
                 TransactionDetails.amount := Attribute.value (snd pair);
                 TransactionDetails.sender :=
                   match firstValue "message" "sender" events with
                   | Some sender => Some sender
                   | None => firstValue "transfer" "sender" events
                   end;
                 TransactionDetails.receiver := Attribute.value (fst pair);
                 TransactionDetails.gasUsed := TxResponseItem.gas_used tx;
                 TransactionDetails.gasWanted := TxResponseItem.gas_wanted tx;
                 TransactionDetails.timestamp := TxResponseItem.timestamp tx;
                 TransactionDetails.raw := tx |})
           (filter (fun pair =>
                      String.eqb (Attribute.key (fst pair)) "receiver"
                      && String.eqb (Attribute.key (snd pair)) "amount"
                      && String.eqb (Attribute.value (fst pair)) (finalAddress this))
                   (alignedPairs (TxLogEvent.attributes cre))))
    (filter (fun event => String.eqb (TxLogEvent.type event) "coin_received")
            events).

(** What a computation leaves true of the monitor and the trace,
    however it ends. *)
Definition keeps {A : Type} (invariant : State -> Prop) (m : Effects.M State A)
  : Prop :=
  forall s, invariant s -> invariant (snd (m s)).




(** The two networks answer the code lookup and the registry alike. *)
Definition sameCodeAndWallet (net1 net2 : Net.t) : Prop :=
  (forall rpc address,
      Net.eth_getCode net1 rpc address = Net.eth_getCode net2 rpc address)
  /\ (forall url, Net.get_wallet net1 url = Net.get_wallet net2 url).

(** At most one reconnect timer is pending, and the monitor holds it. *)
Definition oneTimer (s : Supervisor.t) : Prop :=
  Supervisor.timers s = []
  \/ exists timer,
      Supervisor.timers s = [timer]
      /\ Supervisor.reconnectTimeout s = Some timer.

End Spec.

(** ** Concrete monitors, payloads and network answers *)

Module Scenario.
Import SeiDepositMonitor.
Local Open Scope string_scope.

Definition watched : string := "sei1qv45ek49hqupx63u8lme9vcylarj3qe7f7cy99".

Definition watcher : t :=
  {| config := {| MonitorConfig.wsEndpoint := "wss://ws.test.com/websocket";
                  MonitorConfig.restEndpoint := "https://rest.test.com";
                  MonitorConfig.prefix := "sei";
                  MonitorConfig.evmRpcEndpoint := None |};
     callbacks := [0%nat];
     isMonitoring := true;
     targetAddress := watched;
     finalAddress := watched |}.

(** The same monitor with the callbacks 0 and 1, registered in that
    order. *)
Definition twoCallbacks : t := onDeposit watcher 1%nat.


Definition coinReceived (attributes : list Attribute.t) : TxLogEvent.t :=
  {| TxLogEvent.type := "coin_received"; TxLogEvent.attributes := attributes |}.

Definition message (action : string) : TxLogEvent.t :=
  {| TxLogEvent.type := "message";
     TxLogEvent.attributes :=
       [{| Attribute.key := "action"; Attribute.value := action |};
        {| Attribute.key := "sender"; Attribute.value := "sei1sender" |}] |}.

Definition txWith (height : string) (logs : option (list TxLog.t))
           (events : option (list TxLogEvent.t))
           (result : option TxResponseItem.result_t) : TxResponseItem.t :=
  {| TxResponseItem.txhash := "abc123";
     TxResponseItem.height := height;
     TxResponseItem.gas_used := "50000";
     TxResponseItem.gas_wanted := "75000";
     TxResponseItem.timestamp := "2024-02-09T12:00:00Z";
     TxResponseItem.logs := logs;
     TxResponseItem.events := events;
     TxResponseItem.result := result |}.

(** Two pairs in one event: another receiver first, the watched one second. *)
Definition twoPairs : list Attribute.t :=
  [Spec.receiverAttr "sei1other"; Spec.amountAttr "23usei";
   Spec.receiverAttr watched; Spec.amountAttr "100000usei"].

Definition txTwoPairs : TxResponseItem.t :=
  txWith "123456" None
         (Some [coinReceived twoPairs; message "/cosmos.bank.v1beta1.MsgSend"])
         None.

(** The same two pairs behind one more attribute: every pair is now
    read one position off. *)
Definition shiftedPairs : list Attribute.t :=
  {| Attribute.key := "msg_index"; Attribute.value := "0" |} :: twoPairs.

Definition txShifted : TxResponseItem.t :=
  txWith "123456" None
         (Some [coinReceived shiftedPairs; message "/cosmos.bank.v1beta1.MsgSend"])
         None.

(** A deposit in the flat list [tx.events] and a non-empty
    [tx.result.events] without one. *)
Definition txBothLists : TxResponseItem.t :=
  txWith "123456" None
         (Some [coinReceived [Spec.receiverAttr watched; Spec.amountAttr "100usei"]])
         (Some {| TxResponseItem.result_events :=
                    Some [message "/cosmos.bank.v1beta1.MsgSend"] |}).

Definition evmDetails (receiver : string) : TransactionDetails.t :=
  {| TransactionDetails.hash := "abc";
     TransactionDetails.height := "123";
     TransactionDetails.type := "/seiprotocol.seichain.evm.MsgEVMTransaction";
     TransactionDetails.amount := "100usei";
     TransactionDetails.sender := None;
     TransactionDetails.receiver := receiver;
     TransactionDetails.gasUsed := "50000";
     TransactionDetails.gasWanted := "75000";
     TransactionDetails.timestamp := "2024-02-09T12:00:00Z";
     TransactionDetails.raw := txTwoPairs |}.

(** Every endpoint is down. *)
Definition offline : Net.t :=
  {| Net.eth_getCode := fun _ _ => Net.RpcUnreachable;
     Net.eth_getTransactionCount := fun _ _ => Net.RpcUnreachable;
     Net.get_wallet := fun _ => Net.WalletUnreachable;
     Net.get_block := fun _ => Net.BlockUnreachable;
     Net.get_txs := fun _ => Net.TxsUnreachable |}.

(** The node answers: no code, no transaction, no registered wallet. *)
Definition freshAccount : Net.t :=
  {| Net.eth_getCode := fun _ _ => Net.RpcAnswer None (Some "0x");
     Net.eth_getTransactionCount := fun _ _ => Net.RpcAnswer None (Some "0x0");
     Net.get_wallet := fun _ => Net.WalletAnswer false None;
     Net.get_block := fun _ => Net.BlockUnreachable;
     Net.get_txs := fun _ => Net.TxsUnreachable |}.

Definition hexOnes : string := "0x1111111111111111111111111111111111111111".

(** An account that has sent transactions and has a registered wallet. *)
Definition registeredAccount : Net.t :=
  {| Net.eth_getCode := fun _ _ => Net.RpcAnswer None (Some "0x");
     Net.eth_getTransactionCount := fun _ _ => Net.RpcAnswer None (Some "0x5");
     Net.get_wallet := fun _ => Net.WalletAnswer true (Some watched);
     Net.get_block := fun _ => Net.BlockUnreachable;
     Net.get_txs := fun _ => Net.TxsUnreachable |}.

(** The same answers with another transaction count. *)
Definition registeredAccountLater : Net.t :=
  {| Net.eth_getCode := fun _ _ => Net.RpcAnswer None (Some "0x");
     Net.eth_getTransactionCount := fun _ _ => Net.RpcUnreachable;
     Net.get_wallet := fun _ => Net.WalletAnswer true (Some watched);
     Net.get_block := fun _ => Net.BlockUnreachable;
     Net.get_txs := fun _ => Net.TxsUnreachable |}.

(** A contract, for which the registry answers too. *)
Definition contractAccount : Net.t :=
  {| Net.eth_getCode := fun _ _ => Net.RpcAnswer None (Some "0x6080604052");
     Net.eth_getTransactionCount := fun _ _ => Net.RpcAnswer None (Some "0x1");
     Net.get_wallet := fun _ => Net.WalletAnswer true (Some watched);
     Net.get_block := fun _ => Net.BlockUnreachable;
     Net.get_txs := fun _ => Net.TxsUnreachable |}.

(** The REST node answers the head but not the search. *)
Definition searchDown (head : string) : Net.t :=
  {| Net.eth_getCode := fun _ _ => Net.RpcUnreachable;
     Net.eth_getTransactionCount := fun _ _ => Net.RpcUnreachable;
     Net.get_wallet := fun _ => Net.WalletUnreachable;
     Net.get_block := fun _ => Net.BlockAnswer head;
     Net.get_txs := fun _ => Net.TxsUnreachable |}.

(** One deposit to the watched address, in block 11. *)
Definition deposit11 : TxResponseItem.t :=
  txWith "11"
         (Some [{| TxLog.msg_index := 0; TxLog.log := EmptyString;
                   TxLog.events :=
                     [coinReceived [Spec.receiverAttr watched;
                                    Spec.amountAttr "100000usei"];
                      message "/cosmos.bank.v1beta1.MsgSend"] |}])
         None None.

(** The REST node when the head of the chain is [head]: the search by
    receiver returns the deposit of block 11, whatever the head. *)
Definition restAt (head : string) : Net.t :=
  {| Net.eth_getCode := fun _ _ => Net.RpcUnreachable;
     Net.eth_getTransactionCount := fun _ _ => Net.RpcUnreachable;
     Net.get_wallet := fun _ => Net.WalletUnreachable;
     Net.get_block := fun _ => Net.BlockAnswer head;
     Net.get_txs := fun _ => Net.TxsAnswer (Some [deposit11]) |}.

(** The compressed key of the test suite. *)
Definition testKey : list Z :=
  Buffer.from_hex "02a9c4ec5e7927c1390a769a1c6ce4c54bda30677676ff3ab32b905d75dcff1960".

(** A key of 33 bytes with the leading byte [0x03] whose base64 text,
    [A0AA...A], is made of hexadecimal digits only. *)
Definition hexLookingKey : list Z := 3 :: 64 :: repeat 0 31.

(** Three bytes: not the length of any public key. *)
Definition shortKey : list Z := [1; 2; 3].

(** The running monitor with its first socket open. *)
Definition connected : Supervisor.t :=
  Supervisor.startWebSocket true (Supervisor.initial watcher).

Definition completes : Effects.Reaction :=
  {| Effects.during := []; Effects.settlement := Effects.Completes |}.

Definition throws (error : Effects.Thrown) : Effects.Reaction :=
  {| Effects.during := []; Effects.settlement := Effects.Fails error |}.

Definition alwaysCompletes : Effects.Behaviour :=
  fun _ _ _ => completes.

(** Callback 1 throws [new Error("boom")] on the first event it
    receives, never again. *)
Definition throwsOnce : Effects.Behaviour :=
  fun cb seen _ =>
    match cb, seen with
    | 1%nat, [] => throws (Effects.Printable "boom")
    | _, _ => completes
    end.

(** What [JSON.stringify] throws on an object that refers to itself. *)
Definition circular : Effects.Thrown :=
  Effects.Printable "Converting circular structure to JSON".

(** Callback 0 throws an object that refers to itself,
    [const o = {}; o.self = o; throw o]. *)
Definition throwsCyclic : Effects.Behaviour :=
  fun cb _ _ =>
    match cb with
    | 0%nat => throws (Effects.Unprintable circular)
    | _ => completes
    end.

(** Callback 0 removes itself and registers itself again the first
    two times it is called. *)
Definition comesBack : Effects.Behaviour :=
  fun cb seen _ =>
    match cb, seen with
    | 0%nat, [] | 0%nat, [_] =>
        {| Effects.during := [Effects.RemoveCallback 0%nat; Effects.OnDeposit 0%nat];
           Effects.settlement := Effects.Completes |}
    | _, _ => completes
    end.

Definition quiet : Effects.World :=
  {| Effects.calls := []; Effects.errors := [] |}.

Definition depositEvent11 : DepositEvent.t :=
  {| DepositEvent.type := direct;
     DepositEvent.transaction :=
       {| TransactionDetails.hash := "abc123";
          TransactionDetails.height := "11";
          TransactionDetails.type := "/cosmos.bank.v1beta1.MsgSend";
          TransactionDetails.amount := "100000usei";
          TransactionDetails.sender := Some "sei1sender";
          TransactionDetails.receiver := watched;
          TransactionDetails.gasUsed := "50000";
          TransactionDetails.gasWanted := "75000";
          TransactionDetails.timestamp := "2024-02-09T12:00:00Z";
          TransactionDetails.raw := deposit11 |} |}.

End Scenario.

(** * Properties *)

Module JSFacts.

Lemma toInt32_small z : - 2 ^ 31 <= z < 2 ^ 31 -> JS.toInt32 z = z.
Proof.
  unfold JS.toInt32. intros H.
  rewrite Z.mod_small; lia.
Qed.

Lemma toInt32_range z : - 2 ^ 31 <= JS.toInt32 z < 2 ^ 31.
Proof.
  unfold JS.toInt32.
  pose proof (Z.mod_pos_bound (z + 2 ^ 31) (2 ^ 32) ltac:(lia)). lia.
Qed.

Lemma toInt32_idem z : JS.toInt32 (JS.toInt32 z) = JS.toInt32 z.
Proof. apply toInt32_small, toInt32_range. Qed.

(** A mask of [n] ones keeps the residue modulo [2 ^ n]. *)
Lemma and_ones x n : 0 <= n < 31 ->
  JS.and x (Z.ones n) = JS.toInt32 x mod 2 ^ n.
Proof.
  intros Hn. unfold JS.and.
  rewrite (toInt32_small (Z.ones n)).
  - apply Z.land_ones. lia.
  - rewrite Z.ones_equiv.
    assert (0 < 2 ^ n) by (apply Z.pow_pos_nonneg; lia).
    assert (2 ^ n <= 2 ^ 30) by (apply Z.pow_le_mono_r; lia).
    lia.
Qed.

Lemma sar_div x k : 0 <= k < 32 -> JS.sar x k = JS.toInt32 x / 2 ^ k.
Proof.
  intros Hk. unfold JS.sar.
  replace (Z.land k 31) with k.
  - apply Z.shiftr_div_pow2. lia.
  - change 31 with (Z.ones 5). rewrite Z.land_ones by lia.
    symmetry. apply Z.mod_small. change (2 ^ 5) with 32. lia.
Qed.

Lemma shl_mul x k : 0 <= k < 32 -> JS.shl x k = JS.toInt32 (JS.toInt32 x * 2 ^ k).
Proof.
  intros Hk. unfold JS.shl.
  replace (Z.land k 31) with k.
  - rewrite Z.shiftl_mul_pow2 by lia. reflexivity.
  - change 31 with (Z.ones 5). rewrite Z.land_ones by lia.
    symmetry. apply Z.mod_small. change (2 ^ 5) with 32. lia.
Qed.

(** A multiple of [2 ^ k] and a value below [2 ^ k] share no bit, so
    or-ing and xor-ing them is adding them. *)
Lemma land_low a v k : 0 <= k -> a mod 2 ^ k = 0 -> 0 <= v < 2 ^ k ->
  Z.land a v = 0.
Proof.
  intros Hk Ha Hv.
  apply Z.bits_inj'. intros n Hn.
  rewrite Z.land_spec, Z.bits_0.
  destruct (Z.lt_ge_cases n k) as [Hlt | Hge].
  - apply Z.mod_divide in Ha; [| apply Z.pow_nonzero; lia].
    destruct Ha as [q ->].
    rewrite Z.mul_pow2_bits_low by lia. reflexivity.
  - destruct (Z.eq_dec v 0) as [-> | Hnz].
    + rewrite Z.bits_0. apply andb_false_r.
    + rewrite (Z.bits_above_log2 v n); [apply andb_false_r | lia |].
      apply Z.lt_le_trans with k; [| lia].
      apply Z.log2_lt_pow2; lia.
Qed.

Lemma lor_low a v k : 0 <= k -> a mod 2 ^ k = 0 -> 0 <= v < 2 ^ k ->
  Z.lor a v = a + v.
Proof.
  intros Hk Ha Hv. rewrite <- Z.add_lor_land.
  rewrite (land_low a v k) by assumption. lia.
Qed.

Lemma lxor_low a v k : 0 <= k -> a mod 2 ^ k = 0 -> 0 <= v < 2 ^ k ->
  Z.lxor a v = a + v.
Proof.
  intros Hk Ha Hv. symmetry. apply Z.add_nocarry_lxor.
  apply (land_low a v k); assumption.
Qed.

Lemma toInt32_mod z k : 0 <= k <= 32 -> JS.toInt32 z mod 2 ^ k = z mod 2 ^ k.
Proof.
  intros Hk. unfold JS.toInt32.
  assert (2 ^ 32 = 2 ^ k * 2 ^ (32 - k)) as E32
      by (rewrite <- Z.pow_add_r by lia; f_equal; lia).
  rewrite (Z.mod_eq (z + 2 ^ 31) (2 ^ 32)) by lia.
  set (q := (z + 2 ^ 31) / 2 ^ 32).
  replace (z + 2 ^ 31 - 2 ^ 32 * q - 2 ^ 31)
    with (z + (- (2 ^ (32 - k) * q)) * 2 ^ k) by (rewrite E32; ring).
  apply Z_mod_plus_full.
Qed.

Lemma or_shl x v k : 0 < k < 31 -> 0 <= v < 2 ^ k ->
  JS.or (JS.shl x k) v = JS.toInt32 (JS.toInt32 x * 2 ^ k) + v.
Proof.
  intros Hk Hv.
  assert (2 ^ k <= 2 ^ 30) by (apply Z.pow_le_mono_r; lia).
  unfold JS.or.
  rewrite shl_mul by lia.
  rewrite toInt32_idem, (toInt32_small v) by lia.
  apply lor_low with k; try lia.
  rewrite toInt32_mod by lia.
  apply Z_mod_mult.
Qed.

(** Bits [b .. b + n) of a number depend on its residue modulo [2 ^ 32]
    only, as long as they lie below bit 32. *)
Lemma bits_congr x y b n : 0 <= b -> 0 <= n -> b + n <= 32 ->
  x mod 2 ^ 32 = y mod 2 ^ 32 ->
  (x / 2 ^ b) mod 2 ^ n = (y / 2 ^ b) mod 2 ^ n.
Proof.
  intros Hb Hn Hbn E.
  assert (0 < 2 ^ b) by (apply Z.pow_pos_nonneg; lia).
  assert (0 < 2 ^ n) by (apply Z.pow_pos_nonneg; lia).
  assert (0 < 2 ^ (b + n)) by (apply Z.pow_pos_nonneg; lia).
  assert (forall k z, 0 <= k <= 32 -> z mod 2 ^ k = (z mod 2 ^ 32) mod 2 ^ k) as Hdm.
  { intros k z Hk. symmetry. apply Z.mod_mod_divide.
    exists (2 ^ (32 - k)). rewrite <- Z.pow_add_r by lia. f_equal. lia. }
  assert (x mod 2 ^ (b + n) = y mod 2 ^ (b + n)) as E'
      by (rewrite (Hdm (b + n) x), (Hdm (b + n) y), E by lia; reflexivity).
  rewrite Z.pow_add_r in E' by lia.
  rewrite !Z.rem_mul_r in E' by lia.
  assert (x mod 2 ^ b = y mod 2 ^ b) as Elow
      by (rewrite (Hdm b x), (Hdm b y), E by lia; reflexivity).
  nia.
Qed.

Lemma toInt32_congr z : JS.toInt32 z mod 2 ^ 32 = z mod 2 ^ 32.
Proof. apply toInt32_mod. lia. Qed.

(** What [(acc >> b) & maxv] reads. *)
Lemma push_value x b n : 0 <= b -> 0 < n < 31 -> b + n <= 32 ->
  JS.and (JS.sar x b) (Z.ones n) = (x / 2 ^ b) mod 2 ^ n.
Proof.
  intros Hb Hn Hbn.
  rewrite and_ones by lia.
  rewrite toInt32_mod by lia.
  rewrite sar_div by lia.
  apply bits_congr; try lia. apply toInt32_congr.
Qed.

Lemma maxv_ones n : 0 <= n < 31 -> JS.shl 1 n - 1 = Z.ones n.
Proof.
  intros Hn. rewrite shl_mul by lia.
  assert (0 < 2 ^ n) by (apply Z.pow_pos_nonneg; lia).
  assert (2 ^ n <= 2 ^ 30) by (apply Z.pow_le_mono_r; lia).
  rewrite (toInt32_small 1) by lia.
  rewrite toInt32_small by lia.
  rewrite Z.ones_equiv. lia.
Qed.

End JSFacts.


Module ConvertBitsFacts.
Import AddressUtils Spec JSFacts.

Lemma valueOf_snoc base ds d :
  valueOf base (ds ++ [d]) = valueOf base ds * base + d.
Proof. unfold valueOf. rewrite fold_left_app. reflexivity. Qed.

Lemma valueOf_bound base ds :
  0 < base -> Forall (fun d => 0 <= d < base) ds ->
  0 <= valueOf base ds < base ^ Z.of_nat (List.length ds).
Proof.
  intros Hb H. induction ds as [| d ds IH] using rev_ind.
  - cbn. lia.
  - apply Forall_app in H as [H1 H2]. inversion H2; subst.
    rewrite valueOf_snoc, length_app, Nat2Z.inj_add, Z.pow_add_r by lia.
    cbn [List.length]. change (Z.of_nat 1) with 1. rewrite Z.pow_1_r.
    specialize (IH H1). nia.
Qed.

Section Regroup.
Variables fromBits toBits : Z.
Hypothesis Hfrom : 0 < fromBits < 31.
Hypothesis Hto : 0 < toBits < 31.


Lemma pushed_isWord x : below toBits (JS.and x (Z.ones toBits)).
Proof.
  unfold below. rewrite and_ones by lia.
  apply Z.mod_pos_bound. apply Z.pow_pos_nonneg; lia.
Qed.

(** The inner loop ends, leaves [bits mod toBits] bits and pushes
    [bits / toBits] words. *)
Lemma drain_shape acc fuel : forall bits result,
  0 <= bits -> (Z.to_nat bits <= fuel)%nat ->
  exists pushed,
    drain fuel toBits (Z.ones toBits) acc bits result
    = Some (bits mod toBits, result ++ pushed)
    /\ Z.of_nat (List.length pushed) = bits / toBits
    /\ Forall (below toBits) pushed.
Proof.
  induction fuel as [| fuel IH]; intros bits result Hbits Hfuel.
  - assert (bits = 0) as -> by lia.
    exists []. cbn [drain].
    replace (0 >=? toBits) with false
      by (symmetry; rewrite Z.geb_leb; apply Z.leb_gt; lia).
    rewrite app_nil_r, Z.mod_0_l, Z.div_0_l by lia. auto.
  - cbn [drain]. destruct (bits >=? toBits) eqn:E.
    + rewrite Z.geb_leb in E. apply Z.leb_le in E.
      destruct (IH (bits - toBits)
                   (result ++ [JS.and (JS.sar acc (bits - toBits)) (Z.ones toBits)]))
        as (pushed & Hrun & Hlen & Hall); try lia.
      exists (JS.and (JS.sar acc (bits - toBits)) (Z.ones toBits) :: pushed).
      rewrite Hrun, <- app_assoc. cbn [app List.length].
      assert (bits mod toBits = (bits - toBits) mod toBits) as ->
          by (rewrite <- (Z_mod_plus_full (bits - toBits) 1 toBits); f_equal; lia).
      assert (bits / toBits = (bits - toBits) / toBits + 1) as ->
          by (rewrite <- Z.div_add by lia; f_equal; lia).
      repeat split; try lia.
      constructor; [apply pushed_isWord | assumption].
    + rewrite Z.geb_leb in E. apply Z.leb_gt in E.
      exists []. rewrite app_nil_r, Z.mod_small, Z.div_small by lia. auto.
Qed.

(** With [acc] congruent to the number [N] read so far and [result]
    holding all of [N] but its last [bits] bits, the inner loop leaves
    [result] holding all of [N] but its last [bits mod toBits] bits. *)
Lemma drain_value acc N fuel : forall bits result,
  0 <= N -> acc mod 2 ^ 32 = N mod 2 ^ 32 ->
  0 <= bits <= 32 -> (Z.to_nat bits <= fuel)%nat ->
  valueOf (2 ^ toBits) result = N / 2 ^ bits ->
  exists result',
    drain fuel toBits (Z.ones toBits) acc bits result = Some (bits mod toBits, result')
    /\ valueOf (2 ^ toBits) result' = N / 2 ^ (bits mod toBits).
Proof.
  induction fuel as [| fuel IH]; intros bits result HN Hacc Hbits Hfuel Hval.
  - assert (bits = 0) as -> by lia.
    exists result. cbn [drain].
    replace (0 >=? toBits) with false
      by (symmetry; rewrite Z.geb_leb; apply Z.leb_gt; lia).
    rewrite Z.mod_0_l by lia. auto.
  - cbn [drain]. destruct (bits >=? toBits) eqn:E.
    + rewrite Z.geb_leb in E. apply Z.leb_le in E.
      assert (bits mod toBits = (bits - toBits) mod toBits) as ->
          by (rewrite <- (Z_mod_plus_full (bits - toBits) 1 toBits); f_equal; lia).
      apply IH; try lia.
      rewrite valueOf_snoc, Hval.
      rewrite push_value by lia.
      rewrite (bits_congr acc N) by (assumption || lia).
      replace bits with ((bits - toBits) + toBits) at 1 by lia.
      rewrite Z.pow_add_r, <- Z.div_div by lia.
      assert (0 < 2 ^ toBits) by (apply Z.pow_pos_nonneg; lia).
      pose proof (Z.div_mod (N / 2 ^ (bits - toBits)) (2 ^ toBits)). lia.
    + rewrite Z.geb_leb in E. apply Z.leb_gt in E.
      exists result. rewrite Z.mod_small by lia. auto.
Qed.

Lemma acc_step acc N v : below fromBits v ->
  acc mod 2 ^ 32 = N mod 2 ^ 32 ->
  JS.or (JS.shl acc fromBits) v mod 2 ^ 32 = (N * 2 ^ fromBits + v) mod 2 ^ 32.
Proof.
  unfold below. intros Hv Hacc. rewrite or_shl by lia.
  rewrite Z.add_mod, toInt32_congr by lia.
  rewrite Z.mul_mod, toInt32_congr, Hacc by lia.
  rewrite <- Z.mul_mod, <- Z.add_mod by lia. reflexivity.
Qed.

Lemma convertLoop_shape : forall data acc bits result,
  0 <= bits < toBits ->
  let total := bits + fromBits * Z.of_nat (List.length data) in
  exists acc' pushed,
    convertLoop data fromBits toBits (Z.ones toBits) acc bits result
    = Some (acc', total mod toBits, result ++ pushed)
    /\ Z.of_nat (List.length pushed) = total / toBits
    /\ Forall (below toBits) pushed.
Proof.
  induction data as [| v data IH]; intros acc bits result Hbits total.
  - exists acc, []. subst total. cbn [convertLoop List.length].
    rewrite Z.mul_0_r, Z.add_0_r, app_nil_r, Z.mod_small, Z.div_small by lia.
    auto.
  - cbn [convertLoop].
    destruct (drain_shape (JS.or (JS.shl acc fromBits) v)
                          (Z.to_nat (bits + fromBits)) (bits + fromBits) result)
      as (p1 & Hrun & Hlen1 & Hall1); try lia.
    rewrite Hrun.
    assert (0 < toBits) as Hpos by lia.
    pose proof (Z.mod_pos_bound (bits + fromBits) toBits Hpos) as Hb.
    destruct (IH (JS.or (JS.shl acc fromBits) v)
                 ((bits + fromBits) mod toBits) (result ++ p1) Hb)
      as (acc' & p2 & Hrun2 & Hlen2 & Hall2).
    exists acc', (p1 ++ p2). rewrite Hrun2, <- app_assoc.
    assert (total = (bits + fromBits) mod toBits
                    + fromBits * Z.of_nat (List.length data)
                    + (bits + fromBits) / toBits * toBits) as Etotal.
    { subst total. rewrite length_cons, Nat2Z.inj_succ.
      pose proof (Z.div_mod (bits + fromBits) toBits). lia. }
    rewrite Etotal, Z_mod_plus_full, Z.div_add by lia.
    repeat split.
    + rewrite length_app, Nat2Z.inj_add. lia.
    + apply Forall_app. auto.
Qed.

Hypothesis Hsum : fromBits + toBits <= 33.

Lemma convertLoop_value : forall data acc bits result N,
  Forall (below fromBits) data ->
  0 <= bits < toBits -> 0 <= N ->
  acc mod 2 ^ 32 = N mod 2 ^ 32 ->
  valueOf (2 ^ toBits) result = N / 2 ^ bits ->
  let total := bits + fromBits * Z.of_nat (List.length data) in
  exists acc' result',
    convertLoop data fromBits toBits (Z.ones toBits) acc bits result
    = Some (acc', total mod toBits, result')
    /\ 0 <= Spec.extend (2 ^ fromBits) N data
    /\ acc' mod 2 ^ 32 = Spec.extend (2 ^ fromBits) N data mod 2 ^ 32
    /\ valueOf (2 ^ toBits) result'
       = Spec.extend (2 ^ fromBits) N data / 2 ^ (total mod toBits).
Proof.
  induction data as [| v data IH];
    intros acc bits result N Hdata Hbits HN Hacc Hval total.
  - exists acc, result. subst total. cbn [convertLoop List.length Spec.extend fold_left].
    rewrite Z.mul_0_r, Z.add_0_r, Z.mod_small by lia. auto.
  - inversion Hdata as [| ? ? Hv Hrest]; subst. unfold below in Hv.
    cbn [convertLoop Spec.extend fold_left].
    assert (0 < 2 ^ fromBits) by (apply Z.pow_pos_nonneg; lia).
    assert (0 < toBits) as Hpos by lia.
    destruct (drain_value (JS.or (JS.shl acc fromBits) v)
                          (N * 2 ^ fromBits + v)
                          (Z.to_nat (bits + fromBits)) (bits + fromBits) result)
      as (r1 & Hrun & Hval1); try lia.
    { apply acc_step; (assumption || exact Hv). }
    { assert ((N * 2 ^ fromBits + v) / 2 ^ fromBits = N) as Hdrop
          by (rewrite Z.add_comm, Z.div_add, (Z.div_small v) by lia; lia).
      assert (0 < 2 ^ bits) by (apply Z.pow_pos_nonneg; lia).
      replace (bits + fromBits) with (fromBits + bits) by lia.
      rewrite Hval, Z.pow_add_r, <- Z.div_div, Hdrop by lia. reflexivity. }
    rewrite Hrun.
    pose proof (Z.mod_pos_bound (bits + fromBits) toBits Hpos) as Hb.
    destruct (IH (JS.or (JS.shl acc fromBits) v)
                 ((bits + fromBits) mod toBits) r1 (N * 2 ^ fromBits + v)
                 Hrest Hb)
      as (acc' & result' & Hrun2 & Hnn & Hacc' & Hval');
      [lia | apply acc_step; (assumption || exact Hv) | assumption |].
    exists acc', result'.
    assert (total mod toBits
            = ((bits + fromBits) mod toBits
               + fromBits * Z.of_nat (List.length data)) mod toBits) as ->.
    { subst total. rewrite length_cons, Nat2Z.inj_succ.
      rewrite Z.add_mod_idemp_l by lia. f_equal. lia. }
    auto.
Qed.

(** What the final test and the padding word read: the last [bits]
    bits of [N], moved to the top of a word. *)
Lemma leftover_value acc N bits : 0 <= bits < toBits ->
  acc mod 2 ^ 32 = N mod 2 ^ 32 ->
  JS.and (JS.shl acc (toBits - bits)) (Z.ones toBits)
  = N mod 2 ^ bits * 2 ^ (toBits - bits).
Proof.
  intros Hbits Hacc.
  rewrite and_ones, toInt32_mod, shl_mul, toInt32_mod by lia.
  assert (0 < 2 ^ bits) by (apply Z.pow_pos_nonneg; lia).
  assert (0 < 2 ^ (toBits - bits)) by (apply Z.pow_pos_nonneg; lia).
  replace (2 ^ toBits) with (2 ^ bits * 2 ^ (toBits - bits))
    by (rewrite <- Z.pow_add_r by lia; f_equal; lia).
  rewrite Z.mul_mod_distr_r by lia.
  f_equal.
  rewrite toInt32_mod by lia.
  rewrite <- (Z.mod_mod_divide acc (2 ^ 32) (2 ^ bits)),
          <- (Z.mod_mod_divide N (2 ^ 32) (2 ^ bits)), Hacc; try reflexivity;
    exists (2 ^ (32 - bits)); rewrite <- Z.pow_add_r by lia; f_equal; lia.
Qed.

(** [convertBits] without padding: it throws exactly when bits would
    be lost, and otherwise returns the digits of the same number. *)
Lemma convertBits_nopad data : Forall (below fromBits) data ->
  let N := valueOf (2 ^ fromBits) data in
  let total := fromBits * Z.of_nat (List.length data) in
  let bits := total mod toBits in
  if (bits >=? fromBits) || negb (N mod 2 ^ bits =? 0)
  then convertBits data fromBits toBits false = Throws "Unable to convert bits"
  else exists result,
      convertBits data fromBits toBits false = Returns result
      /\ valueOf (2 ^ toBits) result * 2 ^ bits = N
      /\ Z.of_nat (List.length result) = total / toBits
      /\ Forall (below toBits) result.
Proof.
  intros Hdata N total bits.
  unfold convertBits. rewrite maxv_ones by lia.
  destruct (convertLoop_shape data 0 0 []) as (acc1 & pushed & Hrun1 & Hlen & Hall);
    [lia |].
  destruct (convertLoop_value data 0 0 [] 0 Hdata)
    as (acc & result & Hrun & HN & Hacc & Hval); try lia; try reflexivity.
  rewrite Hrun in Hrun1. injection Hrun1 as -> Eres.
  rewrite Hrun. rewrite !Z.add_0_l in *. fold total bits in Hval, Hlen |- *.
  change (Spec.extend (2 ^ fromBits) 0 data) with N in Hval, HN, Hacc.
  assert (0 <= bits < toBits) as Hbits by (apply Z.mod_pos_bound; lia).
  rewrite (leftover_value acc1 N) by assumption.
  assert (0 < 2 ^ bits) by (apply Z.pow_pos_nonneg; lia).
  assert (0 < 2 ^ (toBits - bits)) by (apply Z.pow_pos_nonneg; lia).
  destruct (bits >=? fromBits); cbn [orb]; [reflexivity |].
  destruct (N mod 2 ^ bits =? 0) eqn:Ez.
  - apply Z.eqb_eq in Ez. rewrite Ez. cbn [Z.mul Z.eqb negb].
    exists result. subst result. repeat split; try assumption.
    rewrite Hval. pose proof (Z.div_mod N (2 ^ bits) ltac:(lia)). lia.
  - apply Z.eqb_neq in Ez.
    replace (N mod 2 ^ bits * 2 ^ (toBits - bits) =? 0) with false; [reflexivity |].
    symmetry. apply Z.eqb_neq. nia.
Qed.

(** [convertBits] with padding, when no padding is needed. *)
Lemma convertBits_pad_exact data : Forall (below fromBits) data ->
  let N := valueOf (2 ^ fromBits) data in
  let total := fromBits * Z.of_nat (List.length data) in
  total mod toBits = 0 ->
  exists result,
    convertBits data fromBits toBits true = Returns result
    /\ valueOf (2 ^ toBits) result = N
    /\ Z.of_nat (List.length result) = total / toBits
    /\ Forall (below toBits) result.
Proof.
  intros Hdata N total Hexact.
  unfold convertBits. rewrite maxv_ones by lia.
  destruct (convertLoop_shape data 0 0 []) as (acc1 & pushed & Hrun1 & Hlen & Hall);
    [lia |].
  destruct (convertLoop_value data 0 0 [] 0 Hdata)
    as (acc & result & Hrun & HN & Hacc & Hval); try lia; try reflexivity.
  rewrite Hrun in Hrun1. injection Hrun1 as -> Eres.
  rewrite Hrun. rewrite !Z.add_0_l in *. fold total in Hval, Hlen |- *.
  change (Spec.extend (2 ^ fromBits) 0 data) with N in Hval, HN, Hacc.
  rewrite Hexact in *. cbn [Z.gtb Z.compare].
  exists result. subst result. repeat split; try assumption.
  rewrite Hval. apply Z.div_1_r.
Qed.

(** [convertBits] with padding never throws; its words are the
    digits of the same number with zero bits added at the end. *)
Lemma convertBits_pad data : Forall (below fromBits) data ->
  let N := valueOf (2 ^ fromBits) data in
  let total := fromBits * Z.of_nat (List.length data) in
  let padding := (- total) mod toBits in
  exists result,
    convertBits data fromBits toBits true = Returns result
    /\ valueOf (2 ^ toBits) result = N * 2 ^ padding
    /\ toBits * Z.of_nat (List.length result) = total + padding
    /\ Forall (below toBits) result.
Proof.
  intros Hdata N total padding.
  unfold convertBits. rewrite maxv_ones by lia.
  destruct (convertLoop_shape data 0 0 []) as (acc1 & pushed & Hrun1 & Hlen & Hall);
    [lia |].
  destruct (convertLoop_value data 0 0 [] 0 Hdata)
    as (acc & result & Hrun & HN & Hacc & Hval); try lia; try reflexivity.
  rewrite Hrun in Hrun1. injection Hrun1 as -> Eres.
  rewrite Hrun. rewrite !Z.add_0_l in *. fold total in Hval, Hlen |- *.
  change (Spec.extend (2 ^ fromBits) 0 data) with N in Hval, HN, Hacc.
  subst result. cbn [app] in *.
  assert (0 <= total mod toBits < toBits) as Hbits by (apply Z.mod_pos_bound; lia).
  pose proof (Z.div_mod total toBits ltac:(lia)) as Htotal.
  set (bits := total mod toBits) in *.
  assert (0 < 2 ^ bits) by (apply Z.pow_pos_nonneg; lia).
  pose proof (Z.div_mod N (2 ^ bits) ltac:(lia)) as HNsplit.
  destruct (bits >? 0) eqn:Epos.
  - apply Z.gtb_lt in Epos.
    assert (padding = toBits - bits) as Epad.
    { unfold padding. symmetry.
      apply (Z.mod_unique_pos _ _ (- (total / toBits) - 1)); lia. }
    exists (pushed ++ [JS.and (JS.shl acc1 (toBits - bits)) (Z.ones toBits)]).
    repeat split.
    + rewrite valueOf_snoc, (leftover_value acc1 N), Hval, Epad by (assumption || lia).
      replace (2 ^ toBits) with (2 ^ bits * 2 ^ (toBits - bits))
        by (rewrite <- Z.pow_add_r by lia; f_equal; lia).
      rewrite HNsplit at 3. ring.
    + rewrite length_app, Nat2Z.inj_add. cbn [List.length]. lia.
    + apply Forall_app. split; [assumption |].
      constructor; [apply pushed_isWord | constructor].
  - assert (bits = 0) as Ebits by (destruct (Z.gtb_spec bits 0); [discriminate | lia]).
    assert (padding = 0) as Epad.
    { unfold padding. symmetry.
      apply (Z.mod_unique_pos _ _ (- (total / toBits))); lia. }
    exists pushed. repeat split; try assumption.
    + rewrite Hval, Ebits, Epad, Z.div_1_r. ring.
    + lia.
Qed.

End Regroup.

Lemma valueOf_inj base : 1 < base -> forall l1 l2,
  List.length l1 = List.length l2 ->
  Forall (fun d => 0 <= d < base) l1 -> Forall (fun d => 0 <= d < base) l2 ->
  valueOf base l1 = valueOf base l2 -> l1 = l2.
Proof.
  intros Hbase l1. induction l1 as [| d1 l1 IH] using rev_ind; intros l2 Hlen H1 H2 Hval.
  - destruct l2; [reflexivity | discriminate].
  - destruct l2 as [| d2 l2 _] using rev_ind.
    + rewrite length_app in Hlen. cbn in Hlen. lia.
    + rewrite !length_app in Hlen. cbn in Hlen.
      apply Forall_app in H1 as [H1 Hd1]. apply Forall_app in H2 as [H2 Hd2].
      inversion Hd1; subst. inversion Hd2; subst.
      rewrite !valueOf_snoc in Hval.
      assert (valueOf base l1 = valueOf base l2 /\ d1 = d2) as [Hv ->].
      { assert (d1 = d2).
        { rewrite <- (Z.mod_small d1 base), <- (Z.mod_small d2 base) by lia.
          rewrite <- (Z_mod_plus_full d1 (valueOf base l1) base),
                  <- (Z_mod_plus_full d2 (valueOf base l2) base).
          f_equal. lia. }
        split; [nia | assumption]. }
      f_equal. apply IH; try assumption. lia.
Qed.

(** Regrouping bytes into 5-bit words with padding and back without. *)
Lemma regroup_roundtrip bytes : Forall isByte bytes ->
  exists words,
    convertBits bytes 8 5 true = Returns words
    /\ Forall isWord5 words
    /\ 5 * Z.of_nat (List.length words)
       = 8 * Z.of_nat (List.length bytes) + (- (8 * Z.of_nat (List.length bytes))) mod 5
    /\ convertBits words 5 8 false = Returns bytes.
Proof.
  intros Hbytes.
  destruct (@convertBits_pad 8 5 ltac:(lia) ltac:(lia) ltac:(lia) bytes Hbytes)
    as (words & Hrun & Hval & Hlen & Hwords).
  exists words. repeat split; try assumption.
  pose proof (@convertBits_nopad 5 8 ltac:(lia) ltac:(lia) ltac:(lia) words Hwords)
    as Hback.
  cbv zeta in Hback.
  set (n := Z.of_nat (List.length bytes)) in *.
  set (padding := (- (8 * n)) mod 5) in *.
  assert (0 <= padding < 5) as Hpad by (apply Z.mod_pos_bound; lia).
  assert ((5 * Z.of_nat (List.length words)) mod 8 = padding) as Ebits.
  { rewrite Hlen. symmetry. apply (Z.mod_unique_pos _ _ n); lia. }
  assert ((5 * Z.of_nat (List.length words)) / 8 = n) as Ediv.
  { rewrite Hlen. symmetry. apply (Z.div_unique_pos _ _ n padding); lia. }
  rewrite Ebits, Ediv, Hval in Hback.
  replace (padding >=? 5) with false in Hback
    by (symmetry; rewrite Z.geb_leb; apply Z.leb_gt; lia).
  rewrite Z_mod_mult in Hback. cbn [Z.eqb negb orb] in Hback.
  destruct Hback as (bytes' & Hrun' & Hval' & Hlen' & Hbytes').
  rewrite Hrun'. f_equal.
  apply valueOf_inj with (base := 2 ^ 8); try assumption; try lia.
  assert (0 < 2 ^ padding) by (apply Z.pow_pos_nonneg; lia).
  nia.
Qed.

(** The padded 8-to-5 regrouping is total. *)
Lemma convertBits_8_5_pad_shape data :
  exists words,
    convertBits data 8 5 true = Returns words
    /\ Z.of_nat (List.length words) = (8 * Z.of_nat (List.length data) + 4) / 5
    /\ Forall (fun w => 0 <= w <= 31) words.
Proof.
  unfold convertBits. change (JS.shl 1 5 - 1) with (Z.ones 5).
  destruct (@convertLoop_shape 8 5 ltac:(lia) ltac:(lia) data 0 0 [])
    as (acc & pushed & Hrun & Hlen & Hall); [lia |].
  rewrite Hrun. cbn [app]. rewrite Z.add_0_l in *.
  set (total := 8 * Z.of_nat (List.length data)) in *.
  assert (Forall (fun w => 0 <= w <= 31) pushed) as Hall'.
  { eapply Forall_impl; [| exact Hall]. unfold below. change (2 ^ 5) with 32. lia. }
  pose proof (Z.mod_pos_bound total 5 ltac:(lia)).
  destruct (total mod 5 >? 0) eqn:Epos.
  - apply Z.gtb_lt in Epos. eexists. split; [reflexivity |]. split.
    + rewrite length_app, Nat2Z.inj_add. cbn [List.length].
      rewrite Hlen. change (Z.of_nat 1) with 1. 
      apply (Z.div_unique_pos _ _ _ (total mod 5 - 1)); try lia.
      pose proof (Z.div_mod total 5 ltac:(lia)). lia.
    + apply Forall_app. split; [assumption |]. constructor; [| constructor].
      pose proof (@pushed_isWord 5 ltac:(lia) (JS.shl acc (5 - total mod 5))) as Hw.
      fold total in Hw.
      unfold below in Hw. change (2 ^ 5) with 32 in Hw. lia.
  - assert (total mod 5 = 0) as Ez
        by (destruct (Z.gtb_spec (total mod 5) 0); [discriminate | lia]).
    exists pushed. repeat split; try assumption.
    rewrite Hlen. apply (Z.div_unique_pos _ _ _ 4); try lia.
    pose proof (Z.div_mod total 5 ltac:(lia)). lia.
Qed.

End ConvertBitsFacts.

Module TextFacts.
Import Text Buffer Spec.

Lemma chars_text cs : chars (text cs) = cs.
Proof. apply list_ascii_of_string_of_list_ascii. Qed.

Lemma text_chars s : text (chars s) = s.
Proof. apply string_of_list_ascii_of_string. Qed.

Lemma chars_append s1 s2 : chars (s1 ++ s2) = (chars s1 ++ chars s2)%list.
Proof.
  unfold chars. induction s1 as [| c s1 IH]; cbn; [| rewrite IH]; reflexivity.
Qed.

Lemma len_chars s : len s = Z.of_nat (List.length (chars s)).
Proof.
  unfold len, chars. f_equal.
  induction s as [| c s IH]; cbn; [| rewrite IH]; reflexivity.
Qed.

(** A property checked on every number below a bound holds below it. *)
Lemma below_forallb (P : Z -> bool) (n : nat) :
  forallb P (map Z.of_nat (seq 0 n)) = true ->
  forall v, 0 <= v < Z.of_nat n -> P v = true.
Proof.
  intros H v Hv. rewrite forallb_forall in H. apply H.
  apply in_map_iff. exists (Z.to_nat v). split; [lia |].
  apply in_seq. lia.
Qed.

(** A property checked on every character holds of every character. *)
Lemma every_char (P : ascii -> bool) :
  forallb P (map (fun n => ascii_of_nat n) (seq 0 256)) = true ->
  forall c, P c = true.
Proof.
  intros H c. rewrite forallb_forall in H. apply H.
  apply in_map_iff. exists (nat_of_ascii c). split.
  - apply ascii_nat_embedding.
  - apply in_seq. pose proof (nat_ascii_bounded c). lia.
Qed.

Lemma sameOption_eq a b : sameOption a b = true -> a = b.
Proof.
  destruct a, b; cbn; intros H; try discriminate; try reflexivity.
  apply Z.eqb_eq in H. congruence.
Qed.

Lemma hexDigit_hexChar v : 0 <= v < 16 -> hexDigit (hexChar v) = Some v.
Proof.
  intros Hv. apply sameOption_eq.
  apply (below_forallb (fun v => sameOption (hexDigit (hexChar v)) (Some v)) 16);
    [vm_compute; reflexivity | lia].
Qed.

Lemma hexChar_lower v : 0 <= v < 16 ->
  isLowerHexDigit (hexChar v) = true.
Proof.
  intros Hv.
  apply (below_forallb (fun v => isLowerHexDigit (hexChar v)) 16);
    [vm_compute; reflexivity | lia].
Qed.

Lemma hexChar_not_x v : 0 <= v < 16 -> Ascii.eqb "x" (hexChar v) = false.
Proof.
  intros Hv. apply negb_true_iff.
  apply (below_forallb (fun v => negb (Ascii.eqb "x" (hexChar v))) 16);
    [vm_compute; reflexivity | lia].
Qed.

Lemma lowerHex_isHex c : isLowerHexDigit c = true -> isHexDigit c = true.
Proof.
  intros H.
  assert (implb (isLowerHexDigit c) (isHexDigit c) = true) as Himp
      by (revert c H; intros c _; revert c; apply every_char; vm_compute; reflexivity).
  rewrite H in Himp. exact Himp.
Qed.

Lemma lowerChar_hexDigit c : isHexDigit c = true ->
  isLowerHexDigit (lowerChar c) = true /\ hexDigit (lowerChar c) = hexDigit c.
Proof.
  intros H.
  assert (implb (isHexDigit c)
                (isLowerHexDigit (lowerChar c)
                 && sameOption (hexDigit (lowerChar c)) (hexDigit c)) = true) as Himp
      by (clear H; revert c; apply every_char; vm_compute; reflexivity).
  rewrite H in Himp. apply andb_true_iff in Himp as [H1 H2].
  split; [assumption | apply sameOption_eq; assumption].
Qed.


Lemma nibbles b : isByte b -> 0 <= b / 16 < 16 /\ 0 <= b mod 16 < 16.
Proof.
  unfold isByte. intros Hb. split.
  - split; [apply Z.div_pos; lia | apply Z.div_lt_upper_bound; lia].
  - apply Z.mod_pos_bound. lia.
Qed.

Lemma chars_toHex bytes : chars (toHex bytes) = hexChars bytes.
Proof. apply chars_text. Qed.

Lemma hexBytes_hexChars bytes : Forall isByte bytes -> hexBytes (hexChars bytes) = bytes.
Proof.
  induction 1 as [| b bytes Hb _ IH]; [reflexivity |].
  destruct (nibbles b Hb) as [Hhi Hlo].
  cbn [hexChars flat_map app hexBytes].
  rewrite !hexDigit_hexChar by assumption.
  fold (hexChars bytes). rewrite IH. f_equal.
  pose proof (Z.div_mod b 16 ltac:(lia)). lia.
Qed.

Lemma hexChars_length bytes :
  List.length (hexChars bytes) = (2 * List.length bytes)%nat.
Proof.
  induction bytes as [| b bytes IH]; [reflexivity |].
  cbn [hexChars flat_map app List.length]. fold (hexChars bytes). lia.
Qed.

Lemma hexChars_lower bytes : Forall isByte bytes ->
  forallb isLowerHexDigit (hexChars bytes) = true.
Proof.
  induction 1 as [| b bytes Hb _ IH]; [reflexivity |].
  destruct (nibbles b Hb) as [Hhi Hlo].
  cbn [hexChars flat_map app forallb]. fold (hexChars bytes).
  rewrite !hexChar_lower, IH by assumption. reflexivity.
Qed.


Lemma forallb_lower_hex cs : forallb isLowerHexDigit cs = true ->
  forallb isHexDigit cs = true.
Proof.
  induction cs as [| c cs IH]; cbn; [reflexivity |].
  intros H. apply andb_true_iff in H as [Hc Hcs].
  rewrite lowerHex_isHex, IH by assumption. reflexivity.
Qed.

Lemma map_lower_hex cs : forallb isHexDigit cs = true ->
  forallb isLowerHexDigit (map lowerChar cs) = true
  /\ hexBytes (map lowerChar cs) = hexBytes cs.
Proof.
  revert cs.
  assert (forall n cs, (List.length cs <= n)%nat -> forallb isHexDigit cs = true ->
            forallb isLowerHexDigit (map lowerChar cs) = true
            /\ hexBytes (map lowerChar cs) = hexBytes cs) as Hn.
  { induction n as [| n IH]; intros cs Hlen H.
    - destruct cs; [split; reflexivity | cbn in Hlen; lia].
    - destruct cs as [| a [| b cs]].
      + split; reflexivity.
      + cbn in H |- *. apply andb_true_iff in H as [Ha _].
        destruct (lowerChar_hexDigit a Ha) as [-> _]. split; reflexivity.
      + cbn [forallb] in H.
        apply andb_true_iff in H as [Ha H]. apply andb_true_iff in H as [Hb H].
        destruct (lowerChar_hexDigit a Ha) as [La Ea].
        destruct (lowerChar_hexDigit b Hb) as [Lb Eb].
        destruct (IH cs) as [Lcs Ecs]; [cbn in Hlen; lia | assumption |].
        cbn [map forallb hexBytes]. rewrite La, Lb, Lcs, Ea, Eb, Ecs.
        split; reflexivity. }
  intros cs. apply (Hn (List.length cs)). lia.
Qed.

Lemma hexBytes_length : forall n cs, List.length cs = (2 * n)%nat ->
  forallb isHexDigit cs = true -> List.length (hexBytes cs) = n.
Proof.
  induction n as [| n IH]; intros cs Hlen H.
  - destruct cs; [reflexivity | discriminate].
  - destruct cs as [| a [| b cs]]; try (cbn in Hlen; lia).
    cbn [forallb] in H.
    apply andb_true_iff in H as [Ha H]. apply andb_true_iff in H as [Hb H].
    cbn [hexBytes]. unfold isHexDigit in Ha, Hb.
    destruct (hexDigit a); [| discriminate]. destruct (hexDigit b); [| discriminate].
    cbn [List.length]. f_equal. apply IH; [cbn in Hlen; lia | assumption].
Qed.

Lemma hexDigit_range c v : hexDigit c = Some v -> 0 <= v < 16.
Proof.
  unfold hexDigit, inRange. intros H.
  repeat match type of H with
         | (if ?b then _ else _) = _ => destruct b eqn:?
         end; inversion H; subst; lia.
Qed.

Lemma hexBytes_isByte cs : Forall isByte (hexBytes cs).
Proof.
  assert (forall n cs, (List.length cs <= n)%nat -> Forall isByte (hexBytes cs)) as Hn.
  { induction n as [| n IH]; intros l Hlen.
    - destruct l; [constructor | cbn in Hlen; lia].
    - destruct l as [| a [| b l]]; try constructor.
      cbn [hexBytes].
      destruct (hexDigit a) as [x |] eqn:Ea; [| constructor].
      destruct (hexDigit b) as [y |] eqn:Eb; [| constructor].
      apply hexDigit_range in Ea, Eb.
      constructor; [unfold isByte; lia | apply IH; cbn in Hlen; lia]. }
  apply (Hn (List.length cs)). lia.
Qed.

(** What [isEthAddress] accepts. *)
Lemma re_ethAddress_inv s : re_ethAddress s = true ->
  exists digits,
    chars s = "0"%char :: "x"%char :: digits
    /\ List.length digits = 40%nat
    /\ forallb isHexDigit digits = true.
Proof.
  unfold re_ethAddress. intros H.
  destruct (chars s) as [| a cs]; [discriminate |].
  destruct a as [[] [] [] [] [] [] [] []]; try discriminate H.
  destruct cs as [| b digits]; [discriminate |].
  destruct b as [[] [] [] [] [] [] [] []]; try discriminate H.
  apply andb_true_iff in H as [Hlen Hhex]. apply Nat.eqb_eq in Hlen.
  exists digits. auto.
Qed.

Lemma replace_0x s digits : chars s = "0"%char :: "x"%char :: digits ->
  replace "0x" EmptyString s = text digits.
Proof. intros H. unfold replace. rewrite H. reflexivity. Qed.

(** The bytes [ethAddressToBech32] regroups. *)
Lemma cleanAddress_bytes s : re_ethAddress s = true ->
  let cleanAddress := toLowerCase (replace "0x" EmptyString s) in
  re_lowerHex40 cleanAddress = true
  /\ List.length (from_hex cleanAddress) = 20%nat
  /\ Forall isByte (from_hex cleanAddress).
Proof.
  intros H. destruct (re_ethAddress_inv s H) as (digits & Hs & Hlen & Hhex).
  cbv zeta. rewrite (replace_0x s digits Hs).
  unfold toLowerCase, re_lowerHex40, from_hex. rewrite !chars_text.
  destruct (map_lower_hex digits Hhex) as [Hlow Hsame].
  rewrite length_map, Hlen, Hlow. repeat split.
  - apply hexBytes_length; [rewrite length_map; assumption |].
    apply forallb_lower_hex. assumption.
  - apply hexBytes_isByte.
Qed.

(** *** Base64 *)

Lemma b64value_b64char v : 0 <= v < 64 -> b64value (b64char v) = Some v.
Proof.
  intros Hv. apply sameOption_eq.
  apply (below_forallb (fun v => sameOption (b64value (b64char v)) (Some v)) 64);
    [vm_compute; reflexivity | lia].
Qed.

Lemma b64char_not_pad v : 0 <= v < 64 -> Ascii.eqb (b64char v) "=" = false.
Proof.
  intros Hv. apply negb_true_iff.
  apply (below_forallb (fun v => negb (Ascii.eqb (b64char v) "=")) 64);
    [vm_compute; reflexivity | lia].
Qed.

Lemma b64sextets_char v rest : 0 <= v < 64 ->
  b64sextets (b64char v :: rest) = v :: b64sextets rest.
Proof.
  intros Hv. cbn [b64sextets].
  rewrite b64char_not_pad, b64value_b64char by assumption. reflexivity.
Qed.

Lemma list_ind3 (A : Type) (P : list A -> Prop) :
  P [] -> (forall a, P [a]) -> (forall a b, P [a; b]) ->
  (forall a b c l, P l -> P (a :: b :: c :: l)) ->
  forall l, P l.
Proof.
  intros H0 H1 H2 H3.
  assert (forall l, P l /\ (forall a, P (a :: l)) /\ (forall a b, P (a :: b :: l))) as H.
  { induction l as [| x l (IH0 & IH1 & IH2)]; repeat split; auto. }
  intros l. apply H.
Qed.

Lemma b64_roundtrip bytes : Forall isByte bytes ->
  b64pack (b64sextets (b64encode bytes)) = bytes.
Proof.
  induction bytes as [| a | a b | a b c rest IH] using list_ind3; intros H.
  - reflexivity.
  - inversion H as [| ? ? Ha _]; subst. unfold isByte in Ha.
    cbn [b64encode].
    rewrite !b64sextets_char
      by (split; [| apply Z.div_lt_upper_bound || idtac]; Z.div_mod_to_equations; lia).
    cbn. f_equal. Z.div_mod_to_equations; lia.
  - inversion H as [| ? ? Ha H']; subst. inversion H' as [| ? ? Hb _]; subst.
    unfold isByte in Ha, Hb.
    cbn [b64encode].
    rewrite !b64sextets_char by (Z.div_mod_to_equations; lia).
    cbn. f_equal; [| f_equal]; Z.div_mod_to_equations; lia.
  - inversion H as [| ? ? Ha H']; subst. inversion H' as [| ? ? Hb H'']; subst.
    inversion H'' as [| ? ? Hc Hrest]; subst.
    unfold isByte in Ha, Hb, Hc.
    cbn [b64encode].
    rewrite !b64sextets_char by (Z.div_mod_to_equations; lia).
    cbn [b64pack]. rewrite (IH Hrest).
    f_equal; [| f_equal; [| f_equal]]; Z.div_mod_to_equations; lia.
Qed.

Lemma from_base64_toBase64 bytes : Forall isByte bytes ->
  from_base64 (toBase64 bytes) = bytes.
Proof.
  intros H. unfold from_base64, toBase64. rewrite chars_text.
  apply b64_roundtrip. assumption.
Qed.

Lemma from_hex_toHex bytes : Forall isByte bytes -> from_hex (toHex bytes) = bytes.
Proof.
  intros H. unfold from_hex. rewrite chars_toHex. apply hexBytes_hexChars. assumption.
Qed.

Lemma startsWith_0x_toHex bytes : Forall isByte bytes ->
  startsWith "0x" (toHex bytes) = false.
Proof.
  intros H. unfold startsWith. rewrite chars_toHex.
  destruct H as [| b bytes Hb _]; [reflexivity |].
  destruct (nibbles b Hb) as [_ Hlo].
  cbn [hexChars flat_map app]. change (chars "0x") with ["0"%char; "x"%char].
  cbn [startsWithChars]. rewrite hexChar_not_x by assumption.
  rewrite andb_false_l, andb_false_r. reflexivity.
Qed.

Lemma re_hex_toHex b bytes : Forall isByte (b :: bytes) ->
  re_hex (toHex (b :: bytes)) = true.
Proof.
  intros H. unfold re_hex. rewrite chars_toHex, hexChars_length.
  rewrite forallb_lower_hex by (apply hexChars_lower; assumption).
  reflexivity.
Qed.

Lemma sliceFrom_0x s : sliceFrom 2 ("0x" ++ s) = s.
Proof. unfold sliceFrom. rewrite chars_append. cbn. apply text_chars. Qed.

Lemma startsWith_0x s : startsWith "0x" ("0x" ++ s) = true.
Proof. reflexivity. Qed.

End TextFacts.

Module Bech32Facts.
Import Text Bech32 Checksum JSFacts TextFacts ConvertBitsFacts Spec.

(** *** Exclusive or on numbers below a power of two *)

Lemma lxor_bound n a b : 0 <= n -> 0 <= a < 2 ^ n -> 0 <= b < 2 ^ n ->
  0 <= Z.lxor a b < 2 ^ n.
Proof.
  intros Hn Ha Hb.
  assert (0 <= Z.lxor a b) as Hnn by (apply Z.lxor_nonneg; lia).
  split; [assumption |].
  destruct (Z.eq_dec (Z.lxor a b) 0) as [-> | Hnz];
    [apply Z.pow_pos_nonneg; lia |].
  assert (0 < n) as Hpos.
  { destruct (Z.eq_dec n 0) as [-> | ?]; [| lia].
    change (2 ^ 0) with 1 in *.
    assert (a = 0) as -> by lia. assert (b = 0) as -> by lia.
    contradiction Hnz. reflexivity. }
  apply Z.log2_lt_pow2; [lia |].
  eapply Z.le_lt_trans; [apply Z.log2_lxor; lia |].
  apply Z.max_lub_lt.
  - destruct (Z.eq_dec a 0) as [-> | ?]; [cbn; lia | apply Z.log2_lt_pow2; lia].
  - destruct (Z.eq_dec b 0) as [-> | ?]; [cbn; lia | apply Z.log2_lt_pow2; lia].
Qed.

Lemma xor_small x y : small x -> small y ->
  JS.xor x y = Z.lxor x y /\ small (Z.lxor x y).
Proof.
  unfold small, JS.xor. intros Hx Hy.
  rewrite !toInt32_small by lia.
  split; [reflexivity | apply lxor_bound; lia].
Qed.

Lemma jsxor_small x y : small x -> small y -> small (JS.xor x y).
Proof.
  intros Hx Hy. destruct (xor_small x y Hx Hy) as [-> H]. exact H.
Qed.

Lemma lxor_swap x y g : Z.lxor (Z.lxor x y) g = Z.lxor (Z.lxor x g) y.
Proof.
  rewrite !Z.lxor_assoc. f_equal. apply Z.lxor_comm.
Qed.

Lemma land_lxor_distr a d m :
  Z.land (Z.lxor a d) m = Z.lxor (Z.land a m) (Z.land d m).
Proof.
  apply Z.bits_inj'. intros n Hn.
  rewrite !Z.land_spec, !Z.lxor_spec, !Z.land_spec.
  destruct (Z.testbit a n), (Z.testbit d n), (Z.testbit m n); reflexivity.
Qed.

(** *** [polymodStep] *)

Lemma picks_small b : 0 <= b < 32 ->
  small (pick b 0 0x3b6a57b2) /\ small (pick b 1 0x26508e6d)
  /\ small (pick b 2 0x1ea119fa) /\ small (pick b 3 0x3d4233dd)
  /\ small (pick b 4 0x2a1462b3).
Proof.
  intros Hb.
  assert (pickSmall b = true) as H
      by (apply (below_forallb pickSmall 32); [vm_compute; reflexivity | lia]).
  unfold pickSmall in H. cbn [forallb] in H.
  repeat (apply andb_true_iff in H as [?%andb_true_iff H]).
  unfold small.
  repeat match goal with
         | [ H : _ /\ _ |- _ ] => destruct H
         | [ H : (_ <=? _) = true |- _ ] => apply Z.leb_le in H
         | [ H : (_ <? _) = true |- _ ] => apply Z.ltb_lt in H
         end.
  repeat split; assumption.
Qed.

Lemma top_bits pre : small pre -> JS.sar pre 25 = pre / 2 ^ 25 /\ 0 <= pre / 2 ^ 25 < 32.
Proof.
  unfold small. intros H. rewrite sar_div, toInt32_small by lia.
  split; [reflexivity |].
  split; [apply Z.div_pos; lia | apply Z.div_lt_upper_bound; lia].
Qed.

Lemma low_bits pre : small pre ->
  JS.shl (JS.and pre 0x1ffffff) 5 = pre mod 2 ^ 25 * 32
  /\ small (pre mod 2 ^ 25 * 32).
Proof.
  unfold small. intros H.
  change 0x1ffffff with (Z.ones 25). rewrite and_ones, toInt32_small by lia.
  pose proof (Z.mod_pos_bound pre (2 ^ 25) ltac:(lia)).
  rewrite shl_mul by lia.
  rewrite (toInt32_small (pre mod 2 ^ 25)) by lia. change (2 ^ 5) with 32.
  rewrite toInt32_small by lia. lia.
Qed.

Lemma mix_small x b : small x -> 0 <= b < 32 -> small (mix x b).
Proof.
  intros Hx Hb. destruct (picks_small b Hb) as (H0 & H1 & H2 & H3 & H4).
  unfold mix, small in *. repeat apply lxor_bound; lia.
Qed.

Lemma polymodStep_mix pre : small pre ->
  polymodStep pre = mix (pre mod 2 ^ 25 * 32) (pre / 2 ^ 25).
Proof.
  intros Hpre. unfold polymodStep. cbv zeta.
  destruct (top_bits pre Hpre) as [-> Hb].
  destruct (low_bits pre Hpre) as [-> Hx].
  destruct (picks_small _ Hb) as (H0 & H1 & H2 & H3 & H4).
  fold (pick (pre / 2 ^ 25) 0 0x3b6a57b2) (pick (pre / 2 ^ 25) 1 0x26508e6d)
       (pick (pre / 2 ^ 25) 2 0x1ea119fa) (pick (pre / 2 ^ 25) 3 0x3d4233dd)
       (pick (pre / 2 ^ 25) 4 0x2a1462b3).
  destruct (xor_small _ _ Hx H0) as [-> S0].
  destruct (xor_small _ _ S0 H1) as [-> S1].
  destruct (xor_small _ _ S1 H2) as [-> S2].
  destruct (xor_small _ _ S2 H3) as [-> S3].
  destruct (xor_small _ _ S3 H4) as [-> S4].
  reflexivity.
Qed.

Lemma polymodStep_small pre : small pre -> small (polymodStep pre).
Proof.
  intros Hpre. rewrite polymodStep_mix by assumption.
  apply mix_small; [apply low_bits | apply top_bits]; assumption.
Qed.

(** Exclusive or with a number below [2 ^ 25] goes through
    [polymodStep] as a shift by five bits. *)
Lemma polymodStep_lxor a d : small a -> 0 <= d < 2 ^ 25 ->
  polymodStep (Z.lxor a d) = Z.lxor (polymodStep a) (d * 32).
Proof.
  intros Ha Hd.
  assert (small (Z.lxor a d)) as Hs
      by (unfold small in *; apply lxor_bound; lia).
  rewrite !polymodStep_mix by assumption.
  assert (Z.lxor a d / 2 ^ 25 = a / 2 ^ 25) as ->.
  { rewrite <- !Z.shiftr_div_pow2 by lia. rewrite Z.shiftr_lxor.
    rewrite (Z.shiftr_div_pow2 d), (Z.div_small d) by lia.
    apply Z.lxor_0_r. }
  assert (Z.lxor a d mod 2 ^ 25 * 32 = Z.lxor (a mod 2 ^ 25 * 32) (d * 32)) as ->.
  { rewrite <- !Z.land_ones by lia. rewrite land_lxor_distr.
    change 32 with (2 ^ 5). rewrite <- !Z.shiftl_mul_pow2 by lia.
    rewrite Z.shiftl_lxor. f_equal. f_equal.
    rewrite Z.land_ones, Z.mod_small by lia. reflexivity. }
  unfold mix. rewrite !(lxor_swap _ (d * 32)). reflexivity.
Qed.

(** *** The checksum *)

Lemma word5_small w : isWord5 w -> small w.
Proof. unfold isWord5, small. lia. Qed.

Lemma absorb_small words : forall chk,
  small chk -> Forall isWord5 words -> small (absorb chk words).
Proof.
  induction words as [| w words IH]; intros chk Hchk H; [assumption |].
  inversion H; subst. cbn [absorb fold_left]. apply IH; [| assumption].
  apply xor_small; [apply polymodStep_small; assumption | apply word5_small; assumption].
Qed.

Lemma iter_small n s : small s -> small (Nat.iter n polymodStep s).
Proof.
  intros Hs. induction n as [| n IH]; [assumption |].
  cbn [Nat.iter nat_rect]. apply polymodStep_small. assumption.
Qed.

(** Up to six words only meet the shifted-out part of the state: they
    end up xor-ed, as one number, into the state stepped as many times. *)
Lemma absorb_shifted words : forall s,
  small s -> Forall isWord5 words -> (List.length words <= 6)%nat ->
  absorb s words = Z.lxor (Nat.iter (List.length words) polymodStep s)
                          (valueOf 32 words).
Proof.
  induction words as [| w words IH] using rev_ind; intros s Hs H Hlen.
  - cbn. symmetry. apply Z.lxor_0_r.
  - apply Forall_app in H as [Hwords Hw]. inversion Hw as [| ? ? Hw5 _]; subst.
    rewrite length_app in Hlen |- *. cbn [List.length] in Hlen |- *.
    rewrite Nat.add_1_r. cbn [Nat.iter nat_rect].
    unfold absorb. rewrite fold_left_app. cbn [fold_left]. fold (absorb s words).
    rewrite IH by (assumption || lia).
    pose proof (valueOf_bound 32 words ltac:(lia) Hwords) as Hv.
    assert (32 ^ Z.of_nat (List.length words) <= 32 ^ 5)
      by (apply Z.pow_le_mono_r; lia).
    change (32 ^ 5) with (2 ^ 25) in *.
    rewrite polymodStep_lxor by (try apply iter_small; assumption || lia).
    rewrite valueOf_snoc, Z.lxor_assoc. f_equal.
    apply (lxor_low _ _ 5); try lia.
    + change (2 ^ 5) with 32. apply Z_mod_mult.
    + exact Hw5.
Qed.

Lemma checksumWords_value c : small c ->
  valueOf 32 (checksumWords c) = c /\ Forall isWord5 (checksumWords c).
Proof.
  unfold small. intros Hc. unfold checksumWords. cbn [map].
  change 0x1f with (Z.ones 5).
  change ((5 - 0) * 5) with 25. change ((5 - 1) * 5) with (5 * 4).
  change ((5 - 2) * 5) with (5 * 3). change ((5 - 3) * 5) with (5 * 2).
  change ((5 - 4) * 5) with (5 * 1). change ((5 - 5) * 5) with 0.
  rewrite !push_value by lia.
  split.
  - unfold valueOf. cbn [fold_left].
    rewrite Z.pow_0_r, Z.div_1_r, Z.mul_0_l, Z.add_0_l.
    rewrite !(Z.pow_mul_r 2 5) by lia. change (2 ^ 5) with 32.
    change (32 ^ 1) with 32. change (32 ^ 2) with (32 * 32).
    change (32 ^ 3) with (32 * (32 * 32)).
    change (32 ^ 4) with (32 * (32 * (32 * 32))).
    change (2 ^ 25) with (32 * (32 * (32 * (32 * 32)))).
    rewrite <- !Z.div_div by lia.
    set (q1 := c / 32). set (q2 := q1 / 32). set (q3 := q2 / 32).
    set (q4 := q3 / 32). set (q5 := q4 / 32).
    assert (q5 mod 32 = q5) as ->.
    { apply Z.mod_small. unfold q5, q4, q3, q2, q1.
      rewrite !Z.div_div by lia.
      split; [apply Z.div_pos; lia | apply Z.div_lt_upper_bound; lia]. }
    assert (forall x, x / 32 * 32 + x mod 32 = x) as Hjoin
        by (intros x; pose proof (Z.div_mod x 32 ltac:(lia)); lia).
    unfold q5. rewrite (Hjoin q4).
    unfold q4. rewrite (Hjoin q3).
    unfold q3. rewrite (Hjoin q2).
    unfold q2. rewrite (Hjoin q1).
    unfold q1. apply Hjoin.
  - unfold isWord5. change 32 with (2 ^ 5).
    repeat constructor; apply Z.mod_pos_bound; lia.
Qed.

(** The six words [encode] appends make the state 1, which is what
    [decode] asks for. *)
Lemma checksum_verifies s : small s ->
  absorb s (checksumWords (JS.xor (Nat.iter 6 polymodStep s) 1)) = 1.
Proof.
  intros Hs.
  assert (small 1) as H1 by (unfold small; lia).
  destruct (xor_small _ 1 (iter_small 6 s Hs) H1) as [-> Hc].
  destruct (checksumWords_value _ Hc) as [Hval Hwords].
  rewrite absorb_shifted by (assumption || (cbn; lia)).
  change (List.length (checksumWords _)) with 6%nat.
  rewrite Hval, <- Z.lxor_assoc, Z.lxor_nilpotent. reflexivity.
Qed.

(** *** The alphabet *)

Lemma charAt_alpha x : isWord5 x -> charAt x = [alpha x].
Proof.
  unfold isWord5, charAt. intros Hx.
  replace (0 <=? x) with true by (symmetry; apply Z.leb_le; lia).
  replace (x <? 32) with true by (symmetry; apply Z.ltb_lt; lia).
  reflexivity.
Qed.

Lemma ALPHABET_MAP_alpha x : isWord5 x -> ALPHABET_MAP (alpha x) = Some x.
Proof.
  intros Hx. apply sameOption_eq.
  apply (below_forallb (fun x => sameOption (ALPHABET_MAP (alpha x)) (Some x)) 32);
    [vm_compute; reflexivity | exact Hx].
Qed.

Lemma alpha_not_separator x : isWord5 x -> Ascii.eqb (alpha x) "1" = false.
Proof.
  intros Hx. apply negb_true_iff.
  apply (below_forallb (fun x => negb (Ascii.eqb (alpha x) "1")) 32);
    [vm_compute; reflexivity | exact Hx].
Qed.

Lemma alpha_lower x : isWord5 x -> lowerChar (alpha x) = alpha x.
Proof.
  intros Hx. apply Ascii.eqb_eq.
  apply (below_forallb (fun x => Ascii.eqb (lowerChar (alpha x)) (alpha x)) 32);
    [vm_compute; reflexivity | exact Hx].
Qed.

Lemma flat_map_charAt words : Forall isWord5 words ->
  flat_map charAt words = map alpha words.
Proof.
  induction 1 as [| w words Hw _ IH]; [reflexivity |].
  cbn [flat_map map]. rewrite charAt_alpha, IH by assumption. reflexivity.
Qed.

Lemma map_alpha_lower words : Forall isWord5 words ->
  map lowerChar (map alpha words) = map alpha words.
Proof.
  induction 1 as [| w words Hw _ IH]; [reflexivity |].
  cbn [map]. rewrite alpha_lower, IH by assumption. reflexivity.
Qed.

Lemma lastIndexOf_alpha words : Forall isWord5 words ->
  lastIndexOf "1"%char (map alpha words) = None.
Proof.
  induction 1 as [| w words Hw _ IH]; [reflexivity |].
  cbn [map lastIndexOf]. rewrite IH, alpha_not_separator by assumption. reflexivity.
Qed.

Lemma lastIndexOf_split c : forall before after,
  lastIndexOf c after = None ->
  lastIndexOf c (before ++ c :: after) = Some (List.length before).
Proof.
  induction before as [| x before IH]; intros after H.
  - cbn [app lastIndexOf List.length]. rewrite H, Ascii.eqb_refl. reflexivity.
  - cbn [app lastIndexOf List.length]. rewrite IH by assumption. reflexivity.
Qed.

(** *** Lower case *)

Lemma lowerChar_idem c : lowerChar (lowerChar c) = lowerChar c.
Proof.
  apply Ascii.eqb_eq. revert c.
  apply (every_char (fun c => Ascii.eqb (lowerChar (lowerChar c)) (lowerChar c))).
  vm_compute. reflexivity.
Qed.

Lemma lowerChar_printable c : printable c -> printable (lowerChar c).
Proof.
  unfold printable. intros H.
  assert (implb ((33 <=? code c) && (code c <=? 126))
                ((33 <=? code (lowerChar c)) && (code (lowerChar c) <=? 126))
          = true) as Himp
      by (clear H; revert c; apply every_char; vm_compute; reflexivity).
  replace (33 <=? code c) with true in Himp by (symmetry; apply Z.leb_le; lia).
  replace (code c <=? 126) with true in Himp by (symmetry; apply Z.leb_le; lia).
  cbn [andb implb] in Himp. apply andb_true_iff in Himp as [H1 H2].
  apply Z.leb_le in H1, H2. lia.
Qed.

Lemma chars_toLowerCase s : chars (toLowerCase s) = map lowerChar (chars s).
Proof. apply chars_text. Qed.

Lemma toLowerCase_text cs : toLowerCase (text cs) = text (map lowerChar cs).
Proof. unfold toLowerCase. rewrite chars_text. reflexivity. Qed.

(** *** [prefixChk] *)

Lemma code_range c : 0 <= code c < 256.
Proof.
  unfold code. pose proof (N_ascii_bounded c). lia.
Qed.

Lemma prefixHigh_small cs : Forall printable cs -> forall chk, small chk ->
  exists chk', prefixHigh chk cs = Some chk' /\ small chk'.
Proof.
  induction 1 as [| c cs Hc _ IH]; intros chk Hchk.
  - exists chk. auto.
  - cbn [prefixHigh]. unfold printable in Hc.
    replace (code c <? 33) with false by (symmetry; apply Z.ltb_ge; lia).
    replace (code c >? 126) with false
      by (symmetry; rewrite Z.gtb_ltb; apply Z.ltb_ge; lia).
    cbn [orb]. apply IH.
    apply jsxor_small; [apply polymodStep_small; assumption |].
    unfold small. rewrite sar_div, toInt32_small by lia.
    split; [apply Z.div_pos; lia | apply Z.div_lt_upper_bound; lia].
Qed.

Lemma prefixLow_small cs : forall chk, small chk -> small (prefixLow chk cs).
Proof.
  induction cs as [| c cs IH]; intros chk Hchk; [assumption |].
  cbn [prefixLow]. apply IH.
  apply jsxor_small; [apply polymodStep_small; assumption |].
  pose proof (code_range c).
  unfold small. change 0x1f with (Z.ones 5).
  rewrite and_ones, toInt32_small by lia.
  pose proof (Z.mod_pos_bound (code c) (2 ^ 5) ltac:(lia)). lia.
Qed.

Lemma prefixChk_small prefix : Forall printable (chars prefix) ->
  exists chk, prefixChk prefix = Returns chk /\ small chk.
Proof.
  intros H. unfold prefixChk.
  destruct (prefixHigh_small (chars prefix) H 1) as (chk & -> & Hchk);
    [unfold small; lia |].
  eexists. split; [reflexivity |].
  apply prefixLow_small, polymodStep_small. assumption.
Qed.

(** *** The loops over the words *)

Lemma absorb_step chk w : small chk -> isWord5 w ->
  JS.xor (polymodStep chk) w = Z.lxor (polymodStep chk) w.
Proof.
  intros Hchk Hw.
  apply xor_small; [apply polymodStep_small; assumption | apply word5_small; assumption].
Qed.

Lemma absorb_app chk ws cs : absorb chk (ws ++ cs) = absorb (absorb chk ws) cs.
Proof. apply fold_left_app. Qed.

Lemma absorb_cons w words chk :
  absorb chk (w :: words) = absorb (Z.lxor (polymodStep chk) w) words.
Proof. reflexivity. Qed.

Lemma absorb_step_small chk w : small chk -> isWord5 w ->
  small (Z.lxor (polymodStep chk) w).
Proof.
  intros Hchk Hw.
  apply xor_small; [apply polymodStep_small | apply word5_small]; assumption.
Qed.

Lemma sar5_word w : isWord5 w -> JS.sar w 5 = 0.
Proof.
  unfold isWord5. intros Hw. rewrite sar_div, toInt32_small by lia.
  apply Z.div_small. change (2 ^ 5) with 32. lia.
Qed.

Lemma encodeWords_cons w words chk result : isWord5 w -> small chk ->
  encodeWords chk result (w :: words)
  = encodeWords (Z.lxor (polymodStep chk) w) (result ++ [alpha w]) words.
Proof.
  intros Hw Hchk. cbn [encodeWords].
  rewrite sar5_word by assumption. cbn [Z.eqb negb].
  rewrite absorb_step, charAt_alpha by assumption. reflexivity.
Qed.

Lemma encodeWords_run words : Forall isWord5 words -> forall chk result,
  small chk ->
  encodeWords chk result words
  = Returns (absorb chk words, (result ++ map alpha words)%list).
Proof.
  induction 1 as [| w words Hw Hwords IH]; intros chk result Hchk.
  - cbn. rewrite app_nil_r. reflexivity.
  - rewrite encodeWords_cons, absorb_cons by assumption.
    rewrite IH by (apply absorb_step_small; assumption).
    cbn [map]. rewrite <- app_assoc. reflexivity.
Qed.

(** A checksum character is read and not pushed, a data character is
    read and pushed. *)
Lemma decodeWords_cons w rest chk words : isWord5 w -> small chk ->
  decodeWords chk words (alpha w :: rest)
  = if (List.length rest <? 6)%nat
    then decodeWords (Z.lxor (polymodStep chk) w) words rest
    else decodeWords (Z.lxor (polymodStep chk) w) (words ++ [w]) rest.
Proof.
  intros Hw Hchk. cbn [decodeWords].
  rewrite ALPHABET_MAP_alpha by assumption. cbv zeta.
  rewrite absorb_step by assumption. reflexivity.
Qed.

Lemma decodeWords_tail cs : Forall isWord5 cs -> (List.length cs <= 6)%nat ->
  forall chk words, small chk ->
  decodeWords chk words (map alpha cs) = Returns (absorb chk cs, words).
Proof.
  induction 1 as [| c cs Hc Hcs IH]; intros Hlen chk words Hchk; [reflexivity |].
  cbn [map List.length] in Hlen |- *.
  rewrite decodeWords_cons, absorb_cons, length_map by assumption.
  replace (List.length cs <? 6)%nat with true
    by (symmetry; apply Nat.ltb_lt; lia).
  apply IH; [lia | apply absorb_step_small; assumption].
Qed.

Lemma decodeWords_run words cs : Forall isWord5 words -> Forall isWord5 cs ->
  List.length cs = 6%nat ->
  forall chk acc, small chk ->
  decodeWords chk acc (map alpha (words ++ cs))
  = Returns (absorb chk (words ++ cs), (acc ++ words)%list).
Proof.
  intros Hwords Hcs Hlen.
  induction Hwords as [| w words Hw _ IH]; intros chk acc Hchk.
  - cbn [app]. rewrite app_nil_r. apply decodeWords_tail; (assumption || lia).
  - cbn [app map].
    rewrite decodeWords_cons, absorb_cons by assumption.
    rewrite length_map, length_app, Hlen.
    replace (List.length words + 6 <? 6)%nat with false
      by (symmetry; apply Nat.ltb_ge; lia).
    rewrite IH by (apply absorb_step_small; assumption).
    rewrite <- app_assoc. reflexivity.
Qed.

Lemma checksumChars_alpha c : small c ->
  checksumChars c = map alpha (checksumWords c).
Proof.
  intros Hc. destruct (checksumWords_value c Hc) as [_ Hwords].
  rewrite <- flat_map_charAt by assumption. reflexivity.
Qed.

(** *** [decode] after [encode] *)

(** What [encode] returns: the lower-case prefix, the separator, the
    letters of the words and of the six checksum words. *)
Lemma encode_returns prefix words :
  len prefix + 7 + Z.of_nat (List.length words) <= 256 ->
  Forall printable (chars prefix) -> Forall isWord5 words ->
  exists chk cs,
    prefixChk (toLowerCase prefix) = Returns chk /\ small chk
    /\ Forall isWord5 cs /\ List.length cs = 6%nat
    /\ absorb chk (words ++ cs) = 1
    /\ encode prefix words 256
       = Returns (text (map lowerChar (chars prefix)
                        ++ "1"%char :: map alpha (words ++ cs))).
Proof.
  intros Hlimit Hprefix Hwords.
  assert (Forall printable (chars (toLowerCase prefix))) as Hlower.
  { rewrite chars_toLowerCase. apply Forall_map.
    eapply Forall_impl; [| exact Hprefix]. apply lowerChar_printable. }
  destruct (prefixChk_small _ Hlower) as (chk & Hchk & Hsmall).
  set (s := absorb chk words).
  assert (small s) as Hs by (apply absorb_small; assumption).
  set (c := JS.xor (Nat.iter 6 polymodStep s) 1).
  assert (small c) as Hc
      by (apply jsxor_small; [apply iter_small; assumption | unfold small; lia]).
  destruct (checksumWords_value c Hc) as [_ Hcs].
  exists chk, (checksumWords c).
  split; [exact Hchk |]. split; [exact Hsmall |]. split; [exact Hcs |].
  split; [reflexivity |]. split.
  - rewrite absorb_app. fold s. apply checksum_verifies. assumption.
  - unfold encode. cbn [Z.eqb].
    replace (len prefix + 7 + Z.of_nat (List.length words) >? 256) with false
      by (symmetry; rewrite Z.gtb_ltb; apply Z.ltb_ge; lia).
    rewrite Hchk. cbn [bind].
    rewrite encodeWords_run by assumption. cbn [bind fst snd].
    fold s. fold c.
    rewrite checksumChars_alpha by assumption.
    rewrite chars_toLowerCase, map_app, <- !app_assoc. reflexivity.
Qed.

Lemma map_lower_lower cs : map lowerChar (map lowerChar cs) = map lowerChar cs.
Proof.
  rewrite map_map. apply map_ext. apply lowerChar_idem.
Qed.

Lemma firstn_prefix (A : Type) (a b : list A) :
  firstn (List.length a) (a ++ b) = a.
Proof.
  rewrite firstn_app, Nat.sub_diag, firstn_all. cbn. apply app_nil_r.
Qed.

Lemma skipn_prefix (A : Type) (a : list A) (x : A) (b : list A) :
  skipn (List.length a + 1) (a ++ x :: b) = b.
Proof.
  rewrite skipn_app, skipn_all2 by lia.
  replace (List.length a + 1 - List.length a)%nat with 1%nat by lia.
  reflexivity.
Qed.

Lemma decode_encode prefix words :
  1 <= len prefix ->
  len prefix + 7 + Z.of_nat (List.length words) <= 256 ->
  Forall printable (chars prefix) -> Forall isWord5 words ->
  exists address,
    encode prefix words 256 = Returns address
    /\ decode address 256 = Returns (toLowerCase prefix, words).
Proof.
  intros Hnonempty Hlimit Hprefix Hwords.
  destruct (encode_returns prefix words Hlimit Hprefix Hwords)
    as (chk & cs & Hchk & Hsmall & Hcs & Hlen & Hsum & Henc).
  eexists. split; [exact Henc |].
  set (P := map lowerChar (chars prefix)) in *.
  set (D := map alpha (words ++ cs)).
  assert (List.length D = (List.length words + 6)%nat) as HD
      by (unfold D; rewrite length_map, length_app, Hlen; reflexivity).
  assert (Z.of_nat (List.length P) = len prefix) as HP
      by (unfold P; rewrite length_map, len_chars; reflexivity).
  assert (map lowerChar (P ++ "1"%char :: D) = (P ++ "1"%char :: D)%list) as Hlow.
  { rewrite map_app. cbn [map]. unfold P at 1. rewrite map_lower_lower. fold P.
    unfold D at 1. rewrite map_alpha_lower; [reflexivity |].
    apply Forall_app. auto. }
  unfold decode. cbn [Z.eqb].
  rewrite len_chars, chars_text, length_app. cbn [List.length].
  rewrite HD.
  replace (Z.of_nat (List.length P + S (List.length words + 6)) <? 8) with false
    by (symmetry; apply Z.ltb_ge; lia).
  replace (Z.of_nat (List.length P + S (List.length words + 6)) >? 256) with false
    by (symmetry; rewrite Z.gtb_ltb; apply Z.ltb_ge; lia).
  rewrite toLowerCase_text, Hlow, String.eqb_refl. cbn [negb andb].
  rewrite chars_text.
  rewrite lastIndexOf_split
    by (apply lastIndexOf_alpha, Forall_app; auto).
  pose proof (firstn_prefix _ P ("1"%char :: D)) as Hfirst.
  pose proof (skipn_prefix _ P "1"%char D) as Hskip.
  destruct (List.length P) as [| n] eqn:En; [lia |].
  cbv beta iota. rewrite Hfirst, Hskip, HD.
  replace (List.length words + 6 <? 6)%nat with false
    by (symmetry; apply Nat.ltb_ge; lia).
  assert (text P = toLowerCase prefix) as -> by reflexivity.
  rewrite Hchk. cbn [bind]. unfold D.
  rewrite decodeWords_run by assumption.
  cbn [bind fst snd app]. rewrite Hsum. reflexivity.
Qed.

End Bech32Facts.

Module DispatchFacts.
Import Effects SeiDepositMonitor Spec.

(** Past the last entry of the set the loop is over, whatever is left
    of the fuel. *)
Lemma visit_end fuel behaviour event index s :
  nth_error (callbacks (fst s)) index = None ->
  visit fuel behaviour event index s = (Done tt, s).
Proof.
  intros Hend. destruct fuel; cbn [visit]; unfold bindM, get; rewrite Hend;
    reflexivity.
Qed.

(** One more entry: the callback is called, its calls on the monitor
    are performed, its promise is awaited under [try]. *)
Lemma visit_next fuel behaviour event index s cb :
  nth_error (callbacks (fst s)) index = Some cb ->
  visit (S fuel) behaviour event index s
  = bindM (invoke behaviour cb event) (fun reaction =>
    bindM (performAll (S index) (during reaction)) (fun index =>
    bindM (tryM (await (settlement reaction))
                (fun error => logger_error "Error in deposit callback: " error))
          (fun _ => visit fuel behaviour event index))) s.
Proof.
  intros Hnext. cbn [visit]. unfold bindM at 1, get. rewrite Hnext. reflexivity.
Qed.

Lemma skipn_next (A : Type) (l : list A) index x :
  nth_error l index = Some x -> skipn index l = x :: skipn (S index) l.
Proof.
  revert index. induction l as [| y l IH]; intros [| index] H; try discriminate.
  - injection H as ->. reflexivity.
  - cbn [nth_error] in H. rewrite (skipn_cons index y l). apply IH. exact H.
Qed.

(** With orderly callbacks and fuel for every entry left, the loop ends
    normally: the entries left are called in order, the set is as it
    was, and only the error log may have grown. *)
Lemma visit_orderly behaviour event : orderly behaviour ->
  forall fuel index this w,
    (List.length (callbacks this) <= index + fuel)%nat ->
    exists lines,
      visit fuel behaviour event index (this, w)
      = (Done tt,
         (this, {| calls := calls w
                            ++ map (fun cb => (cb, event))
                                   (skipn index (callbacks this));
                   errors := errors w ++ lines |})).
Proof.
  intros Horderly. induction fuel as [| fuel IH]; intros index this w Hfuel.
  - exists []. rewrite visit_end.
    + rewrite skipn_all2 by lia. cbn. rewrite !app_nil_r. destruct w. reflexivity.
    + apply nth_error_None. cbn. lia.
  - destruct (nth_error (callbacks this) index) as [cb |] eqn:Hnext.
    2:{ exists []. rewrite visit_end by exact Hnext.
        apply nth_error_None in Hnext.
        rewrite skipn_all2 by lia. cbn. rewrite !app_nil_r. destruct w.
        reflexivity. }
    rewrite (visit_next fuel behaviour event index (this, w) cb Hnext).
    unfold bindM at 1, invoke. cbn [fst snd].
    destruct (Horderly cb (seenBy cb w) event) as [Hduring Hsettles].
    rewrite Hduring. cbn [performAll]. unfold bindM at 1, ret.
    rewrite (skipn_next _ _ _ _ Hnext). cbn [map].
    destruct (settlement (behaviour cb (seenBy cb w) event)) as [| [text | raised] |];
      try contradiction.
    + unfold bindM, tryM, await, ret.
      destruct (IH (S index) this
                   {| calls := calls w ++ [(cb, event)]; errors := errors w |})
        as (lines & ->); [lia |].
      exists lines. cbn [calls errors]. rewrite <- app_assoc. reflexivity.
    + unfold bindM, tryM, await, raise, logger_error. cbn [fst snd calls errors].
      destruct (IH (S index) this
                   {| calls := calls w ++ [(cb, event)];
                      errors := errors w
                                ++ [("Error in deposit callback: " ++ text)%string] |})
        as (lines & ->); [lia |].
      eexists (_ :: lines). cbn [calls errors].
      rewrite <- !app_assoc. reflexivity.
Qed.

Lemma notifyCallbacks_orderly behaviour event fuel this w :
  orderly behaviour -> (List.length (callbacks this) <= fuel)%nat ->
  exists lines,
    notifyCallbacks fuel behaviour event (this, w)
    = (Done tt,
       (this, {| calls := calls w ++ map (fun cb => (cb, event)) (callbacks this);
                 errors := errors w ++ lines |})).
Proof.
  intros Horderly Hfuel. unfold notifyCallbacks.
  destruct (visit_orderly behaviour event Horderly fuel 0 this w) as (lines & ->);
    [lia |].
  exists lines. reflexivity.
Qed.

(** C9 fails in the code.  Callbacks 0 and 1 are registered in that
    order and callback 0 throws an object that refers to itself.  The
    [catch] block hands it to [logger.error], whose [JSON.stringify]
    throws a [TypeError]; thrown inside the [catch], it ends the loop:
    [notifyCallbacks] rejects with it, nothing has been logged, and
    callback 1 has not been called with the event. *)
Theorem C9_unprintable_error_ends_the_dispatch :
  forall (fuel : nat),
    notifyCallbacks (S fuel) Scenario.throwsCyclic Scenario.depositEvent11
                    (Scenario.twoCallbacks, Scenario.quiet)
    = (Raised Scenario.circular,
       (Scenario.twoCallbacks,
        {| calls := [(0%nat, Scenario.depositEvent11)]; errors := [] |})).
Proof. intros fuel. reflexivity. Qed.

End DispatchFacts.

Module ParserFacts.
Import SeiDepositMonitor Spec.

Lemma scanPairs_skip this tx events actionType : forall pairs rest,
  Forall (fun p => isDepositPair this p = false) pairs ->
  scanPairs this tx events actionType (flatPairs pairs ++ rest)
  = scanPairs this tx events actionType rest.
Proof.
  induction pairs as [| [r a] pairs IH]; intros rest H; [reflexivity |].
  inversion H as [| ? ? Hp Hrest]; subst.
  cbn [flatPairs flat_map app fst snd scanPairs].
  fold (flatPairs pairs).
  unfold isDepositPair in Hp. cbn [fst snd] in Hp.
  destruct (hasKey "receiver" r); cbn [negb orb andb] in *; [| apply IH; assumption].
  destruct (hasKey "amount" a); cbn [negb orb andb] in *; [| apply IH; assumption].
  rewrite Hp. apply IH. assumption.
Qed.

Lemma scanPairs_single this tx events actionType before after amount :
  Forall (fun p => isDepositPair this p = false) before ->
  Forall (fun p => isDepositPair this p = false) after ->
  scanPairs this tx events actionType
            (flatPairs (before
                        ++ (receiverAttr (finalAddress this), amountAttr amount)
                        :: after))
  = [detail tx events actionType amount (finalAddress this)].
Proof.
  intros Hbefore Hafter.
  unfold flatPairs. rewrite flat_map_app. fold (flatPairs before).
  rewrite scanPairs_skip by assumption.
  cbn [flat_map app fst snd scanPairs].
  fold (flatPairs after).
  change (hasKey "receiver" (receiverAttr (finalAddress this))) with true.
  change (hasKey "amount" (amountAttr amount)) with true.
  cbn [negb orb receiverAttr amountAttr Attribute.value].
  rewrite String.eqb_refl. f_equal.
  rewrite <- (app_nil_r (flatPairs after)).
  rewrite scanPairs_skip by assumption. reflexivity.
Qed.

(** C3. A transaction whose single [coin_received] event lists pairs of
    which exactly one, at any pair index, is a (receiver, amount) pair
    for the watched address: one candidate is returned.  Its amount is
    the amount of that pair and its receiver the watched address; its
    other fields are those of the transaction and of the log group.
    The other pairs, those with other keys included, are passed over
    and the scan goes on. *)
Theorem C3_one_candidate_for_the_matching_pair :
  forall (this : t) (tx : TxResponseItem.t) (log : TxLog.t) (cre : TxLogEvent.t)
         (before after : list (Attribute.t * Attribute.t)) (amount : string),
    logsOf tx = [log] ->
    filter (isType "coin_received") (TxLog.events log) = [cre] ->
    TxLogEvent.attributes cre
    = flatPairs (before
                 ++ (receiverAttr (finalAddress this), amountAttr amount) :: after) ->
    Forall (fun p => isDepositPair this p = false) before ->
    Forall (fun p => isDepositPair this p = false) after ->
    parseTransactionDetails this tx
    = [{| TransactionDetails.hash := TxResponseItem.txhash tx;
          TransactionDetails.height := TxResponseItem.height tx;
          TransactionDetails.type := actionTypeOf (TxLog.events log);
          TransactionDetails.amount := amount;
          TransactionDetails.sender := extractSender (TxLog.events log);
          TransactionDetails.receiver := finalAddress this;
          TransactionDetails.gasUsed := TxResponseItem.gas_used tx;
          TransactionDetails.gasWanted := TxResponseItem.gas_wanted tx;
          TransactionDetails.timestamp := TxResponseItem.timestamp tx;
          TransactionDetails.raw := tx |}].
Proof.
  intros this tx log cre before after amount Hlogs Hcre Hattrs Hbefore Hafter.
  unfold parseTransactionDetails. rewrite Hlogs. cbn [flat_map].
  rewrite app_nil_r. unfold scanLog. rewrite Hcre. cbn [flat_map].
  rewrite app_nil_r, Hattrs.
  rewrite scanPairs_single by assumption. reflexivity.
Qed.

(** The transaction [txTwoPairs]: the watched address is the receiver of
    the second pair (index 1) only, with the amount [100000usei]. *)
Lemma C3_witness :
  parseTransactionDetails Scenario.watcher Scenario.txTwoPairs
  = [{| TransactionDetails.hash := "abc123";
        TransactionDetails.height := "123456";
        TransactionDetails.type := "/cosmos.bank.v1beta1.MsgSend";
        TransactionDetails.amount := "100000usei";
        TransactionDetails.sender := Some "sei1sender"%string;
        TransactionDetails.receiver := Scenario.watched;
        TransactionDetails.gasUsed := "50000";
        TransactionDetails.gasWanted := "75000";
        TransactionDetails.timestamp := "2024-02-09T12:00:00Z";
        TransactionDetails.raw := Scenario.txTwoPairs |}].
Proof.
  apply (C3_one_candidate_for_the_matching_pair
           Scenario.watcher Scenario.txTwoPairs
           {| TxLog.msg_index := 0; TxLog.log := EmptyString;
              TxLog.events := [Scenario.coinReceived Scenario.twoPairs;
                               Scenario.message "/cosmos.bank.v1beta1.MsgSend"] |}
           (Scenario.coinReceived Scenario.twoPairs)
           [(receiverAttr "sei1other", amountAttr "23usei")] []
           "100000usei").
  - reflexivity.
  - reflexivity.
  - reflexivity.
  - repeat constructor.
  - constructor.
Defined.

Lemma firstNonEmpty_logs (logs : list TxLog.t) later :
  (List.length logs =? 0)%nat = false -> firstNonEmpty (logs :: later) = logs.
Proof. destruct logs; [discriminate | reflexivity]. Qed.

(** C4, as the code has it.  The three shapes are tried in the order
    [tx.logs], [tx.events], [tx.result.events]; the first that is not
    empty is the only one that is parsed. *)
Theorem C4_first_source_in_code_order :
  forall (this : t) (tx : TxResponseItem.t),
    parseTransactionDetails this tx = parseFrom this tx (sourcesInCodeOrder tx).
Proof.
  intros this tx. unfold parseTransactionDetails, parseFrom. f_equal.
  unfold logsOf, sourcesInCodeOrder.
  destruct (orEmpty (TxResponseItem.logs tx)) as [| l logs]; [| reflexivity].
  cbn [List.length Nat.eqb firstNonEmpty].
  destruct (TxResponseItem.events tx) as [[| e es] |]; cbn; try reflexivity;
    destruct (resultEvents tx) as [[| e' es'] |]; reflexivity.
Qed.

(** C4 as stated fails: with an empty [tx.logs] and both event lists
    non-empty, a deposit in [tx.events] is returned although
    [tx.result.events] comes first in the order of the claim. *)
Lemma C4_spec_order_counterexample :
  parseTransactionDetails Scenario.watcher Scenario.txBothLists
  <> parseFrom Scenario.watcher Scenario.txBothLists
               (sourcesInSpecOrder Scenario.txBothLists).
Proof. vm_compute. discriminate. Qed.

(** C5. An EVM action type classifies as [evm] whatever the receiver. *)
Theorem C5_evm_action_is_evm :
  forall (details : TransactionDetails.t),
    TransactionDetails.type details
    = "/seiprotocol.seichain.evm.MsgEVMTransaction"%string ->
    determineDepositType details = evm.
Proof.
  intros details H. unfold determineDepositType. rewrite H. reflexivity.
Qed.

(** The receiver is the watched address itself. *)
Lemma C5_witness :
  determineDepositType (Scenario.evmDetails Scenario.watched) = evm.
Proof.
  apply (C5_evm_action_is_evm (Scenario.evmDetails Scenario.watched)).
  reflexivity.
Defined.

End ParserFacts.

Module ResolverFacts.
Import SeiDepositMonitor Spec TextFacts ConvertBitsFacts.

Section AnyPackage.
Context {bech32 : Bech32Package}.

(** For an accepted identifier the derivation is the encoding of the 32
    words of its 20 bytes; only the encoder can make it throw. *)
Lemma ethAddressToBech32_accepted (ethAddress prefix : string) :
  AddressUtils.isEthAddress ethAddress = true ->
  exists words,
    AddressUtils.convertBits
      (Buffer.from_hex (Text.toLowerCase (Text.replace "0x" EmptyString ethAddress)))
      8 5 true = Returns words
    /\ List.length words = 32%nat
    /\ Forall isWord5 words
    /\ AddressUtils.ethAddressToBech32 ethAddress prefix
       = try_catch (bech32_encode prefix words 256)
                   (fun errorMessage =>
                      Throws ("Invalid ETH address: " ++ errorMessage)).
Proof.
  intros Hacc. unfold AddressUtils.isEthAddress in Hacc.
  destruct (cleanAddress_bytes ethAddress Hacc) as (Hre & Hlen & Hbytes).
  cbv zeta in Hre, Hlen, Hbytes.
  destruct (regroup_roundtrip _ Hbytes) as (words & Hrun & Hwords & Hcount & _).
  exists words. repeat split; try assumption.
  - rewrite Hlen in Hcount. change ((- (8 * Z.of_nat 20)) mod 5) with 0 in Hcount. lia.
  - unfold AddressUtils.ethAddressToBech32, AddressUtils.isEthAddress.
    rewrite Hacc. cbn [negb]. cbv zeta.
    rewrite Hre, Hlen, Hrun. reflexivity.
Qed.

Lemma ethGetCode_empty net rpc hexAddr :
  codeIsEmpty (Net.eth_getCode net rpc hexAddr) ->
  ethGetCode net rpc hexAddr = None \/ ethGetCode net rpc hexAddr = Some "0x"%string.
Proof.
  unfold ethGetCode, codeIsEmpty.
  destruct (Net.eth_getCode net rpc hexAddr) as [| [msg |] result]; auto.
  intros [-> | ->]; auto.
Qed.



End AnyPackage.




End ResolverFacts.

Module PollFacts.
Import Effects SeiDepositMonitor Spec.

(** The block range handed to [getTransactions] has no effect on what
    is requested. *)
Lemma getTransactions_ignores_range this net fromBlock toBlock fromBlock' toBlock' :
  getTransactions this net fromBlock toBlock
  = getTransactions this net fromBlock' toBlock'.
Proof. reflexivity. Qed.

Lemma gt_trans a b c :
  Num.gt a b = true -> Num.gt b c = true -> Num.gt a c = true.
Proof.
  destruct a as [| x | []], b as [| y | []], c as [| z | []];
    cbn; try discriminate; try reflexivity.
  intros Hab Hbc. apply Z.gtb_lt in Hab, Hbc. apply Z.gtb_lt. lia.
Qed.

(** The cursor [next] is [last] or above it. *)
Lemma cursor_trans last next final :
  next = last \/ Num.gt next last = true ->
  final = next \/ Num.gt final next = true ->
  final = last \/ Num.gt final last = true.
Proof.
  intros [-> | Hnext] [-> | Hfinal]; auto.
  right. exact (gt_trans _ _ _ Hfinal Hnext).
Qed.

(** A run of [poll] that ends normally leaves the cursor where it was
    or moves it forward. *)
Lemma poll_cursor fuel behaviour net lastCheckedBlock s :
  match fst (poll fuel behaviour net lastCheckedBlock s) with
  | Done next => next = lastCheckedBlock \/ Num.gt next lastCheckedBlock = true
  | _ => True
  end.
Proof.
  unfold poll. unfold bindM at 1, get. cbv zeta.
  destruct (isMonitoring (fst s)); cbn [negb]; [| cbn; auto].
  unfold tryM, bindM, lift, ret, logger_error.
  destruct (getLatestBlockHeight (fst s) net) as [currentHeight | msg |];
    cbn [fst]; auto.
  destruct (Num.gt currentHeight lastCheckedBlock) eqn:Egt; cbn [fst]; auto.
  destruct (getTransactions (fst s) net (Num.succ lastCheckedBlock) currentHeight)
    as [txs | msg |]; cbn [fst]; auto.
  destruct (forM txs (dispatch fuel behaviour) s) as [[[] | [text | raised] |] s'];
    cbn [fst]; auto.
Qed.

(** Over any number of runs the cursor never moves back. *)
Lemma polls_cursor fuel behaviour : forall nets lastCheckedBlock s,
  match fst (polls fuel behaviour nets lastCheckedBlock s) with
  | Done final => final = lastCheckedBlock \/ Num.gt final lastCheckedBlock = true
  | _ => True
  end.
Proof.
  induction nets as [| net nets IH]; intros lastCheckedBlock s.
  - cbn. auto.
  - cbn [polls]. unfold bindM.
    pose proof (poll_cursor fuel behaviour net lastCheckedBlock s) as Hstep.
    destruct (poll fuel behaviour net lastCheckedBlock s) as [[next | value |] s1];
      cbn [fst] in *; auto.
    pose proof (IH next s1) as Hrest.
    destruct (polls fuel behaviour nets next s1) as [[final | value |] s'];
      cbn [fst] in *; auto.
    exact (cursor_trans _ _ _ Hstep Hrest).
Qed.

(** C2 at work.  The cursor starts at 10.  A first run sees the head at
    11, receives the deposit of block 11 and moves the cursor to 11.  A
    second run sees the head at 12 and asks for blocks 12 to 12; the
    request it sends is the same as before, the node returns the same
    deposit of block 11, and the callback is called with it again. *)
Theorem C2_covered_block_is_processed_again :
  forall (fuel : nat),
    polls (S fuel) Scenario.alwaysCompletes
          [Scenario.restAt "11"; Scenario.restAt "12"] (Num.Int 10)
          (Scenario.watcher, Scenario.quiet)
    = (Done (Num.Int 12),
       (Scenario.watcher,
        {| calls := [(0%nat, Scenario.depositEvent11);
                     (0%nat, Scenario.depositEvent11)];
           errors := [] |})).
Proof. intros fuel. destruct fuel; vm_compute; reflexivity. Qed.

End PollFacts.

Module DerivationFacts.
Import Text Buffer AddressUtils Spec.
Import Checksum TextFacts ConvertBitsFacts Bech32Facts ResolverFacts.

(** C10. Regrouping bytes into 5-bit words with padding is total: for
    every input it returns, the number of words is 8n/5 rounded up, and
    every word is between 0 and 31. *)
Theorem C10_padded_regrouping_is_total :
  forall (data : list Z),
  exists words,
    convertBits data 8 5 true = Returns words
    /\ Z.of_nat (List.length words) = (8 * Z.of_nat (List.length data) + 4) / 5
    /\ Forall (fun w => 0 <= w <= 31) words.
Proof. exact convertBits_8_5_pad_shape. Qed.





(** *** Public keys *)

Section AnyPackages.
Context {bech32 : Bech32Package} {hashes : NobleHashes}.

Lemma pubKeyBytes_hex key : Forall isByte key ->
  pubKeyBytes (KeyString (toHex key)) = Returns key.
Proof.
  intros Hkey. unfold pubKeyBytes.
  rewrite startsWith_0x_toHex by assumption.
  destruct key as [| b key]; [reflexivity |].
  rewrite re_hex_toHex by assumption. cbn [try_catch].
  rewrite from_hex_toHex by assumption. reflexivity.
Qed.

Lemma pubKeyBytes_0x_hex key : Forall isByte key ->
  pubKeyBytes (KeyString ("0x" ++ toHex key)) = Returns key.
Proof.
  intros Hkey. unfold pubKeyBytes.
  rewrite startsWith_0x, sliceFrom_0x. cbn [try_catch].
  rewrite from_hex_toHex by assumption. reflexivity.
Qed.

Lemma pubKeyBytes_base64 key : Forall isByte key ->
  startsWith "0x" (toBase64 key) = false -> re_hex (toBase64 key) = false ->
  pubKeyBytes (KeyString (toBase64 key)) = Returns key.
Proof.
  intros Hkey H0x Hhex. unfold pubKeyBytes.
  rewrite H0x, Hhex. cbn [try_catch].
  rewrite from_base64_toBase64 by assumption. reflexivity.
Qed.

(** C7, as the code has it.  For every key, given as hexadecimal
    text and as hexadecimal text after [0x] it yields the address of
    its bytes; given as base64 text it does when that text is not
    also read as hexadecimal: when it does not start with [0x] and
    has a character that is not a hexadecimal digit. *)
Theorem C7_same_address_for_every_encoding :
  forall (key : list Z) (prefix : string),
    Forall isByte key ->
    pubKeyToAddress (KeyString (toHex key)) prefix
    = pubKeyToAddress (KeyBytes key) prefix
    /\ pubKeyToAddress (KeyString ("0x" ++ toHex key)) prefix
       = pubKeyToAddress (KeyBytes key) prefix
    /\ (startsWith "0x" (toBase64 key) = false ->
        re_hex (toBase64 key) = false ->
        pubKeyToAddress (KeyString (toBase64 key)) prefix
        = pubKeyToAddress (KeyBytes key) prefix).
Proof.
  intros key prefix Hkey. unfold pubKeyToAddress.
  rewrite pubKeyBytes_hex, pubKeyBytes_0x_hex by assumption.
  repeat split.
  intros H0x Hhex. rewrite pubKeyBytes_base64 by assumption. reflexivity.
Qed.

(** C8, as the code has it.  [ethAddressToBech32] throws on every
    identifier that is not [0x] and forty hexadecimal digits, and
    [convertBits] without padding throws when the 5-bit words leave
    five bits or more, or leave bits that are not zero. *)
Theorem C8_malformed_identifier_throws :
  (forall (ethAddress prefix : string),
      isEthAddress ethAddress = false ->
      ethAddressToBech32 ethAddress prefix = Throws "Invalid ETH address format")
  /\ (forall (words : list Z),
         Forall isWord5 words ->
         let bits := (5 * Z.of_nat (List.length words)) mod 8 in
         5 <= bits \/ valueOf 32 words mod 2 ^ bits <> 0 ->
         convertBits words 5 8 false = Throws "Unable to convert bits").
Proof.
  split.
  - intros ethAddress prefix H. unfold ethAddressToBech32. rewrite H. reflexivity.
  - intros words Hwords bits Hbad.
    pose proof (@convertBits_nopad 5 8 ltac:(lia) ltac:(lia) ltac:(lia) words Hwords)
      as Hrun.
    cbv zeta in Hrun. fold bits in Hrun. change (2 ^ 5) with 32 in Hrun.
    destruct Hbad as [Hbits | Hleft].
    + replace (bits >=? 5) with true in Hrun
        by (symmetry; rewrite Z.geb_leb; apply Z.leb_le; lia).
      exact Hrun.
    + replace (valueOf 32 words mod 2 ^ bits =? 0) with false in Hrun
        by (symmetry; apply Z.eqb_neq; assumption).
      rewrite orb_true_r in Hrun. exact Hrun.
Qed.

End AnyPackages.

(** The key of the test suite, of 33 bytes and leading byte [0x02]. *)
Lemma C7_witness :
  pubKeyToAddress (KeyString (toHex Scenario.testKey)) "sei"
  = pubKeyToAddress (KeyBytes Scenario.testKey) "sei"
  /\ pubKeyToAddress (KeyString ("0x" ++ toHex Scenario.testKey)) "sei"
     = pubKeyToAddress (KeyBytes Scenario.testKey) "sei"
  /\ pubKeyToAddress (KeyString (toBase64 Scenario.testKey)) "sei"
     = pubKeyToAddress (KeyBytes Scenario.testKey) "sei".
Proof.
  destruct (C7_same_address_for_every_encoding
              Scenario.testKey "sei" (hexBytes_isByte _)) as (Hhex & H0x & Hbase64).
  split; [exact Hhex |]. split; [exact H0x |].
  apply Hbase64; reflexivity.
Defined.

(** C7 as stated fails.  The base64 text of [hexLookingKey] is
    [A0AA...A]: it is decoded as hexadecimal, other bytes are hashed and
    the address is not the one of the key. *)
Lemma C7_base64_read_as_hex_counterexample :
  pubKeyToAddress (KeyString (toBase64 Scenario.hexLookingKey)) "sei"
  <> pubKeyToAddress (KeyBytes Scenario.hexLookingKey) "sei".
Proof. vm_compute. discriminate. Qed.

Lemma C8_witness :
  ethAddressToBech32 "0xinvalid" "sei" = Throws "Invalid ETH address format"
  /\ convertBits [31] 5 8 false = Throws "Unable to convert bits".
Proof.
  split.
  - apply (proj1 C8_malformed_identifier_throws "0xinvalid"%string "sei"%string).
    reflexivity.
  - apply (proj2 C8_malformed_identifier_throws [31]).
    + repeat constructor; discriminate.
    + left. discriminate.
Defined.

(** C8 as stated fails for [pubKeyToAddress]: three bytes are no public
    key, and an address is returned for them. *)
Lemma C8_short_key_counterexample :
  pubKeyToAddress (KeyBytes Scenario.shortKey) "sei"
  = Returns "sei1n0zgvzaex64lyckh550hfdpsfqelacajf6cwjd"%string.
Proof. vm_compute. reflexivity. Qed.

End DerivationFacts.

(** ** The test suite of the repository and the scenarios of the
    specification, evaluated *)

Module Tests.
Import AddressUtils SeiDepositMonitor.
Local Open Scope string_scope.

Example converts_eth_address :
  ethAddressToBech32 "0x7b3D6e9756fe4FbdED6881065882323A8C6d9B1A" "sei"
  = Returns "sei10v7ka96kle8mmmtgsyr93q3j82xxmxc69fnmdp".
Proof. vm_compute. reflexivity. Qed.

Example detects_eth_addresses :
  isEthAddress "0x7b3D6e9756fe4FbdED6881065882323A8C6d9B1A" = true
  /\ isEthAddress "sei1qv45ek49hqupx63u8lme9vcylarj3qe7f7cy99" = false.
Proof. split; reflexivity. Qed.

Example handles_invalid_eth_addresses :
  ethAddressToBech32 "invalid" "sei" = Throws "Invalid ETH address format"
  /\ ethAddressToBech32 "0xinvalid" "sei" = Throws "Invalid ETH address format".
Proof. split; reflexivity. Qed.

Example handles_different_public_key_formats :
  pubKeyToAddress
    (KeyString "02a9c4ec5e7927c1390a769a1c6ce4c54bda30677676ff3ab32b905d75dcff1960")
    "sei"
  = Returns "sei1ewjfhv2kej7frct223a66xd69ngqt599h5agsg"
  /\ pubKeyToAddress (KeyString "AqnE7F55J8E5CnaaHGzkxUvaMGd2dv86syuQXXXc/xlg") "sei"
     = Returns "sei1ewjfhv2kej7frct223a66xd69ngqt599h5agsg".
Proof. split; vm_compute; reflexivity. Qed.

Example parses_transaction_details :
  map (fun d => (TransactionDetails.amount d, TransactionDetails.sender d,
                 TransactionDetails.type d))
      (parseTransactionDetails Scenario.watcher Scenario.txTwoPairs)
  = [("100000usei", Some "sei1sender", "/cosmos.bank.v1beta1.MsgSend")].
Proof. reflexivity. Qed.

(** Resolution of [0x1111...] when the node reports no code, no
    transaction and no wallet, and when nothing answers at all. *)
Example resolves_a_fresh_account :
  resolveEvmAddress Scenario.freshAccount Scenario.watcher Scenario.hexOnes
  = Returns "sei1zyg3zyg3zyg3zyg3zyg3zyg3zyg3zyg3v3x55w"
  /\ resolveEvmAddress Scenario.offline Scenario.watcher Scenario.hexOnes
     = Returns "sei1zyg3zyg3zyg3zyg3zyg3zyg3zyg3zyg3v3x55w".
Proof. split; vm_compute; reflexivity. Qed.

(** Two callbacks, the second one throwing on its first call: both are
    called with both events. *)
Example callback_that_threw_is_called_again :
  let event := Scenario.depositEvent11 in
  Effects.forM [event; event] (notifyCallbacks 2 Scenario.throwsOnce)
               (Scenario.twoCallbacks, Scenario.quiet)
  = (Effects.Done tt,
     (Scenario.twoCallbacks,
      {| Effects.calls := [(0%nat, event); (1%nat, event);
                           (0%nat, event); (1%nat, event)];
         Effects.errors := ["Error in deposit callback: boom"] |})).
Proof. vm_compute. reflexivity. Qed.

(** The only callback removes itself and registers itself again the
    first two times it is called: it is visited as a new entry each
    time and called three times with the one event. *)
Example callback_that_comes_back_is_called_again :
  let event := Scenario.depositEvent11 in
  notifyCallbacks 3 Scenario.comesBack event (Scenario.watcher, Scenario.quiet)
  = (Effects.Done tt,
     (Scenario.watcher,
      {| Effects.calls := [(0%nat, event); (0%nat, event); (0%nat, event)];
         Effects.errors := [] |})).
Proof. vm_compute. reflexivity. Qed.

(** A height that starts with a no-break space, and one above [2^53]. *)
Example heights_are_read_as_parseInt_reads_them :
  Num.parseInt (String (Ascii.ascii_of_nat 160) "12") 10 = Num.Int 12
  /\ Num.parseInt "9007199254740993" 10 = Num.Int 9007199254740992.
Proof. split; vm_compute; reflexivity. Qed.

(** The empty prefix is taken by [encode] and refused by [decode]. *)
Example empty_prefix_is_not_decoded :
  ethAddressToBech32 Scenario.hexOnes EmptyString
  = Returns "1zyg3zyg3zyg3zyg3zyg3zyg3zyg3zyg3uwd2w3"
  /\ Spec.addressBytes "1zyg3zyg3zyg3zyg3zyg3zyg3zyg3zyg3uwd2w3"
     = Throws "Missing prefix for 1zyg3zyg3zyg3zyg3zyg3zyg3zyg3zyg3uwd2w3".
Proof. split; vm_compute; reflexivity. Qed.

(** The earlier [ethAddressToBech32] returned an address for text that
    is no address: the address of no bytes at all. *)
Example earlier_derivation_took_any_text :
  Earlier.ethAddressToBech32 "invalid" "sei" = Returns "sei18lxxuk".
Proof. vm_compute. reflexivity. Qed.

(** The earlier [determineDepositType] answered [cast] for an EVM
    action received at the cast address. *)
Example earlier_classifier_tested_the_cast_address_first :
  Earlier.determineDepositType (Some Scenario.watched)
                               (Scenario.evmDetails Scenario.watched) = cast
  /\ determineDepositType (Scenario.evmDetails Scenario.watched) = evm.
Proof. split; reflexivity. Qed.

End Tests.

Module ListFacts.

(** Induction two elements at a time. *)
Lemma list_ind2 (A : Type) (P : list A -> Prop) :
  P [] -> (forall a, P [a]) -> (forall a b l, P l -> P (a :: b :: l)) ->
  forall l, P l.
Proof.
  intros H0 H1 H2.
  assert (forall l, P l /\ forall a, P (a :: l)) as H.
  { induction l as [| b l [IH1 IH2]]; split; auto. }
  intros l. apply H.
Qed.

End ListFacts.

Module RegroupingProperties.
Import AddressUtils Spec ConvertBitsFacts.

(** X1. Regrouping any list of bytes, of any length, into 5-bit words
    with padding and regrouping the words back into bytes without
    padding returns the bytes: the second call does not throw and
    nothing is lost or added. *)
Theorem X1_regrouping_round_trip :
  forall (bytes : list Z),
    Forall isByte bytes ->
    exists words,
      convertBits bytes 8 5 true = Returns words
      /\ Forall isWord5 words
      /\ convertBits words 5 8 false = Returns bytes.
Proof.
  intros bytes Hbytes.
  destruct (regroup_roundtrip bytes Hbytes) as (words & Hrun & Hwords & _ & Hback).
  exists words. auto.
Qed.

(** Three bytes: 24 bits, five words with one bit of padding. *)
Lemma X1_witness :
  exists words,
    convertBits [255; 0; 129] 8 5 true = Returns words
    /\ Forall isWord5 words
    /\ convertBits words 5 8 false = Returns [255; 0; 129].
Proof.
  apply (X1_regrouping_round_trip [255; 0; 129]).
  repeat constructor; discriminate.
Defined.

(** X2. For digit widths below 31 bits whose sum is at most 33,
    regrouping with padding returns, for digits in range, the digits of
    the same number in the new width, shifted left by the padding: the
    bits of the input, in order, followed by the fewest zero bits that
    complete the last digit.  The 32-bit accumulator loses nothing
    within these widths. *)
Theorem X2_padded_regrouping_keeps_the_bits :
  forall (fromBits toBits : Z) (data : list Z),
    0 < fromBits < 31 -> 0 < toBits < 31 -> fromBits + toBits <= 33 ->
    Forall (below fromBits) data ->
    let total := fromBits * Z.of_nat (List.length data) in
    let padding := (- total) mod toBits in
    exists result,
      convertBits data fromBits toBits true = Returns result
      /\ valueOf (2 ^ toBits) result = valueOf (2 ^ fromBits) data * 2 ^ padding
      /\ toBits * Z.of_nat (List.length result) = total + padding
      /\ Forall (below toBits) result.
Proof.
  intros fromBits toBits data Hfrom Hto Hsum Hdata.
  exact (convertBits_pad fromBits toBits Hfrom Hto Hsum data Hdata).
Qed.

(** Two digits of 3 bits into digits of 4 bits: 6 bits and 2 of padding. *)
Lemma X2_witness :
  exists result,
    convertBits [5; 3] 3 4 true = Returns result
    /\ valueOf (2 ^ 4) result = valueOf (2 ^ 3) [5; 3] * 2 ^ 2
    /\ 4 * Z.of_nat (List.length result) = 6 + 2
    /\ Forall (below 4) result.
Proof.
  apply (X2_padded_regrouping_keeps_the_bits 3 4 [5; 3]); try lia.
  repeat constructor; unfold below; lia.
Defined.

(** X3. Without padding, for the same widths and digits in range, the
    call throws exactly when the bits left over are as many as an input
    digit or are not all zero; otherwise it returns the digits of the
    input number with the left-over zero bits removed. *)
Theorem X3_unpadded_regrouping_throws_or_is_exact :
  forall (fromBits toBits : Z) (data : list Z),
    0 < fromBits < 31 -> 0 < toBits < 31 -> fromBits + toBits <= 33 ->
    Forall (below fromBits) data ->
    let N := valueOf (2 ^ fromBits) data in
    let total := fromBits * Z.of_nat (List.length data) in
    let bits := total mod toBits in
    if (bits >=? fromBits) || negb (N mod 2 ^ bits =? 0)
    then convertBits data fromBits toBits false = Throws "Unable to convert bits"
    else exists result,
        convertBits data fromBits toBits false = Returns result
        /\ valueOf (2 ^ toBits) result * 2 ^ bits = N
        /\ Z.of_nat (List.length result) = total / toBits
        /\ Forall (below toBits) result.
Proof.
  intros fromBits toBits data Hfrom Hto Hsum Hdata.
  exact (convertBits_nopad fromBits toBits Hfrom Hto Hsum data Hdata).
Qed.

(** Two words of five bits leave two bits, here both set. *)
Lemma X3_witness :
  convertBits [31; 31] 5 8 false = Throws "Unable to convert bits".
Proof.
  apply (X3_unpadded_regrouping_throws_or_is_exact 5 8 [31; 31]); try lia.
  repeat constructor; unfold below; lia.
Defined.

End RegroupingProperties.

Module AddressProperties.
Import Text Buffer AddressUtils Spec.
Import TextFacts ConvertBitsFacts Bech32Facts ResolverFacts ListFacts.

Lemma upperChar_hexDigit c : isHexDigit c = true ->
  isHexDigit (upperChar c) = true /\ hexDigit (upperChar c) = hexDigit c.
Proof.
  intros H.
  assert (implb (isHexDigit c)
                (isHexDigit (upperChar c)
                 && sameOption (hexDigit (upperChar c)) (hexDigit c)) = true) as Himp
      by (clear H; revert c; apply every_char; vm_compute; reflexivity).
  rewrite H in Himp. apply andb_true_iff in Himp as [H1 H2].
  split; [assumption | apply sameOption_eq; assumption].
Qed.

Lemma hexChar_hexDigit c v : isLowerHexDigit c = true -> hexDigit c = Some v ->
  hexChar v = c.
Proof.
  intros Hc Hv.
  assert (implb (isLowerHexDigit c)
                (match hexDigit c with
                 | Some v => Ascii.eqb (hexChar v) c
                 | None => false
                 end) = true) as Himp
      by (clear Hc Hv; revert c; apply every_char; vm_compute; reflexivity).
  rewrite Hc, Hv in Himp. apply Ascii.eqb_eq. exact Himp.
Qed.

(** Lower-case hexadecimal text of even length is the text of its bytes. *)
Lemma hexChars_hexBytes : forall cs,
  Nat.even (List.length cs) = true -> forallb isLowerHexDigit cs = true ->
  hexChars (hexBytes cs) = cs.
Proof.
  induction cs as [| a | a b cs IH] using list_ind2; intros Heven Hlow.
  - reflexivity.
  - discriminate.
  - cbn [forallb] in Hlow.
    apply andb_true_iff in Hlow as [Ha Hlow]. apply andb_true_iff in Hlow as [Hb Hlow].
    cbn [hexBytes].
    destruct (hexDigit a) as [x |] eqn:Ex.
    2:{ apply lowerHex_isHex in Ha. unfold isHexDigit in Ha. rewrite Ex in Ha.
        discriminate. }
    destruct (hexDigit b) as [y |] eqn:Ey.
    2:{ apply lowerHex_isHex in Hb. unfold isHexDigit in Hb. rewrite Ey in Hb.
        discriminate. }
    pose proof (hexDigit_range a x Ex) as Hx.
    pose proof (hexDigit_range b y Ey) as Hy.
    unfold hexChars. cbn [flat_map app]. fold (hexChars (hexBytes cs)).
    replace ((16 * x + y) / 16) with x
      by (apply (Z.div_unique _ 16 x y); lia).
    replace ((16 * x + y) mod 16) with y
      by (apply (Z.mod_unique _ 16 x y); lia).
    rewrite (hexChar_hexDigit a x Ha Ex), (hexChar_hexDigit b y Hb Ey).
    rewrite IH; [reflexivity | exact Heven | exact Hlow].
Qed.

(** The text [ethAddressToBech32] decodes, for an accepted identifier. *)
Lemma cleanAddress_chars s digits :
  chars s = "0"%char :: "x"%char :: digits ->
  toLowerCase (replace "0x" EmptyString s) = text (map lowerChar digits)
  /\ toLowerCase s = text ("0"%char :: "x"%char :: map lowerChar digits).
Proof.
  intros Hs. split.
  - rewrite (replace_0x s digits Hs). apply toLowerCase_text.
  - unfold toLowerCase. rewrite Hs. reflexivity.
Qed.

Lemma text_inj cs1 cs2 : text cs1 = text cs2 -> cs1 = cs2.
Proof.
  intros H. rewrite <- (chars_text cs1), <- (chars_text cs2), H. reflexivity.
Qed.

(** X4. With a prefix that [bech32] takes, two accepted identifiers get
    the same derived address exactly when they are the same up to the
    case of their hexadecimal digits: the derivation ignores letter case
    and never maps two different accounts to one address. *)
Theorem X4_same_address_iff_same_identifier :
  forall (a b prefix : string),
    isEthAddress a = true -> isEthAddress b = true -> isHrp prefix ->
    (ethAddressToBech32 a prefix = ethAddressToBech32 b prefix
     <-> toLowerCase a = toLowerCase b).
Proof.
  intros a b prefix Ha Hb [Hsize Hchars].
  destruct (ethAddressToBech32_accepted a prefix Ha)
    as (wa & Hwa & Hna & H5a & Hda).
  destruct (ethAddressToBech32_accepted b prefix Hb)
    as (wb & Hwb & Hnb & H5b & Hdb).
  destruct (re_ethAddress_inv a Ha) as (da & Hca & Hla & Hha).
  destruct (re_ethAddress_inv b Hb) as (db & Hcb & Hlb & Hhb).
  destruct (cleanAddress_chars a da Hca) as [Eca Ela].
  destruct (cleanAddress_chars b db Hcb) as [Ecb Elb].
  split.
  - intros Hsame.
    destruct (decode_encode prefix wa) as (address & Henc & Hdec);
      try assumption; try lia.
    destruct (decode_encode prefix wb) as (address' & Henc' & Hdec');
      try assumption; try lia.
    rewrite Hda, Hdb in Hsame. cbn [bech32_encode bech32_package] in Hsame.
    rewrite Henc, Henc' in Hsame. cbn [try_catch] in Hsame.
    injection Hsame as <-.
    rewrite Hdec in Hdec'. injection Hdec' as Hwords.
    destruct (regroup_roundtrip _ (proj2 (proj2 (cleanAddress_bytes a Ha))))
      as (wa' & Hrun & _ & _ & Hback).
    destruct (regroup_roundtrip _ (proj2 (proj2 (cleanAddress_bytes b Hb))))
      as (wb' & Hrun' & _ & _ & Hback').
    rewrite Hwa in Hrun. injection Hrun as <-.
    rewrite Hwb in Hrun'. injection Hrun' as <-.
    rewrite Hwords, Hback' in Hback. injection Hback as Hbytes.
    rewrite Eca, Ecb in Hbytes. unfold from_hex in Hbytes.
    rewrite !chars_text in Hbytes.
    rewrite Ela, Elb. do 3 f_equal.
    rewrite <- (hexChars_hexBytes (map lowerChar da)),
            <- (hexChars_hexBytes (map lowerChar db)).
    + rewrite Hbytes. reflexivity.
    + rewrite length_map, Hlb. reflexivity.
    + apply map_lower_hex. assumption.
    + rewrite length_map, Hla. reflexivity.
    + apply map_lower_hex. assumption.
  - intros Hsame. rewrite Ela, Elb in Hsame.
    apply text_inj in Hsame. injection Hsame as Hdigits.
    rewrite Hda, Hdb. rewrite Eca in Hwa. rewrite Ecb in Hwb.
    rewrite Hdigits, Hwb in Hwa. injection Hwa as ->. reflexivity.
Qed.

(** The same identifier in lower case and with upper-case letters. *)
Lemma X4_witness :
  ethAddressToBech32 "0xabcdef1111111111111111111111111111111111" "sei"
  = ethAddressToBech32 "0xABCDEF1111111111111111111111111111111111" "sei"
  <-> toLowerCase "0xabcdef1111111111111111111111111111111111"
      = toLowerCase "0xABCDEF1111111111111111111111111111111111".
Proof.
  apply (X4_same_address_iff_same_identifier
           "0xabcdef1111111111111111111111111111111111"
           "0xABCDEF1111111111111111111111111111111111" "sei").
  - reflexivity.
  - reflexivity.
  - split; [vm_compute; split; discriminate |].
    repeat constructor; discriminate.
Defined.

Section AnyPackages.
Context {bech32 : Bech32Package} {hashes : NobleHashes}.

Lemma startsWith_0x_hex s : re_hex s = true -> startsWith "0x" s = false.
Proof.
  unfold re_hex, startsWith. intros H. apply andb_true_iff in H as [_ H].
  destruct (chars s) as [| a [| b cs]]; cbn.
  - reflexivity.
  - apply andb_false_r.
  - cbn [forallb] in H.
    apply andb_true_iff in H as [_ H]. apply andb_true_iff in H as [Hb _].
    assert (implb (isHexDigit b) (negb (Ascii.eqb "x" b)) = true) as Himp
        by (clear Hb; revert b; apply every_char; vm_compute; reflexivity).
    rewrite Hb in Himp. cbn in Himp. apply negb_true_iff in Himp.
    rewrite Himp. rewrite andb_false_r. reflexivity.
Qed.

(** Text made of hexadecimal digits only is always decoded as such. *)
Lemma pubKeyBytes_re_hex s : re_hex s = true ->
  pubKeyBytes (KeyString s) = Returns (from_hex s).
Proof.
  intros H. unfold pubKeyBytes. rewrite (startsWith_0x_hex s H), H. reflexivity.
Qed.

Lemma map_hex_same (f : ascii -> ascii) :
  (forall c, isHexDigit c = true ->
             isHexDigit (f c) = true /\ hexDigit (f c) = hexDigit c) ->
  forall cs, forallb isHexDigit cs = true ->
    forallb isHexDigit (map f cs) = true /\ hexBytes (map f cs) = hexBytes cs.
Proof.
  intros Hf.
  induction cs as [| a | a b cs IH] using list_ind2; intros H.
  - split; reflexivity.
  - cbn in H |- *. apply andb_true_iff in H as [Ha _].
    destruct (Hf a Ha) as [-> _]. split; reflexivity.
  - cbn [forallb] in H.
    apply andb_true_iff in H as [Ha H]. apply andb_true_iff in H as [Hb H].
    destruct (Hf a Ha) as [La Ea]. destruct (Hf b Hb) as [Lb Eb].
    destruct (IH H) as [Lcs Ecs].
    cbn [map forallb hexBytes]. rewrite La, Lb, Lcs, Ea, Eb, Ecs.
    split; reflexivity.
Qed.

Lemma re_hex_map (f : ascii -> ascii) s :
  (forall c, isHexDigit c = true ->
             isHexDigit (f c) = true /\ hexDigit (f c) = hexDigit c) ->
  re_hex s = true ->
  re_hex (text (map f (chars s))) = true
  /\ from_hex (text (map f (chars s))) = from_hex s.
Proof.
  intros Hf H. unfold re_hex, from_hex in *. rewrite chars_text, length_map.
  apply andb_true_iff in H as [Hlen Hhex].
  destruct (map_hex_same f Hf (chars s) Hhex) as [H1 H2].
  rewrite Hlen, H1, H2. split; reflexivity.
Qed.

(** X5. A key written in hexadecimal digits gives the same address
    whatever the case of its letters: in lower case, in upper case
    and as given. *)
Theorem X5_hex_key_ignores_letter_case :
  forall (key prefix : string),
    re_hex key = true ->
    pubKeyToAddress (KeyString (toLowerCase key)) prefix
    = pubKeyToAddress (KeyString key) prefix
    /\ pubKeyToAddress (KeyString (toUpperCase key)) prefix
       = pubKeyToAddress (KeyString key) prefix.
Proof.
  intros key prefix H. unfold pubKeyToAddress.
  destruct (re_hex_map lowerChar key) as [Hl El]; [| exact H |].
  { intros c Hc. destruct (lowerChar_hexDigit c Hc) as [Hlow Hsame].
    split; [apply lowerHex_isHex; exact Hlow | exact Hsame]. }
  destruct (re_hex_map upperChar key upperChar_hexDigit H) as [Hu Eu].
  fold (toLowerCase key) in Hl, El. fold (toUpperCase key) in Hu, Eu.
  rewrite (pubKeyBytes_re_hex _ Hl), (pubKeyBytes_re_hex _ Hu),
          (pubKeyBytes_re_hex _ H), El, Eu.
  split; reflexivity.
Qed.

Lemma hexBytes_odd bytes c : Forall isByte bytes ->
  hexBytes (hexChars bytes ++ [c]) = bytes.
Proof.
  intros Hbytes. induction Hbytes as [| b bytes Hb _ IH]; [reflexivity |].
  destruct (nibbles b Hb) as [Hhi Hlo].
  unfold hexChars. cbn [flat_map app hexBytes]. fold (hexChars bytes).
  rewrite !hexDigit_hexChar by assumption.
  rewrite IH. f_equal. unfold isByte in Hb.
  pose proof (Z.div_mod b 16 ltac:(lia)). lia.
Qed.

Lemma forallb_app_one (P : ascii -> bool) cs c :
  forallb P cs = true -> P c = true -> forallb P (cs ++ [c]) = true.
Proof.
  intros Hcs Hc. rewrite forallb_app, Hcs. cbn. rewrite Hc. reflexivity.
Qed.

(** X6. No length or parity check: a key written as the hexadecimal
    text of some bytes followed by one more digit is read as those
    bytes, the last digit is dropped without an error, and the
    address is the one of the shorter key. *)
Theorem X6_odd_hex_key_loses_its_last_digit :
  forall (bytes : list Z) (digit : ascii) (prefix : string),
    Forall isByte bytes -> isHexDigit digit = true ->
    pubKeyToAddress (KeyString (toHex bytes ++ String digit EmptyString)) prefix
    = pubKeyToAddress (KeyBytes bytes) prefix.
Proof.
  intros bytes digit prefix Hbytes Hdigit. unfold pubKeyToAddress.
  rewrite pubKeyBytes_re_hex.
  - unfold from_hex. rewrite chars_append, chars_toHex.
    cbn [chars list_ascii_of_string].
    rewrite hexBytes_odd by assumption. reflexivity.
  - unfold re_hex. rewrite chars_append, chars_toHex.
    cbn [chars list_ascii_of_string].
    rewrite length_app, Nat.add_comm. cbn [List.length Nat.add Nat.eqb negb andb].
    apply forallb_app_one; [| exact Hdigit].
    apply forallb_lower_hex, hexChars_lower. assumption.
Qed.

End AnyPackages.

Lemma X5_witness :
  pubKeyToAddress (KeyString (toLowerCase "02A9c4")) "sei"
  = pubKeyToAddress (KeyString "02A9c4") "sei"
  /\ pubKeyToAddress (KeyString (toUpperCase "02A9c4")) "sei"
     = pubKeyToAddress (KeyString "02A9c4") "sei".
Proof.
  apply (X5_hex_key_ignores_letter_case "02A9c4" "sei"). reflexivity.
Defined.

Lemma X6_witness :
  pubKeyToAddress (KeyString (toHex [2; 169] ++ "c")) "sei"
  = pubKeyToAddress (KeyBytes [2; 169]) "sei".
Proof.
  apply (X6_odd_hex_key_loses_its_last_digit [2; 169] "c"%char "sei").
  - repeat constructor; discriminate.
  - reflexivity.
Defined.

End AddressProperties.

Module EndpointProperties.
Import Text SeiDepositMonitor TextFacts.
Local Open Scope string_scope.

Lemma endsWith_append s pat : endsWith pat (s ++ pat) = true.
Proof.
  unfold endsWith. rewrite chars_append, length_app.
  replace (List.length (chars s) + List.length (chars pat)
           - List.length (chars pat))%nat
    with (List.length (chars s)) by lia.
  rewrite skipn_app, skipn_all, Nat.sub_diag.
  cbn [skipn app]. rewrite text_chars, String.eqb_refl, andb_true_r.
  apply Nat.leb_le. lia.
Qed.

Lemma normalizeWsEndpoint_ends endpoint :
  endsWith "/websocket" (normalizeWsEndpoint endpoint) = true.
Proof.
  unfold normalizeWsEndpoint.
  destruct (endsWith "/websocket" endpoint) eqn:E; [exact E |].
  apply endsWith_append.
Qed.

(** X7. The constructor stores the configured WebSocket endpoint as it
    is when it ends with [/websocket], and with [/websocket] added at its
    end when it does not; the other fields of the configuration are
    stored as given.  So the stored endpoint always ends with
    [/websocket], and building a monitor from the configuration of a
    monitor changes nothing. *)
Theorem X7_ws_endpoint_is_normalised_once :
  forall (config : MonitorConfig.t) (targetAddress : string),
    let this := new config targetAddress in
    let given := MonitorConfig.wsEndpoint config in
    let stored := MonitorConfig.wsEndpoint (SeiDepositMonitor.config this) in
    (endsWith "/websocket" given = true -> stored = given)
    /\ (endsWith "/websocket" given = false -> stored = given ++ "/websocket")
    /\ endsWith "/websocket" stored = true
    /\ MonitorConfig.restEndpoint (SeiDepositMonitor.config this)
       = MonitorConfig.restEndpoint config
    /\ MonitorConfig.prefix (SeiDepositMonitor.config this)
       = MonitorConfig.prefix config
    /\ MonitorConfig.evmRpcEndpoint (SeiDepositMonitor.config this)
       = MonitorConfig.evmRpcEndpoint config
    /\ new (SeiDepositMonitor.config this) targetAddress = this.
Proof.
  intros config targetAddress this given stored.
  split; [| split; [| split; [| split; [| split; [| split]]]]]; try reflexivity.
  - intros Hends. unfold stored, this, new, normalizeWsEndpoint.
    cbn [SeiDepositMonitor.config MonitorConfig.wsEndpoint]. fold given.
    rewrite Hends. reflexivity.
  - intros Hends. unfold stored, this, new, normalizeWsEndpoint.
    cbn [SeiDepositMonitor.config MonitorConfig.wsEndpoint]. fold given.
    rewrite Hends. reflexivity.
  - apply normalizeWsEndpoint_ends.
  - unfold this, new. cbn [SeiDepositMonitor.config MonitorConfig.wsEndpoint
                           MonitorConfig.restEndpoint MonitorConfig.prefix
                           MonitorConfig.evmRpcEndpoint].
    unfold normalizeWsEndpoint at 1.
    rewrite normalizeWsEndpoint_ends. reflexivity.
Qed.

End EndpointProperties.

Module CallbackProperties.
Import Effects SeiDepositMonitor Spec DispatchFacts.














Lemma throwsOnce_orderly : orderly Scenario.throwsOnce.
Proof.
  intros cb seen event. unfold Scenario.throwsOnce.
  destruct cb as [| [| cb]]; try (split; [reflexivity | exact I]).
  destruct seen; split; try reflexivity; exact I.
Qed.









End CallbackProperties.

Module ParserProperties.
Import SeiDepositMonitor Spec ListFacts.
Local Open Scope string_scope.

(** The loop over the attributes, two at a time, keeps the pairs by
    position that name the watched address. *)
Lemma scanPairs_aligned this tx events actionType : forall attrs,
  scanPairs this tx events actionType attrs
  = map (fun pair => detail tx events actionType (Attribute.value (snd pair))
                            (Attribute.value (fst pair)))
        (filter (isDepositPair this) (alignedPairs attrs)).
Proof.
  induction attrs as [| x | r a rest IH] using list_ind2; try reflexivity.
  cbn [scanPairs alignedPairs filter]. unfold isDepositPair at 1. cbn [fst snd].
  destruct (hasKey "receiver" r); cbn [negb orb andb]; [| exact IH].
  destruct (hasKey "amount" a); cbn [negb orb andb]; [| exact IH].
  destruct (String.eqb (Attribute.value r) (finalAddress this));
    [cbn [map fst snd]; f_equal |]; exact IH.
Qed.

Lemma actionTypeOf_firstValue events :
  actionTypeOf events
  = match firstValue "message" "action" events with
    | Some action => action
    | None => "unknown"
    end.
Proof.
  unfold actionTypeOf, firstValue, isType, hasKey.
  destruct (find _ events) as [event |]; [| reflexivity].
  destruct (find _ (TxLogEvent.attributes event)); reflexivity.
Qed.

Lemma extractSender_firstValue events :
  extractSender events
  = match firstValue "message" "sender" events with
    | Some sender => Some sender
    | None => firstValue "transfer" "sender" events
    end.
Proof.
  unfold extractSender, firstValue, isType, hasKey.
  destruct (find (fun e => String.eqb (TxLogEvent.type e) "message") events)
    as [event |].
  - destruct (find _ (TxLogEvent.attributes event)); reflexivity.
  - reflexivity.
Qed.

Lemma scanLog_candidates this tx log :
  scanLog this tx log = candidatesOfGroup this tx log.
Proof.
  unfold scanLog, candidatesOfGroup. cbv zeta.
  apply flat_map_ext. intros cre.
  rewrite scanPairs_aligned. unfold detail.
  rewrite actionTypeOf_firstValue, extractSender_firstValue. reflexivity.
Qed.

(** X11. [parseTransactionDetails] returns, in order and once each, the
    candidates of the log groups of the transaction as
    [candidatesOfGroup] describes them: one for every pair at positions
    2i and 2i+1 of a [coin_received] event whose keys are [receiver] and
    [amount] and whose receiver is the watched address, with the amount
    and receiver of the pair, the fields of the transaction, and the
    action type and sender found in its own log group. *)
Theorem X11_candidates_are_the_aligned_pairs :
  forall (this : t) (tx : TxResponseItem.t),
    parseTransactionDetails this tx
    = flat_map (candidatesOfGroup this tx) (logsOf tx).
Proof.
  intros this tx. unfold parseTransactionDetails.
  apply flat_map_ext. intros log. apply scanLog_candidates.
Qed.

Lemma candidate_fields this tx d :
  In d (parseTransactionDetails this tx) ->
  TransactionDetails.receiver d = finalAddress this
  /\ TransactionDetails.hash d = TxResponseItem.txhash tx
  /\ TransactionDetails.height d = TxResponseItem.height tx
  /\ TransactionDetails.gasUsed d = TxResponseItem.gas_used tx
  /\ TransactionDetails.gasWanted d = TxResponseItem.gas_wanted tx
  /\ TransactionDetails.timestamp d = TxResponseItem.timestamp tx
  /\ TransactionDetails.raw d = tx.
Proof.
  intros Hin. unfold parseTransactionDetails in Hin.
  apply in_flat_map in Hin as (log & _ & Hin). unfold scanLog in Hin.
  apply in_flat_map in Hin as (cre & _ & Hin).
  rewrite scanPairs_aligned in Hin.
  apply in_map_iff in Hin as (pair & <- & Hpair).
  apply filter_In in Hpair as [_ Hp].
  unfold isDepositPair in Hp.
  apply andb_true_iff in Hp as [_ Hrecv]. apply String.eqb_eq in Hrecv.
  cbn. auto 8.
Qed.

(** X10. Every candidate returned for a transaction names the watched
    address as its receiver and carries the hash, height, gas figures
    and timestamp of that transaction, and the transaction itself as
    [raw]. *)
Theorem X10_candidates_name_the_watched_address :
  forall (this : t) (tx : TxResponseItem.t) (d : TransactionDetails.t),
    In d (parseTransactionDetails this tx) ->
    TransactionDetails.receiver d = finalAddress this
    /\ TransactionDetails.hash d = TxResponseItem.txhash tx
    /\ TransactionDetails.height d = TxResponseItem.height tx
    /\ TransactionDetails.gasUsed d = TxResponseItem.gas_used tx
    /\ TransactionDetails.gasWanted d = TxResponseItem.gas_wanted tx
    /\ TransactionDetails.timestamp d = TxResponseItem.timestamp tx
    /\ TransactionDetails.raw d = tx.
Proof. intros this tx d Hin. apply candidate_fields. exact Hin. Qed.

Lemma X10_witness :
  let d := DepositEvent.transaction Scenario.depositEvent11 in
  TransactionDetails.receiver d = finalAddress Scenario.watcher
  /\ TransactionDetails.hash d = TxResponseItem.txhash Scenario.deposit11
  /\ TransactionDetails.height d = TxResponseItem.height Scenario.deposit11
  /\ TransactionDetails.gasUsed d = TxResponseItem.gas_used Scenario.deposit11
  /\ TransactionDetails.gasWanted d = TxResponseItem.gas_wanted Scenario.deposit11
  /\ TransactionDetails.timestamp d = TxResponseItem.timestamp Scenario.deposit11
  /\ TransactionDetails.raw d = Scenario.deposit11.
Proof.
  apply (X10_candidates_name_the_watched_address
           Scenario.watcher Scenario.deposit11
           (DepositEvent.transaction Scenario.depositEvent11)).
  left. reflexivity.
Defined.

Lemma extractSender_origin events sender :
  extractSender events = Some sender ->
  exists event attr,
    In event events
    /\ (isType "message" event = true \/ isType "transfer" event = true)
    /\ In attr (TxLogEvent.attributes event)
    /\ hasKey "sender" attr = true
    /\ Attribute.value attr = sender.
Proof.
  unfold extractSender. cbv zeta. intros Hfrom.
  assert (forall name,
             match find (isType name) events with
             | Some event =>
                 match find (hasKey "sender") (TxLogEvent.attributes event) with
                 | Some senderAttr => Some (Attribute.value senderAttr)
                 | None => None
                 end
             | None => None
             end = Some sender ->
             exists event attr,
               In event events /\ isType name event = true
               /\ In attr (TxLogEvent.attributes event)
               /\ hasKey "sender" attr = true
               /\ Attribute.value attr = sender) as Hone.
  { intros name Hname.
    destruct (find (isType name) events) as [event |] eqn:Eevent; [| discriminate].
    destruct (find (hasKey "sender") (TxLogEvent.attributes event)) as [attr |] eqn:Eattr;
      [| discriminate].
    injection Hname as <-.
    apply find_some in Eevent as [Hevent Htype].
    apply find_some in Eattr as [Hattr Hkey].
    exists event, attr. auto. }
  destruct (match find (isType "message") events with
            | Some event =>
                match find (hasKey "sender") (TxLogEvent.attributes event) with
                | Some senderAttr => Some (Attribute.value senderAttr)
                | None => None
                end
            | None => None
            end) as [found |] eqn:Emessage.
  - injection Hfrom as <-.
    destruct (Hone "message" Emessage) as (event & attr & H1 & H2 & H3).
    exists event, attr. auto.
  - destruct (Hone "transfer" Hfrom) as (event & attr & H1 & H2 & H3).
    exists event, attr. auto.
Qed.

(** X25. Every candidate is a candidate of one log group of the
    transaction, and its action type and its sender are those of that
    same group: the sender, when there is one, is the value of a
    [sender] attribute of a [message] or [transfer] event of the group
    the pair was found in. *)
Theorem X25_sender_comes_from_the_same_log_group :
  forall (this : t) (tx : TxResponseItem.t) (d : TransactionDetails.t),
    In d (parseTransactionDetails this tx) ->
    exists log,
      In log (logsOf tx)
      /\ In d (candidatesOfGroup this tx log)
      /\ TransactionDetails.type d = actionTypeOf (TxLog.events log)
      /\ TransactionDetails.sender d = extractSender (TxLog.events log)
      /\ forall sender,
          TransactionDetails.sender d = Some sender ->
          exists event attr,
            In event (TxLog.events log)
            /\ (isType "message" event = true \/ isType "transfer" event = true)
            /\ In attr (TxLogEvent.attributes event)
            /\ hasKey "sender" attr = true
            /\ Attribute.value attr = sender.
Proof.
  intros this tx d Hin. unfold parseTransactionDetails in Hin.
  apply in_flat_map in Hin as (log & Hlog & Hin).
  exists log. split; [exact Hlog |].
  split; [rewrite <- scanLog_candidates; exact Hin |].
  unfold scanLog in Hin. apply in_flat_map in Hin as (cre & _ & Hin).
  rewrite scanPairs_aligned in Hin.
  apply in_map_iff in Hin as (pair & <- & _).
  cbn [detail TransactionDetails.type TransactionDetails.sender].
  split; [reflexivity |]. split; [reflexivity |].
  intros sender. apply extractSender_origin.
Qed.

Lemma X25_witness :
  exists log,
    In log (logsOf Scenario.deposit11)
    /\ In (DepositEvent.transaction Scenario.depositEvent11)
          (candidatesOfGroup Scenario.watcher Scenario.deposit11 log)
    /\ TransactionDetails.type (DepositEvent.transaction Scenario.depositEvent11)
       = actionTypeOf (TxLog.events log)
    /\ TransactionDetails.sender (DepositEvent.transaction Scenario.depositEvent11)
       = extractSender (TxLog.events log)
    /\ forall sender,
        TransactionDetails.sender (DepositEvent.transaction Scenario.depositEvent11)
        = Some sender ->
        exists event attr,
          In event (TxLog.events log)
          /\ (isType "message" event = true \/ isType "transfer" event = true)
          /\ In attr (TxLogEvent.attributes event)
          /\ hasKey "sender" attr = true
          /\ Attribute.value attr = sender.
Proof.
  apply (X25_sender_comes_from_the_same_log_group
           Scenario.watcher Scenario.deposit11
           (DepositEvent.transaction Scenario.depositEvent11)).
  left. reflexivity.
Defined.

Lemma amount_is_not_receiver (a : Attribute.t) :
  hasKey "amount" a = true -> hasKey "receiver" a = false.
Proof.
  unfold hasKey. intros H. apply String.eqb_eq in H. rewrite H. reflexivity.
Qed.

(** Behind an attribute that is not a receiver, well-formed pairs are
    all read one position off. *)
Lemma scanPairs_shifted this tx events actionType : forall pairs stray,
  hasKey "receiver" stray = false ->
  Forall (fun p => hasKey "receiver" (fst p) = true
                   /\ hasKey "amount" (snd p) = true) pairs ->
  scanPairs this tx events actionType (stray :: flatPairs pairs) = [].
Proof.
  induction pairs as [| [r a] pairs IH]; intros stray Hstray Hpairs; [reflexivity |].
  inversion Hpairs as [| ? ? [_ Ha] Hrest]; subst. cbn [fst snd] in Ha.
  cbn [flatPairs flat_map app fst snd scanPairs]. fold (flatPairs pairs).
  rewrite Hstray. cbn [negb orb].
  apply IH; [apply amount_is_not_receiver; exact Ha | exact Hrest].
Qed.

(** X12. Pairs are found by position, not by key: when the attribute
    list of the only [coin_received] event starts with one attribute
    that is not a receiver, followed by (receiver, amount) pairs, every
    pair is read one position off and no candidate is returned, even if
    the pairs name the watched address. *)
Theorem X12_pairs_are_read_by_position :
  forall (this : t) (tx : TxResponseItem.t) (log : TxLog.t) (cre : TxLogEvent.t)
         (stray : Attribute.t) (pairs : list (Attribute.t * Attribute.t)),
    logsOf tx = [log] ->
    filter (isType "coin_received") (TxLog.events log) = [cre] ->
    TxLogEvent.attributes cre = stray :: flatPairs pairs ->
    hasKey "receiver" stray = false ->
    Forall (fun p => hasKey "receiver" (fst p) = true
                     /\ hasKey "amount" (snd p) = true) pairs ->
    parseTransactionDetails this tx = [].
Proof.
  intros this tx log cre stray pairs Hlogs Hcre Hattrs Hstray Hpairs.
  unfold parseTransactionDetails. rewrite Hlogs. cbn [flat_map].
  rewrite app_nil_r. unfold scanLog. rewrite Hcre. cbn [flat_map].
  rewrite app_nil_r, Hattrs.
  apply scanPairs_shifted; assumption.
Qed.

(** [txShifted]: the pair for the watched address is there, behind a
    [msg_index] attribute. *)
Lemma X12_witness :
  parseTransactionDetails Scenario.watcher Scenario.txShifted = [].
Proof.
  apply (X12_pairs_are_read_by_position
           Scenario.watcher Scenario.txShifted
           {| TxLog.msg_index := 0; TxLog.log := EmptyString;
              TxLog.events := [Scenario.coinReceived Scenario.shiftedPairs;
                               Scenario.message "/cosmos.bank.v1beta1.MsgSend"] |}
           (Scenario.coinReceived Scenario.shiftedPairs)
           {| Attribute.key := "msg_index"; Attribute.value := "0" |}
           [(receiverAttr "sei1other", amountAttr "23usei");
            (receiverAttr Scenario.watched, amountAttr "100000usei")]).
  - reflexivity.
  - reflexivity.
  - reflexivity.
  - reflexivity.
  - repeat constructor.
Defined.

End ParserProperties.

Module ResolverProperties.
Import SeiDepositMonitor Spec.
Local Open Scope string_scope.

Section AnyPackage.
Context {bech32 : Bech32Package}.

(** X13. The resolved address depends on the code lookup and on the
    wallet registry only: two networks that answer these two alike
    give the same result whatever they answer for the transaction
    count, which is fetched and parsed but decides nothing. *)
Theorem X13_transaction_count_decides_nothing :
  forall (net1 net2 : Net.t) (this : t) (hexAddr : string),
    sameCodeAndWallet net1 net2 ->
    resolveEvmAddress net1 this hexAddr = resolveEvmAddress net2 this hexAddr.
Proof.
  intros net1 net2 this hexAddr [Hcode Hwallet].
  unfold resolveEvmAddress, ethGetCode, lookupChainWallet. cbv zeta.
  rewrite Hcode, Hwallet.
  destruct (match
               match Net.eth_getCode net2 _ hexAddr with
               | Net.RpcUnreachable => None
               | Net.RpcAnswer (Some _) _ => None
               | Net.RpcAnswer None result => Net.truthy result
               end
             with
             | Some code => negb (code =? "0x")
             | None => false
             end); [reflexivity |].
  destruct (match Net.get_wallet net2 _ with
            | Net.WalletUnreachable => None
            | Net.WalletAnswer true result => Net.truthy result
            | Net.WalletAnswer false _ => None
            end); [reflexivity |].
  destruct (Num.eqb _ _); destruct (Num.eqb _ _); reflexivity.
Qed.

(** X14. For an account without code, a wallet the registry answers
    is returned as it is: the identifier and the prefix are not
    looked at, nothing is derived and nothing can throw. *)
Theorem X14_registered_wallet_is_returned_as_answered :
  forall (net : Net.t) (this : t) (hexAddr wallet : string),
    codeIsEmpty (Net.eth_getCode net (evmRpcOf this) hexAddr) ->
    Net.get_wallet net (walletUrl hexAddr) = Net.WalletAnswer true (Some wallet) ->
    wallet <> EmptyString ->
    resolveEvmAddress net this hexAddr = Returns wallet.
Proof.
  intros net this hexAddr wallet Hcode Hwallet Hne.
  assert (lookupChainWallet net hexAddr = Some wallet) as Hlookup.
  { unfold lookupChainWallet. cbv zeta. fold (walletUrl hexAddr).
    rewrite Hwallet. unfold Net.truthy.
    destruct (String.eqb wallet EmptyString) eqn:E; [| reflexivity].
    apply String.eqb_eq in E. contradiction. }
  unfold resolveEvmAddress. cbv zeta. fold (evmRpcOf this).
  rewrite Hlookup.
  destruct (ResolverFacts.ethGetCode_empty net (evmRpcOf this) hexAddr Hcode)
    as [-> | ->]; reflexivity.
Qed.

(** X15. When the code lookup answers code other than [0x], the
    address is the one derived from the identifier, whatever the
    registry and the transaction count answer. *)
Theorem X15_contract_address_is_derived :
  forall (net : Net.t) (this : t) (hexAddr code : string),
    Net.eth_getCode net (evmRpcOf this) hexAddr = Net.RpcAnswer None (Some code) ->
    code <> EmptyString -> code <> "0x" ->
    resolveEvmAddress net this hexAddr
    = AddressUtils.ethAddressToBech32 hexAddr (MonitorConfig.prefix (config this)).
Proof.
  intros net this hexAddr code Hcode Hne H0x.
  unfold resolveEvmAddress. cbv zeta. fold (evmRpcOf this).
  unfold ethGetCode. rewrite Hcode. unfold Net.truthy.
  destruct (String.eqb code EmptyString) eqn:E;
    [apply String.eqb_eq in E; contradiction |].
  destruct (String.eqb code "0x") eqn:E0;
    [apply String.eqb_eq in E0; contradiction |].
  reflexivity.
Qed.

End AnyPackage.

Lemma X13_witness :
  resolveEvmAddress Scenario.registeredAccount Scenario.watcher Scenario.hexOnes
  = resolveEvmAddress Scenario.registeredAccountLater Scenario.watcher
                      Scenario.hexOnes.
Proof.
  apply (X13_transaction_count_decides_nothing
           Scenario.registeredAccount Scenario.registeredAccountLater
           Scenario.watcher Scenario.hexOnes).
  split; reflexivity.
Defined.

Lemma X14_witness :
  resolveEvmAddress Scenario.registeredAccount Scenario.watcher Scenario.hexOnes
  = Returns Scenario.watched.
Proof.
  apply (X14_registered_wallet_is_returned_as_answered
           Scenario.registeredAccount Scenario.watcher Scenario.hexOnes
           Scenario.watched).
  - left. reflexivity.
  - reflexivity.
  - discriminate.
Defined.

Lemma X15_witness :
  resolveEvmAddress Scenario.contractAccount Scenario.watcher Scenario.hexOnes
  = AddressUtils.ethAddressToBech32 Scenario.hexOnes "sei".
Proof.
  apply (X15_contract_address_is_derived
           Scenario.contractAccount Scenario.watcher Scenario.hexOnes
           "0x6080604052").
  - reflexivity.
  - discriminate.
  - discriminate.
Defined.

End ResolverProperties.

Module PollProperties.
Import Effects SeiDepositMonitor Spec.
Local Open Scope string_scope.

(** *** Orderly callbacks *)

(** The calls made for the candidates of one transaction. *)
Lemma details_deliveries fuel behaviour this :
  orderly behaviour -> (List.length (callbacks this) <= fuel)%nat ->
  forall details w,
  exists w',
    forM details
         (fun detail =>
            notifyCallbacks fuel behaviour
              {| DepositEvent.type := determineDepositType detail;
                 DepositEvent.transaction := detail |}) (this, w)
    = (Done tt, (this, w'))
    /\ calls w'
       = (calls w
          ++ flat_map (fun detail => map (fun cb => (cb, eventOf detail))
                                         (callbacks this))
                      details)%list.
Proof.
  intros Horderly Hfuel.
  induction details as [| detail details IH]; intros w.
  - exists w. cbn. rewrite app_nil_r. auto.
  - cbn [forM flat_map]. unfold bindM.
    destruct (DispatchFacts.notifyCallbacks_orderly
                behaviour (eventOf detail) fuel this w Horderly Hfuel)
      as (lines & Hrun).
    unfold eventOf in Hrun at 1. rewrite Hrun.
    destruct (IH {| calls := calls w ++ map (fun cb => (cb, eventOf detail))
                                             (callbacks this);
                    errors := errors w ++ lines |}) as (w' & -> & Hcalls).
    exists w'. split; [reflexivity |].
    rewrite Hcalls. cbn [calls]. rewrite <- app_assoc. reflexivity.
Qed.

Lemma txs_deliveries fuel behaviour this :
  orderly behaviour -> (List.length (callbacks this) <= fuel)%nat ->
  forall txs w,
  exists w',
    forM txs (dispatch fuel behaviour) (this, w) = (Done tt, (this, w'))
    /\ calls w' = (calls w ++ deliveries this txs)%list.
Proof.
  intros Horderly Hfuel.
  induction txs as [| tx txs IH]; intros w.
  - exists w. cbn. rewrite app_nil_r. auto.
  - cbn [forM]. unfold bindM at 1, dispatch at 1. unfold bindM at 1, get.
    cbn [fst].
    destruct (details_deliveries fuel behaviour this Horderly Hfuel
                (parseTransactionDetails this tx) w)
      as (w1 & -> & Hcalls1).
    destruct (IH w1) as (w' & -> & Hcalls).
    exists w'. split; [reflexivity |].
    rewrite Hcalls, Hcalls1. unfold deliveries. cbn [flat_map].
    rewrite <- app_assoc. reflexivity.
Qed.



(** With orderly callbacks a poll always ends normally and leaves the
    callback set as it was. *)
Lemma poll_orderly fuel behaviour this net last w :
  orderly behaviour -> (List.length (callbacks this) <= fuel)%nat ->
  exists next w', poll fuel behaviour net last (this, w) = (Done next, (this, w')).
Proof.
  intros Horderly Hfuel.
  unfold poll. unfold bindM at 1, get. cbv zeta. cbn [fst].
  destruct (isMonitoring this); cbn [negb]; [| unfold ret; eauto].
  unfold tryM, bindM, lift, ret, logger_error.
  unfold getLatestBlockHeight, getTransactions. cbv zeta.
  destruct (Net.get_block net _) as [| height]; [cbn; eauto |].
  destruct (Num.gt (Num.parseInt height 10) last); [| eauto].
  destruct (Net.get_txs net _) as [| tx_responses]; [cbn; eauto |].
  destruct (txs_deliveries fuel behaviour this Horderly Hfuel
              (orEmpty tx_responses) w) as (w' & -> & _).
  eauto.
Qed.

Lemma polls_orderly fuel behaviour this nets last w :
  orderly behaviour -> (List.length (callbacks this) <= fuel)%nat ->
  exists final w',
    polls fuel behaviour nets last (this, w) = (Done final, (this, w')).
Proof.
  intros Horderly Hfuel.
  revert last w. induction nets as [| net nets IH]; intros last w.
  - exists last, w. reflexivity.
  - cbn [polls]. unfold bindM.
    destruct (poll_orderly fuel behaviour this net last w Horderly Hfuel)
      as (next & w1 & ->).
    apply IH.
Qed.

(** X26. With orderly callbacks, whatever the endpoints answer, every
    poll of a sequence ends normally: none throws, none stays pending,
    and the callback set is left as it was. *)
Theorem X26_polling_goes_on_with_orderly_callbacks :
  forall (fuel : nat) (behaviour : Behaviour) (this : t) (nets : list Net.t)
         (lastCheckedBlock : Num.t) (w : World),
    orderly behaviour ->
    (List.length (callbacks this) <= fuel)%nat ->
    exists final w',
      polls fuel behaviour nets lastCheckedBlock (this, w)
      = (Done final, (this, w')).
Proof.
  intros fuel behaviour this nets last w. apply polls_orderly.
Qed.

Lemma X26_witness :
  exists final w',
    polls 1 Scenario.throwsOnce [Scenario.restAt "11"; Scenario.offline]
          (Num.Int 10) (Scenario.watcher, Scenario.quiet)
    = (Done final, (Scenario.watcher, w')).
Proof.
  apply (X26_polling_goes_on_with_orderly_callbacks
           1 Scenario.throwsOnce Scenario.watcher
           [Scenario.restAt "11"; Scenario.offline] (Num.Int 10) Scenario.quiet).
  - exact CallbackProperties.throwsOnce_orderly.
  - cbn. lia.
Defined.

(** *** Failures of the endpoints *)

(** X17. When the head of the chain cannot be fetched, or the search
    fails after a new head was seen, the poll ends normally with the
    cursor where it was, one line in the error log and no callback
    called: the same blocks are looked at again by the next poll. *)
Theorem X17_failed_poll_keeps_the_cursor :
  forall (fuel : nat) (behaviour : Behaviour) (this : t) (net : Net.t)
         (lastCheckedBlock : Num.t) (msg : string) (w : World),
    isMonitoring this = true ->
    getLatestBlockHeight this net = Throws msg
    \/ (exists currentHeight,
           getLatestBlockHeight this net = Returns currentHeight
           /\ Num.gt currentHeight lastCheckedBlock = true
           /\ getTransactions this net (Num.succ lastCheckedBlock) currentHeight
              = Throws msg) ->
    poll fuel behaviour net lastCheckedBlock (this, w)
    = (Done lastCheckedBlock,
       (this,
        {| calls := calls w;
           errors := (errors w ++ [("REST polling error: " ++ msg)%string])%list |})).
Proof.
  intros fuel behaviour this net last msg w Hon Hfail.
  unfold poll. unfold bindM at 1, get. cbv zeta. cbn [fst]. rewrite Hon. cbn [negb].
  unfold tryM, bindM, lift, ret, logger_error.
  destruct Hfail as [-> | (head & -> & -> & ->)]; reflexivity.
Qed.

Lemma X17_witness :
  poll 1 Scenario.alwaysCompletes (Scenario.searchDown "11") (Num.Int 10)
       (Scenario.watcher, Scenario.quiet)
  = (Done (Num.Int 10),
     (Scenario.watcher,
      {| calls := calls Scenario.quiet;
         errors := (errors Scenario.quiet
                    ++ [("REST polling error: " ++ "request failed")%string])%list |})).
Proof.
  apply (X17_failed_poll_keeps_the_cursor
           1 Scenario.alwaysCompletes Scenario.watcher (Scenario.searchDown "11")
           (Num.Int 10) "request failed" Scenario.quiet).
  - reflexivity.
  - right. exists (Num.Int 11). repeat split; reflexivity.
Defined.

Lemma gt_NaN head : Num.gt head Num.NaN = false.
Proof. destruct head as [| z | []]; reflexivity. Qed.

Lemma polls_NaN fuel behaviour : forall nets this w,
  exists w',
    polls fuel behaviour nets Num.NaN (this, w) = (Done Num.NaN, (this, w'))
    /\ calls w' = calls w.
Proof.
  induction nets as [| net nets IH]; intros this w.
  - exists w. auto.
  - cbn [polls]. unfold bindM at 1.
    assert (exists w1, poll fuel behaviour net Num.NaN (this, w)
                       = (Done Num.NaN, (this, w1))
                       /\ calls w1 = calls w) as (w1 & -> & Hcalls1).
    { unfold poll. unfold bindM at 1, get. cbv zeta. cbn [fst].
      destruct (isMonitoring this); cbn [negb]; [| exists w; auto].
      unfold tryM, bindM, lift, ret, logger_error, getLatestBlockHeight.
      cbv zeta.
      destruct (Net.get_block net _) as [| height].
      - eexists. split; reflexivity.
      - rewrite gt_NaN. exists w. auto. }
    destruct (IH this w1) as (w' & -> & Hcalls).
    exists w'. split; [reflexivity | congruence].
Qed.

(** X18. When the height answered to the first request of
    [startRestPolling] is not a number, the cursor is [NaN] and stays
    so: no poll ever searches for transactions and no callback is ever
    called by the poller, whatever the chain does afterwards. *)
Theorem X18_unreadable_first_height_stops_delivery :
  forall (fuel : nat) (behaviour : Behaviour) (this : t) (first : Net.t)
         (nets : list Net.t) (height : string) (w : World),
    Net.get_block first (MonitorConfig.restEndpoint (config this) ++ "/blocks/latest")
    = Net.BlockAnswer height ->
    Num.parseInt height 10 = Num.NaN ->
    exists w',
      startRestPolling fuel behaviour first nets (this, w)
      = (Done Num.NaN, (this, w'))
      /\ calls w' = calls w.
Proof.
  intros fuel behaviour this first nets height w Hblock Hnan.
  unfold startRestPolling. unfold bindM at 1, get. cbn [fst].
  unfold bindM, lift, getLatestBlockHeight. cbv zeta.
  rewrite Hblock, Hnan. apply polls_NaN.
Qed.

Lemma X18_witness :
  exists w',
    startRestPolling 1 Scenario.alwaysCompletes (Scenario.restAt "latest")
                     [Scenario.restAt "11"; Scenario.restAt "12"]
                     (Scenario.watcher, Scenario.quiet)
    = (Done Num.NaN, (Scenario.watcher, w'))
    /\ calls w' = calls Scenario.quiet.
Proof.
  apply (X18_unreadable_first_height_stops_delivery
           1 Scenario.alwaysCompletes Scenario.watcher (Scenario.restAt "latest")
           [Scenario.restAt "11"; Scenario.restAt "12"] "latest" Scenario.quiet);
    reflexivity.
Defined.

(** *** Whatever the callbacks do *)

(** X19. Whatever the endpoints answer and whatever the callbacks do,
    a sequence of polls that ends normally leaves the cursor where it
    started or above. *)
Theorem X19_cursor_never_moves_back :
  forall (fuel : nat) (behaviour : Behaviour) (nets : list Net.t)
         (lastCheckedBlock final : Num.t) (s s' : State),
    polls fuel behaviour nets lastCheckedBlock s = (Done final, s') ->
    final = lastCheckedBlock \/ Num.gt final lastCheckedBlock = true.
Proof.
  intros fuel behaviour nets last final s s' Hrun.
  pose proof (PollFacts.polls_cursor fuel behaviour nets last s) as Hcursor.
  rewrite Hrun in Hcursor. exact Hcursor.
Qed.

Lemma X19_witness :
  fst (polls 5 Scenario.comesBack [Scenario.restAt "11"; Scenario.restAt "12"]
             (Num.Int 10) (Scenario.watcher, Scenario.quiet))
  = Done (Num.Int 12)
  /\ (Num.Int 12 = Num.Int 10 \/ Num.gt (Num.Int 12) (Num.Int 10) = true).
Proof.
  split; [vm_compute; reflexivity |].
  apply (X19_cursor_never_moves_back
           5 Scenario.comesBack [Scenario.restAt "11"; Scenario.restAt "12"]
           (Num.Int 10) (Num.Int 12) (Scenario.watcher, Scenario.quiet)
           (snd (polls 5 Scenario.comesBack
                       [Scenario.restAt "11"; Scenario.restAt "12"]
                       (Num.Int 10) (Scenario.watcher, Scenario.quiet)))).
  vm_compute. reflexivity.
Defined.

(** What every step of the poller keeps true. *)
Section Invariant.
Variable invariant : State -> Prop.


Lemma keeps_pending {A} : keeps invariant (@pending State A).
Proof. intros s Hs. exact Hs. Qed.






End Invariant.

Section Deliveries.
Variable fuel : nat.
Variable behaviour : Behaviour.
Variable this0 : t.
Variable w0 : World.







End Deliveries.



End PollProperties.

Module SupervisorProperties.
Import SeiDepositMonitor Supervisor Spec.

Lemma reconnect_oneTimer s : oneTimer s -> oneTimer (reconnect s).
Proof.
  intros Hone. right. exists (nextTimer s). unfold reconnect.
  destruct Hone as [Hnone | (timer & Hsome & Hheld)].
  - destruct (reconnectTimeout s) as [timer |]; cbn; rewrite Hnone; auto.
  - rewrite Hheld. cbn. rewrite Hsome. cbn. rewrite Nat.eqb_refl. auto.
Qed.

Lemma reconnect_timers s : oneTimer s -> timers (reconnect s) = [nextTimer s].
Proof.
  intros Hone. unfold reconnect.
  destruct Hone as [Hnone | (timer & Hsome & Hheld)].
  - destruct (reconnectTimeout s) as [timer |]; cbn; rewrite Hnone; auto.
  - rewrite Hheld. cbn. rewrite Hsome. cbn. rewrite Nat.eqb_refl. auto.
Qed.

Lemma startWebSocket_oneTimer constructs s :
  oneTimer s -> oneTimer (startWebSocket constructs s).
Proof.
  intros Hone. unfold startWebSocket. destruct constructs.
  - exact Hone.
  - apply reconnect_oneTimer. exact Hone.
Qed.

Lemma onTimeout_oneTimer timer constructs s :
  oneTimer s -> oneTimer (onTimeout timer constructs s).
Proof.
  intros Hone. unfold onTimeout.
  destruct (existsb (Nat.eqb timer) (timers s)) eqn:Epending; [| exact Hone].
  assert (oneTimer (clearTimeout timer s)) as Hcleared.
  { left. destruct Hone as [Hnone | (pending & Hsome & _)].
    - cbn. rewrite Hnone. reflexivity.
    - rewrite Hsome in Epending. cbn in Epending. rewrite orb_false_r in Epending.
      cbn. rewrite Hsome. cbn. rewrite Epending. reflexivity. }
  cbn [monitor clearTimeout].
  destruct (isMonitoring (monitor s)); [| exact Hcleared].
  apply startWebSocket_oneTimer. exact Hcleared.
Qed.

Lemma stop_timers s :
  timers (Supervisor.stop s)
  = match reconnectTimeout s with
    | Some timer => filter (fun pending => negb (Nat.eqb timer pending)) (timers s)
    | None => timers s
    end.
Proof.
  unfold Supervisor.stop. cbn. destruct (ws s); cbn;
    destruct (reconnectTimeout s); reflexivity.
Qed.

Lemma stop_oneTimer s : oneTimer s -> oneTimer (Supervisor.stop s).
Proof.
  intros Hone. left. rewrite stop_timers.
  destruct Hone as [Hnone | (timer & Hsome & Hheld)].
  - rewrite Hnone. destruct (reconnectTimeout s); reflexivity.
  - rewrite Hheld, Hsome. cbn. rewrite Nat.eqb_refl. reflexivity.
Qed.

Section AnyPackage.
Context {bech32 : Bech32Package}.

Lemma start_oneTimer net constructs s s' :
  oneTimer s -> start net constructs s = Returns s' -> oneTimer s'.
Proof.
  intros Hone. unfold start. cbv zeta.
  destruct (isMonitoring (monitor s)); [intros [= <-]; exact Hone |].
  destruct (if AddressUtils.isEthAddress (targetAddress (monitor s))
            then resolveEvmAddress net (monitor s) (targetAddress (monitor s))
            else Returns (finalAddress (monitor s))) as [address | msg |];
    cbn [bind]; try discriminate.
  intros [= <-]. apply startWebSocket_oneTimer. exact Hone.
Qed.

Lemma step_oneTimer s event : oneTimer s -> oneTimer (step s event).
Proof.
  intros Hone. destruct event as [net constructs | | socket | socket | timer constructs];
    cbn [step].
  - destruct (start net constructs s) as [s' | msg |] eqn:Estart; try exact Hone.
    apply (start_oneTimer net constructs s s' Hone Estart).
  - apply stop_oneTimer. exact Hone.
  - unfold onError. destruct (existsb _ _); [apply reconnect_oneTimer |]; exact Hone.
  - unfold onClose. destruct (existsb _ _); [apply reconnect_oneTimer |]; exact Hone.
  - apply onTimeout_oneTimer. exact Hone.
Qed.

Lemma run_oneTimer : forall events s, oneTimer s -> oneTimer (run events s).
Proof.
  induction events as [| event events IH]; intros s Hone; [exact Hone |].
  cbn [run fold_left]. apply IH, step_oneTimer, Hone.
Qed.

(** X21. Whatever sequence of calls to [start] and [stop], socket
    errors and closes, and timers firing a monitor goes through from
    its construction, at most one reconnect timer is pending at any
    moment, and it is the one held in [reconnectTimeout]: an error
    followed by the close of the same socket does not leave two. *)
Theorem X21_at_most_one_reconnect_timer :
  forall (events : list Event) (monitor : SeiDepositMonitor.t),
    let s := run events (initial monitor) in
    (List.length (timers s) <= 1)%nat
    /\ forall timer, In timer (timers s) -> reconnectTimeout s = Some timer.
Proof.
  intros events monitor s.
  assert (oneTimer s) as [Hnone | (timer & Hsome & Hheld)]
      by (apply run_oneTimer; left; reflexivity).
  - rewrite Hnone. split; [cbn; lia | intros timer []].
  - rewrite Hsome. split; [cbn; lia |].
    intros timer' [<- | []]. exact Hheld.
Qed.

(** Neither monitoring nor holding a socket, with the sockets of [s0]. *)
Lemma step_stopped s0 s event :
  isCallStart event = false ->
  isMonitoring (monitor s) = false /\ ws s = None /\ sockets s = sockets s0 ->
  isMonitoring (monitor (step s event)) = false
  /\ ws (step s event) = None
  /\ sockets (step s event) = sockets s0.
Proof.
  intros Hevent (Hoff & Hws & Hsockets).
  assert (isMonitoring (monitor (reconnect s)) = false
          /\ ws (reconnect s) = None
          /\ sockets (reconnect s) = sockets s0) as Hreconnect.
  { unfold reconnect. destruct (reconnectTimeout s); cbn; auto. }
  destruct event as [net constructs | | socket | socket | timer constructs];
    cbn [step]; try discriminate.
  - unfold Supervisor.stop. cbn. rewrite Hws. cbn.
    destruct (reconnectTimeout s); cbn; auto.
  - unfold onError. destruct (existsb _ _); auto.
  - unfold onClose. destruct (existsb _ _); auto.
  - unfold onTimeout. destruct (existsb _ _); [| auto].
    cbn [monitor clearTimeout]. rewrite Hoff. cbn. auto.
Qed.

(** X22. After [stop], until [start] is called again, no socket is
    opened whatever happens: socket errors and closes, the close of
    the socket being shut included, only set timers that do nothing
    when they fire. *)
Theorem X22_no_socket_is_opened_after_stop :
  forall (s : Supervisor.t) (events : list Event),
    Forall (fun event => isCallStart event = false) events ->
    let s' := run events (Supervisor.stop s) in
    sockets s' = sockets s
    /\ ws s' = None
    /\ isMonitoring (monitor s') = false.
Proof.
  intros s events Hevents.
  assert (forall s1,
             isMonitoring (monitor s1) = false /\ ws s1 = None
             /\ sockets s1 = sockets s ->
             isMonitoring (monitor (run events s1)) = false
             /\ ws (run events s1) = None
             /\ sockets (run events s1) = sockets s) as Hrun.
  { induction Hevents as [| event events Hevent _ IH]; intros s1 H1; [exact H1 |].
    cbn [run fold_left]. apply IH, step_stopped; assumption. }
  destruct (Hrun (Supervisor.stop s)) as (Hoff & Hws & Hsockets).
  - unfold Supervisor.stop. cbn. destruct (ws s) eqn:Ews; cbn;
      destruct (reconnectTimeout s); cbn; auto.
  - cbv zeta. auto.
Qed.

End AnyPackage.

(** The socket is closed by [stop], reports its close, the timer set
    by that close fires, and an error is reported late. *)
Lemma X22_witness :
  let s' := run [SocketClose 0%nat; TimerFires 0%nat true; SocketError 0%nat]
                (Supervisor.stop Scenario.connected) in
  sockets s' = sockets Scenario.connected
  /\ ws s' = None
  /\ isMonitoring (monitor s') = false.
Proof.
  apply (X22_no_socket_is_opened_after_stop
           Scenario.connected
           [SocketClose 0%nat; TimerFires 0%nat true; SocketError 0%nat]).
  repeat constructor.
Defined.

(** X23. While the monitor is running, the close of a socket leaves
    exactly one timer pending; when that timer fires and the
    constructor returns, one new socket is created and becomes the
    current one with no timer left, and when the constructor throws a
    new timer is set for the next attempt. *)
Theorem X23_close_leads_to_one_new_socket :
  forall (s : Supervisor.t) (socket : Socket),
    oneTimer s -> isMonitoring (monitor s) = true -> In socket (sockets s) ->
    let timer := nextTimer s in
    let s1 := onClose socket s in
    timers s1 = [timer]
    /\ sockets (onTimeout timer true s1) = (sockets s ++ [List.length (sockets s)])%list
    /\ ws (onTimeout timer true s1) = Some (List.length (sockets s))
    /\ timers (onTimeout timer true s1) = []
    /\ sockets (onTimeout timer false s1) = sockets s
    /\ timers (onTimeout timer false s1) = [S timer].
Proof.
  intros s socket Hone Hon Hin timer s1.
  assert (existsb (Nat.eqb socket) (sockets s) = true) as Hknown.
  { apply existsb_exists. exists socket. split; [exact Hin | apply Nat.eqb_refl]. }
  assert (s1 = reconnect s) as Hs1 by (unfold s1, onClose; rewrite Hknown; reflexivity).
  assert (timers s1 = [timer]) as Htimers
      by (rewrite Hs1; apply reconnect_timers; exact Hone).
  assert (monitor s1 = monitor s /\ sockets s1 = sockets s
          /\ nextTimer s1 = S timer /\ reconnectTimeout s1 = Some timer)
    as (Hmonitor & Hsockets & Hnext & Hheld).
  { rewrite Hs1. unfold reconnect. destruct (reconnectTimeout s); cbn; auto. }
  split; [exact Htimers |].
  unfold onTimeout. rewrite Htimers. cbn [existsb]. rewrite Nat.eqb_refl. cbn [orb].
  cbn [monitor clearTimeout]. rewrite Hmonitor, Hon.
  unfold startWebSocket, reconnect. cbn. rewrite Htimers, Hsockets, Hheld.
  cbn. rewrite Htimers, Hsockets, Hnext. cbn. rewrite Nat.eqb_refl. cbn. auto 6.
Qed.

Lemma X23_witness :
  let timer := nextTimer Scenario.connected in
  let s1 := onClose 0%nat Scenario.connected in
  timers s1 = [timer]
  /\ sockets (onTimeout timer true s1)
     = (sockets Scenario.connected ++ [List.length (sockets Scenario.connected)])%list
  /\ ws (onTimeout timer true s1) = Some (List.length (sockets Scenario.connected))
  /\ timers (onTimeout timer true s1) = []
  /\ sockets (onTimeout timer false s1) = sockets Scenario.connected
  /\ timers (onTimeout timer false s1) = [S timer].
Proof.
  apply (X23_close_leads_to_one_new_socket Scenario.connected 0%nat).
  - left. reflexivity.
  - reflexivity.
  - left. reflexivity.
Defined.

(** The first request of the polling loop is outside any [try]: when
    it fails the loop ends there, and what it throws is caught by
    nobody. *)
Lemma startRestPolling_first_request_fails fuel behaviour this first nets msg w :
  getLatestBlockHeight this first = Throws msg ->
  startRestPolling fuel behaviour first nets (this, w)
  = (Effects.Raised (Effects.Printable msg), (this, w)).
Proof.
  intros Hfirst. unfold startRestPolling.
  unfold Effects.bindM at 1, Effects.get. cbn [fst].
  unfold Effects.bindM, Effects.lift. rewrite Hfirst. reflexivity.
Qed.

(** X24. A target that is not [0x] followed by forty hexadecimal
    digits is watched as it is given: [start] looks nothing up, so its
    result is the same whatever the network answers, it returns, and
    the monitor runs with that text as the receiver to match and one
    polling loop launched.  A second [start] then changes nothing.
    Nothing waits for the polling loop: when its first request fails
    the loop throws, with no poll made and nothing to catch it. *)
Theorem X24_other_targets_are_watched_as_given :
  forall (bech32 : Bech32Package) (net net' : Net.t) (constructs constructs' : bool)
         (config : MonitorConfig.t) (targetAddress : string),
    AddressUtils.isEthAddress targetAddress = false ->
    exists s',
      start net constructs (initial (new config targetAddress)) = Returns s'
      /\ start net' constructs (initial (new config targetAddress)) = Returns s'
      /\ finalAddress (monitor s') = targetAddress
      /\ isMonitoring (monitor s') = true
      /\ callbacks (monitor s') = []
      /\ pollers s' = 1%nat
      /\ start net' constructs' s' = Returns s'
      /\ forall fuel behaviour first nets msg w,
          getLatestBlockHeight (monitor s') first = Throws msg ->
          startRestPolling fuel behaviour first nets (monitor s', w)
          = (Effects.Raised (Effects.Printable msg), (monitor s', w)).
Proof.
  intros bech32 net net' constructs constructs' config targetAddress Hother.
  unfold start at 1 2.
  cbn [monitor initial new isMonitoring SeiDepositMonitor.targetAddress
       SeiDepositMonitor.finalAddress].
  rewrite Hother. cbn [bind].
  eexists. split; [reflexivity |]. split; [reflexivity |].
  assert (forall s, isMonitoring (monitor s) = true ->
                    isMonitoring (monitor (startWebSocket constructs s)) = true
                    /\ finalAddress (monitor (startWebSocket constructs s))
                       = finalAddress (monitor s)
                    /\ callbacks (monitor (startWebSocket constructs s))
                       = callbacks (monitor s)
                    /\ pollers (startWebSocket constructs s) = pollers s) as Hws.
  { intros s Hon. unfold startWebSocket, reconnect.
    destruct constructs; [cbn; auto |].
    destruct (reconnectTimeout s); cbn; auto. }
  cbn [monitor launchPolling pollers].
  match goal with
  | |- finalAddress (monitor (startWebSocket _ ?s)) = _ /\ _ =>
      destruct (Hws s eq_refl) as (Hon & Hfinal & Hcallbacks & Hpollers)
  end.
  split; [rewrite Hfinal; reflexivity |].
  split; [exact Hon |].
  split; [rewrite Hcallbacks; reflexivity |].
  split; [rewrite Hpollers; reflexivity |].
  split.
  - unfold start. cbn [monitor launchPolling]. rewrite Hon. reflexivity.
  - intros fuel behaviour first nets msg w.
    apply startRestPolling_first_request_fails.
Qed.

Lemma X24_witness :
  exists s',
    start Scenario.offline true
          (initial (new (config Scenario.watcher) Scenario.watched))
    = Returns s'
    /\ start Scenario.freshAccount true
             (initial (new (config Scenario.watcher) Scenario.watched))
       = Returns s'
    /\ finalAddress (monitor s') = Scenario.watched
    /\ isMonitoring (monitor s') = true
    /\ callbacks (monitor s') = []
    /\ pollers s' = 1%nat
    /\ start Scenario.freshAccount false s' = Returns s'
    /\ forall fuel behaviour first nets msg w,
        getLatestBlockHeight (monitor s') first = Throws msg ->
        startRestPolling fuel behaviour first nets (monitor s', w)
        = (Effects.Raised (Effects.Printable msg), (monitor s', w)).
Proof.
  apply (X24_other_targets_are_watched_as_given
           bech32_package Scenario.offline Scenario.freshAccount true false
           (config Scenario.watcher) Scenario.watched).
  reflexivity.
Defined.

End SupervisorProperties.
